(** * Zotero CSV to Neo4j importer: model and verification

    A shallow embedding of [zotero_to_neo4j.py] (class
    [ZoteroToNeo4jImporter]) and the properties of its transformation and
    upsert core.

    Layout: Python values and string primitives, the regular-expression
    fragment used by the annotation parser, the parser and the splitters,
    the row normaliser of [parse_csv], the graph store with the Cypher
    statements the importer issues, the importer itself and [main]; then the
    vocabulary of the specification (statements, traces, facts about a
    graph) and the environments used on concrete inputs; then the
    properties, each claim of the specification under its number, and
    after them further properties of the code, [main] included. *)

From Stdlib Require Import ZArith NArith Ascii DecimalString.
From stdpp Require Import base option list gmap strings fin_maps.

Local Open Scope N_scope.

(** ** Python values *)

(** A Python [str] is a sequence of Unicode code points. *)
Abbreviation ustr := (list N).

(** The code points of an ASCII literal of the source. *)
Definition u (s : string) : ustr :=
  N_of_ascii <$> String.list_ascii_of_string s.

(** Line feed, the ["\n"] of the source's patterns. *)
Definition LF : N := 10.

(** The scalar values a DataFrame cell, a statement parameter or a node
    property can hold.  [VNaN] is the float NaN pandas puts in an empty
    cell; other numeric cells are kept as integers. *)
Inductive pyval :=
  | VNone
  | VBool (b : bool)
  | VInt (z : Z)
  | VNaN
  | VStr (s : ustr).

Global Instance pyval_eq_dec : EqDecision pyval.
Proof. solve_decision. Defined.

(** The exceptions that can reach an [except Exception] clause. *)
Inductive exn :=
  | TypeError
  | ValueError
  | UnboundLocalError
  | CypherError
  | ServiceUnavailable.

Global Instance exn_eq_dec : EqDecision exn.
Proof. solve_decision. Defined.

(** A computation that returns or raises: [inr] a result, [inl] an
    exception; [x ← c; k] runs [k] unless [c] raised. *)
Global Instance exn_ret : MRet (sum exn) := λ A a, inr a.
Global Instance exn_bind : MBind (sum exn) := λ A B f c,
  match c with
  | inl e => inl e
  | inr a => f a
  end.

(** [bool(v)]: NaN is a non-zero float, hence true. *)
Definition truthy (v : pyval) : bool :=
  match v with
  | VNone => false
  | VBool b => b
  | VInt z => negb (z =? 0)%Z
  | VNaN => true
  | VStr s => match s with [] => false | _ => true end
  end.

(** [a or b]. *)
Definition py_or (a b : pyval) : pyval := if truthy a then a else b.

(** [isinstance(v, str)]. *)
Definition is_str (v : pyval) : bool :=
  match v with VStr _ => true | _ => false end.

(** [pd.notna(v)]. *)
Definition notna (v : pyval) : bool :=
  match v with VNone | VNaN => false | _ => true end.

(** [str(v)]. *)
Definition py_str (v : pyval) : ustr :=
  match v with
  | VNone => u "None"
  | VBool true => u "True"
  | VBool false => u "False"
  | VInt z => u (NilZero.string_of_int (Z.to_int z))
  | VNaN => u "nan"
  | VStr s => s
  end.

(** ** String primitives *)

(** [str.isspace] on one code point, which is also what [\s] matches in a
    [str] pattern and what [str.strip()] removes. *)
Definition isspace (c : N) : bool :=
  ((9 <=? c) && (c <=? 13)) || ((28 <=? c) && (c <=? 32))
  || (c =? 133) || (c =? 160) || (c =? 5760)
  || ((8192 <=? c) && (c <=? 8202))
  || (c =? 8232) || (c =? 8233) || (c =? 8239) || (c =? 8287)
  || (c =? 12288).

Fixpoint lstrip (s : ustr) : ustr :=
  match s with
  | c :: t => if isspace c then lstrip t else s
  | [] => []
  end.

Definition rstrip (s : ustr) : ustr := reverse (lstrip (reverse s)).

(** [s.strip()]. *)
Definition strip (s : ustr) : ustr := rstrip (lstrip s).

(** [s.split(sep)] for a one-character separator: never empty, one more
    piece than there are separators. *)
Fixpoint split (sep : N) (s : ustr) : list ustr :=
  match s with
  | [] => [[]]
  | c :: t =>
      if c =? sep then [] :: split sep t
      else match split sep t with
           | h :: r => (c :: h) :: r
           | [] => [[c]]
           end
  end.

Fixpoint startswith (p s : ustr) : bool :=
  match p, s with
  | [], _ => true
  | a :: p', b :: s' => (a =? b) && startswith p' s'
  | _ :: _, [] => false
  end.

(** [p in s] for strings. *)
Fixpoint py_in (p s : ustr) : bool :=
  startswith p s
  || match s with
     | [] => false
     | _ :: t => py_in p t
     end.

(** [s[:n]]. *)
Definition slice_to (n : nat) (s : ustr) : ustr := take n s.

(** ** The regular expressions of the annotation parser

    The three patterns have one shape: a literal marker, [\s*], and one
    capturing group [(C+)] for a character class [C].  [re.search] returns
    the leftmost match; at a position the greedy [\s*] backtracks until the
    group can start. *)

Fixpoint re_lit (p s : ustr) : option ustr :=
  match p, s with
  | [], _ => Some s
  | a :: p', b :: s' => if a =? b then re_lit p' s' else None
  | _ :: _, [] => None
  end.

Fixpoint take_class (cls : N → bool) (s : ustr) : ustr :=
  match s with
  | c :: t => if cls c then c :: take_class cls t else []
  | [] => []
  end.

(** [(C+)] at the head of [s]: the longest non-empty run. *)
Definition re_group (cls : N → bool) (s : ustr) : option ustr :=
  match take_class cls s with
  | [] => None
  | g => Some g
  end.

(** [\s*(C+)] at the head of [s]: take a space if there is one and go on;
    when that fails, start the group here. *)
Fixpoint re_spaces_group (cls : N → bool) (s : ustr) : option ustr :=
  match s with
  | c :: t =>
      if isspace c then
        match re_spaces_group cls t with
        | Some g => Some g
        | None => re_group cls s
        end
      else re_group cls s
  | [] => None
  end.

Definition re_match_at (marker : ustr) (cls : N → bool) (s : ustr)
  : option ustr :=
  rest ← re_lit marker s; re_spaces_group cls rest.

(** [re.search(marker\s*(C+), s).group(1)], [None] when there is no
    match. *)
Fixpoint re_search (marker : ustr) (cls : N → bool) (s : ustr)
  : option ustr :=
  match re_match_at marker cls s with
  | Some g => Some g
  | None =>
      match s with
      | [] => None
      | _ :: t => re_search marker cls t
      end
  end.

(** [[^\n]]. *)
Definition not_newline (c : N) : bool := negb (c =? LF).

(** ** What the Python runtime fixes and the source does not

    [\d] and [int()] follow the Unicode database of the interpreter
    (category Nd), and [int()] refuses digit strings longer than
    [sys.get_int_max_str_digits()] when that limit is not 0. *)
Record py_runtime := {
  (** the digit value of a non-ASCII decimal code point *)
  nd_value : N → option N;
  (** no decimal digit of the database is a whitespace character *)
  nd_not_space : ∀ c d, nd_value c = Some d → isspace c = false;
  (** 0 switches the limit off; the interpreter accepts no other value
      below 640 *)
  int_max_str_digits : nat;
  int_max_str_digits_min :
    (int_max_str_digits = 0 ∨ 640 ≤ int_max_str_digits)%nat
}.

Section Parser.
Context (py : py_runtime).

Definition digit_value (c : N) : option N :=
  if (48 <=? c) && (c <=? 57) then Some (c - 48) else nd_value py c.

(** [\d]. *)
Definition is_decimal (c : N) : bool :=
  match digit_value c with Some _ => true | None => false end.

Definition digits_value (ds : ustr) : option Z :=
  foldl (λ acc c, a ← acc; d ← digit_value c; Some (10 * a + Z.of_N d)%Z)
        (Some 0%Z) ds.

(** [int(ds)] on a string of decimal digits. *)
Definition py_int (ds : ustr) : exn + Z :=
  if negb (int_max_str_digits py =? 0)%nat
     && (int_max_str_digits py <? length ds)%nat
  then inl ValueError
  else match ds, digits_value ds with
       | _ :: _, Some z => inr z
       | _, _ => inl ValueError
       end.

(** *** [_parse_extra_info] *)

(** The locals of the [try] block: the dictionary under construction and
    whether the function-local name [re] has been bound, which only the
    [import re] inside the [download:] branch does. *)
Record parse_locals := {
  info_dict : gmap string pyval;
  re_bound : bool
}.

Definition parse_download (s : ustr) (st : parse_locals)
  : exn + parse_locals :=
  if py_in (u "download:") s then
    match re_search (u "download:") is_decimal s with
    | Some g =>
        match py_int g with
        | inr n =>
            inr {| info_dict := <["download_count" := VInt n]> (info_dict st);
                   re_bound := true |}
        | inl e => inl e
        end
    | None => inr {| info_dict := info_dict st; re_bound := true |}
    end
  else inr st.

Definition parse_cite (s : ustr) (st : parse_locals)
  : exn + parse_locals :=
  if py_in (u "CNKICite:") s then
    if re_bound st then
      match re_search (u "CNKICite:") is_decimal s with
      | Some g =>
          match py_int g with
          | inr n =>
              inr {| info_dict := <["cnki_citation" := VInt n]> (info_dict st);
                     re_bound := true |}
          | inl e => inl e
          end
      | None => inr st
      end
    else inl UnboundLocalError
  else inr st.

Definition parse_major (s : ustr) (st : parse_locals)
  : exn + parse_locals :=
  if py_in (u "major:") s then
    if re_bound st then
      match re_search (u "major:") not_newline s with
      | Some g =>
          inr {| info_dict := <["major_field" := VStr (strip g)]> (info_dict st);
                 re_bound := true |}
      | None => inr st
      end
    else inl UnboundLocalError
  else inr st.

(** An exception leaves the [try] block with the dictionary as it is;
    the handler only logs a warning. *)
Definition _parse_extra_info (extra_str : pyval) : gmap string pyval :=
  match extra_str with
  | VStr s =>
      let st0 := {| info_dict := ∅; re_bound := false |} in
      match parse_download s st0 with
      | inl _ => info_dict st0
      | inr st1 =>
          match parse_cite s st1 with
          | inl _ => info_dict st1
          | inr st2 =>
              match parse_major s st2 with
              | inl _ => info_dict st2
              | inr st3 => info_dict st3
              end
          end
      end
  | _ => ∅
  end.
End Parser.

(** The annotation of the spec's example, and the dictionary the parser
    returns for it. *)
Definition annotation_example : ustr :=
  u "download: 120" ++ [LF] ++ u "CNKICite: 5" ++ [LF] ++ u "major: Physics".

Definition annotation_example_facts : gmap string pyval :=
  <["download_count" := VInt 120]>
  (<["cnki_citation" := VInt 5]>
  (<["major_field" := VStr (u "Physics")]> ∅)).

(** ** [_split_authors] and [_split_tags] *)

Definition _split_authors (authors_str : pyval) : list ustr :=
  if negb (truthy authors_str) || negb (is_str authors_str) then []
  else match authors_str with
       | VStr s =>
           omap (λ author, match strip author with
                           | [] => None
                           | a => Some a
                           end) (split 59 s)
       | _ => []
       end.

Definition _split_tags (tags_str : pyval) : list ustr :=
  if negb (truthy tags_str) || negb (is_str tags_str) then []
  else match tags_str with
       | VStr s =>
           omap (λ tag, match strip tag with
                        | [] => None
                        | t => Some t
                        end) (split 59 s)
       | _ => []
       end.

(** ** [parse_csv]: rows after renaming and cleaning

    [pd.read_csv] is outside the model; a DataFrame is the list of its rows
    in index order (0, 1, ...), each a map from column name to cell.  An
    empty CSV field arrives as [VNaN]. *)

(** [column_mapping], as the renaming applied to one column name. *)
Definition column_mapping (col : string) : string :=
  if decide (col = "Key") then "zotero_key"
  else if decide (col = "Item Type") then "item_type"
  else if decide (col = "Publication Year") then "publication_year"
  else if decide (col = "Author") then "authors"
  else if decide (col = "Title") then "title"
  else if decide (col = "Publication Title") then "publication_title"
  else if decide (col = "DOI") then "doi"
  else if decide (col = "Url") then "url"
  else if decide (col = "Abstract Note") then "abstract"
  else if decide (col = "Date") then "date"
  else if decide (col = "Date Added") then "date_added"
  else if decide (col = "Date Modified") then "date_modified"
  else if decide (col = "Pages") then "pages"
  else if decide (col = "Manual Tags") then "manual_tags"
  else if decide (col = "Automatic Tags") then "auto_tags"
  else if decide (col = "File Attachments") then "file_attachments"
  else if decide (col = "Extra") then "extra_info"
  else col.

(** [df.rename(columns=...)] on one row.  A file that has both a source
    column and a column already bearing its canonical name is outside the
    model (pandas would keep two columns of one name). *)
Definition rename_columns (raw : gmap string pyval) : gmap string pyval :=
  list_to_map (prod_map column_mapping id <$> map_to_list raw).

(** [df[col].fillna('')] on one cell. *)
Definition fillna (v : pyval) : pyval :=
  match v with VNone | VNaN => VStr [] | _ => v end.

(** A row of the cleaned DataFrame.  The column [extra_info_parsed] holds
    dictionaries and is kept apart from the scalar cells; it exists only
    when the file has an [Extra] column. *)
Record row := {
  cells : gmap string pyval;
  extra_info_parsed : option (gmap string pyval)
}.

Definition parse_row (py : py_runtime) (raw : gmap string pyval) : row :=
  let renamed := rename_columns raw in
  let cleaned :=
    foldl (λ r col, alter fillna col r) renamed
          ["authors"; "manual_tags"; "auto_tags"] in
  {| cells := cleaned;
     extra_info_parsed := _parse_extra_info py <$> cleaned !! "extra_info" |}.

Definition parse_csv (py : py_runtime) (df : list (gmap string pyval))
  : list row :=
  parse_row py <$> df.

(** [paper_row.get(col, default)]. *)
Definition row_get (r : row) (col : string) (dflt : pyval) : pyval :=
  default dflt (cells r !! col).

(** ** The graph store *)

(** Modelled from the spec: the Neo4j server, an external collaborator
    that spec section 1 treats as an atomic merge-by-key primitive.  A
    node carries an internal id, labels and properties, and every scalar
    is taken to be storable; a relationship joins two ids. *)
Record node := {
  nid : nat;
  labels : list string;
  props : gmap string pyval
}.

Record edge := {
  etype : string;
  esrc : nat;
  edst : nat
}.

Global Instance edge_eq_dec : EqDecision edge.
Proof. solve_decision. Defined.

Record graph := {
  nodes : list node;
  edges : list edge
}.

Definition empty_graph : graph := {| nodes := []; edges := [] |}.

(** An id no node of the graph has. *)
Definition fresh_id (g : graph) : nat := S (max_list (nid <$> nodes g)).

(** The pattern [(n:l {k: $v})].  A null parameter matches nothing. *)
Definition node_matches (l k : string) (v : pyval) (n : node) : bool :=
  match v with
  | VNone => false
  | _ => bool_decide (l ∈ labels n) && bool_decide (props n !! k = Some v)
  end.

(** [MERGE (n:l {k: $v})]: bind the matching nodes, create one when there
    is none.  Merging on a null property value is an error. *)
Definition merge_node (l k : string) (v : pyval) (g : graph) : exn + graph :=
  match v with
  | VNone => inl CypherError
  | _ =>
      if existsb (node_matches l k v) (nodes g) then inr g
      else inr {| nodes := nodes g ++ [{| nid := fresh_id g;
                                         labels := [l];
                                         props := {[ k := v ]} |}];
                  edges := edges g |}
  end.

(** [SET n += $w]: every key of [w] is written; a null value removes the
    property. *)
Definition props_update (w m : gmap string pyval) : gmap string pyval :=
  merge (λ ow om, match ow with
                  | Some VNone => None
                  | Some v => Some v
                  | None => om
                  end) w m.

(** [SET n.k = $v]. *)
Definition set_prop (k : string) (v : pyval) (m : gmap string pyval)
  : gmap string pyval :=
  props_update {[ k := v ]} m.

(** A [SET] clause over the nodes bound by the pattern [(n:l {k: $v})]. *)
Definition set_where (l k : string) (v : pyval)
    (f : gmap string pyval → gmap string pyval) (g : graph) : graph :=
  {| nodes := (λ n, if node_matches l k v n
                    then {| nid := nid n; labels := labels n;
                            props := f (props n) |}
                    else n) <$> nodes g;
     edges := edges g |}.

Definition match_ids (l k : string) (v : pyval) (g : graph) : list nat :=
  nid <$> filter (λ n, node_matches l k v n = true) (nodes g).

(** [MERGE (p)-[:t]->(x)] for one bound pair. *)
Definition merge_edge (t : string) (g : graph) (pr : nat * nat) : graph :=
  let e := {| etype := t; esrc := pr.1; edst := pr.2 |} in
  if bool_decide (e ∈ edges g) then g
  else {| nodes := nodes g; edges := edges g ++ [e] |}.

Definition merge_edges (t : string) (prs : list (nat * nat)) (g : graph)
  : graph :=
  foldl (merge_edge t) g prs.

(** The statements of the source, with their parameters. *)
Inductive cypher :=
  | DetachDeleteAll
  | MergePaper (zotero_key : pyval) (properties : gmap string pyval)
  | MergeAuthor (name paper_title : pyval)
  | LinkAuthor (paper_key author_name : pyval)
  | MergeKeyword (name : pyval)
  | LinkKeyword (paper_key keyword_name : pyval)
  | MergePublisher (name paper_key : pyval)
  | MergeJournal (name issn paper_key : pyval)
  | MergeSubject (name paper_key : pyval).

(** [MATCH (p:Paper {zotero_key: $pk}) MATCH (x:l {name: $v})
    MERGE (p)-[:t]->(x)]: rows in the order of the two [MATCH]es. *)
Definition link_from_paper (t : string) (pk : pyval) (l : string) (v : pyval)
    (g : graph) : graph :=
  merge_edges t
    (p ← match_ids "Paper" "zotero_key" pk g;
     x ← match_ids l "name" v g; [(p, x)]) g.

(** [MERGE (x:l {name: $v}) ... WITH x MATCH (p:Paper {zotero_key: $pk})
    MERGE (p)-[:t]->(x)]: rows by [x] first. *)
Definition link_to_paper (t : string) (l : string) (v : pyval) (pk : pyval)
    (g : graph) : graph :=
  merge_edges t
    (x ← match_ids l "name" v g;
     p ← match_ids "Paper" "zotero_key" pk g; [(p, x)]) g.

(** Modelled from the spec: one auto-commit statement of the source
    against that primitive, run when the store's clock reads [now], which
    is what [datetime()] returns.  A property is matched by equality of
    values, and a statement applies as a whole or fails and changes
    nothing. *)
Definition run_cypher (now : nat) (q : cypher) (g : graph) : exn + graph :=
  match q with
  | DetachDeleteAll => inr empty_graph
  | MergePaper zk properties =>
      g1 ← merge_node "Paper" "zotero_key" zk g;
      inr (set_where "Paper" "zotero_key" zk
             (λ m, set_prop "imported_at" (VInt (Z.of_nat now))
                     (props_update properties m)) g1)
  | MergeAuthor name paper_title =>
      g1 ← merge_node "Author" "name" name g;
      inr (set_where "Author" "name" name
             (set_prop "last_seen_in" paper_title) g1)
  | LinkAuthor pk name =>
      inr (link_from_paper "AUTHORED_BY" pk "Author" name g)
  | MergeKeyword name => merge_node "Keyword" "name" name g
  | LinkKeyword pk name =>
      inr (link_from_paper "HAS_KEYWORD" pk "Keyword" name g)
  | MergePublisher name pk =>
      g1 ← merge_node "Publisher" "name" name g;
      inr (link_to_paper "PUBLISHED_BY" "Publisher" name pk g1)
  | MergeJournal name issn pk =>
      g1 ← merge_node "Journal" "name" name g;
      inr (link_to_paper "PUBLISHED_IN" "Journal" name pk
             (set_where "Journal" "name" name (set_prop "issn" issn) g1))
  | MergeSubject name pk =>
      g1 ← merge_node "Subject" "name" name g;
      inr (link_to_paper "BELONGS_TO_SUBJECT" "Subject" name pk g1)
  end.

(** ** The importer *)

(** What a run depends on outside the source: the order in which
    [list(set(l))] lists the distinct elements of [l], and whether the
    statement issued at a given clock reading fails in the store or on the
    way to it. *)
Record run_env := {
  set_order : list ustr → list ustr;
  store_fault : nat → bool
}.

(** The calls to [logger] inside [import_to_neo4j] and below. *)
Inductive log_entry :=
  | LogCleared
  | LogStart (total_papers : nat)
  | LogProgress (done total_papers : nat)
  | LogFailed (key : pyval) (e : exn)
  | LogDone (total_papers : nat)
  | LogNoPublisher (paper_key : pyval).

(** The session: the store, its clock (one tick per statement) and the log
    written so far, oldest entry first. *)
Record state := {
  store : graph;
  clock : nat;
  log : list log_entry
}.

(** Code that runs against the session and may raise. *)
Definition M (A : Type) : Type := state → (exn + A) * state.

Definition ret {A} (a : A) : M A := λ s, (inr a, s).

Definition bind {A B} (c : M A) (k : A → M B) : M B := λ s,
  match c s with
  | (inr a, s') => k a s'
  | (inl e, s') => (inl e, s')
  end.

Global Instance M_ret : MRet M := @ret.
Global Instance M_bind : MBind M := λ A B k c, bind c k.

(** [raise] an exception computed by pure code. *)
Definition lift {A} (r : exn + A) : M A := λ s, (r, s).

(** [try: body except Exception as e: handler(e)]. *)
Definition try_except (body : M unit) (handler : exn → M unit) : M unit :=
  λ s, match body s with
       | (inr _, s') => (inr (), s')
       | (inl e, s') => handler e s'
       end.

Fixpoint for_each {A} (l : list A) (body : A → M unit) : M unit :=
  match l with
  | [] => ret ()
  | x :: t => body x ;; for_each t body
  end.

Definition logging (e : log_entry) : M unit := λ s,
  (inr (), {| store := store s; clock := clock s; log := log s ++ [e] |}).

(** [session.run(q)]. *)
Definition session_run (env : run_env) (q : cypher) : M unit := λ s,
  if store_fault env (clock s)
  then (inl ServiceUnavailable,
        {| store := store s; clock := S (clock s); log := log s |})
  else match run_cypher (clock s) q (store s) with
       | inl e => (inl e, {| store := store s; clock := S (clock s);
                             log := log s |})
       | inr g => (inr (), {| store := g; clock := S (clock s);
                              log := log s |})
       end.

(** The dictionary [paper_properties] after the extra facts are merged in.
    Slicing anything but a [str] raises. *)
Definition paper_properties (paper_row : row) : exn + gmap string pyval :=
  abstract ← match row_get paper_row "abstract" (VStr []) with
             | VStr s => inr (VStr (slice_to 500 s))
             | _ => inl TypeError
             end;
  let d : gmap string pyval :=
    <["zotero_key" := row_get paper_row "zotero_key" (VStr [])]>
    (<["title" := row_get paper_row "title" (VStr [])]>
    (<["item_type" := row_get paper_row "item_type" (VStr [])]>
    (<["publication_year" := row_get paper_row "publication_year" VNone]>
    (<["publication_title" := row_get paper_row "publication_title" (VStr [])]>
    (<["doi" := row_get paper_row "doi" (VStr [])]>
    (<["url" := row_get paper_row "url" (VStr [])]>
    (<["abstract" := abstract]>
    (<["date" := row_get paper_row "date" (VStr [])]>
    (<["pages" := row_get paper_row "pages" (VStr [])]>
    (<["has_pdf" := VBool (truthy (row_get paper_row "file_attachments" VNone))]>
     ∅)))))))))) in
  let extra_info := default ∅ (extra_info_parsed paper_row) in
  inr (if decide (extra_info = ∅) then d else extra_info ∪ d).

(** The first candidate column holding a value that is not NA and not
    blank, trimmed. *)
Fixpoint find_publisher (cols : list string) (paper_row : row)
  : option ustr :=
  match cols with
  | [] => None
  | col :: rest =>
      match cells paper_row !! col with
      | Some v =>
          if notna v && truthy (VStr (strip (py_str v)))
          then Some (strip (py_str v))
          else find_publisher rest paper_row
      | None => find_publisher rest paper_row
      end
  end.

Definition possible_publisher_cols : list string :=
  ["Publisher"; "publisher"; "Publisher"; "Place"].

Definition _add_extra_nodes (env : run_env) (paper_row : row)
    (paper_key : pyval) : M unit :=
  match find_publisher possible_publisher_cols paper_row with
  | Some publisher =>
      session_run env (MergePublisher (VStr publisher) paper_key)
  | None => logging (LogNoPublisher paper_key)
  end ;;
  let journal := py_or (row_get paper_row "Publication Title" (VStr []))
                       (row_get paper_row "publication_title" (VStr [])) in
  (if truthy journal
      && bool_decide (row_get paper_row "item_type" VNone
                      = VStr (u "journalArticle"))
   then session_run env
          (MergeJournal journal (row_get paper_row "ISSN" (VStr []))
                        paper_key)
   else ret ()) ;;
  let major_field :=
    default VNone (default ∅ (extra_info_parsed paper_row) !! "major_field") in
  if truthy major_field
  then session_run env (MergeSubject major_field paper_key)
  else ret ().

Definition _import_paper (env : run_env) (paper_row : row) : M unit :=
  properties ← lift (paper_properties paper_row);
  let zotero_key := default VNone (properties !! "zotero_key") in
  let title := default VNone (properties !! "title") in
  session_run env (MergePaper zotero_key properties) ;;
  let authors := _split_authors (row_get paper_row "authors" (VStr [])) in
  for_each authors (λ author_name,
    if truthy (VStr author_name) then
      session_run env (MergeAuthor (VStr author_name) title) ;;
      session_run env (LinkAuthor zotero_key (VStr author_name))
    else ret ()) ;;
  let manual_tags := _split_tags (row_get paper_row "manual_tags" (VStr [])) in
  let auto_tags := _split_tags (row_get paper_row "auto_tags" (VStr [])) in
  let all_tags := set_order env (manual_tags ++ auto_tags) in
  for_each all_tags (λ tag_name,
    if truthy (VStr tag_name) then
      session_run env (MergeKeyword (VStr tag_name)) ;;
      session_run env (LinkKeyword zotero_key (VStr tag_name))
    else ret ()) ;;
  _add_extra_nodes env paper_row zotero_key.

(** The body of the loop over [df.iterrows()], for the row at index
    [idx]. *)
Definition import_row (env : run_env) (total_papers idx : nat)
    (paper_row : row) : M unit :=
  try_except
    (_import_paper env paper_row ;;
     if bool_decide ((idx + 1) `mod` 10 = 0)%nat
        || bool_decide (idx + 1 = total_papers)%nat
     then logging (LogProgress (idx + 1) total_papers)
     else ret ())
    (λ e, logging (LogFailed
                     (row_get paper_row "zotero_key" (VStr (u "N/A"))) e)).

(** The loop, from index [idx] on. *)
Fixpoint import_rows (env : run_env) (total_papers idx : nat)
    (df : list row) : M unit :=
  match df with
  | [] => ret ()
  | paper_row :: rest =>
      import_row env total_papers idx paper_row ;;
      import_rows env total_papers (S idx) rest
  end.

Definition import_to_neo4j (env : run_env) (df : list row)
    (clear_existing : bool) : M unit :=
  (if clear_existing
   then session_run env DetachDeleteAll ;; logging LogCleared
   else ret ()) ;;
  let total_papers := length df in
  logging (LogStart total_papers) ;;
  import_rows env total_papers 0 df ;;
  logging (LogDone total_papers).

(** ** [main]: the command line *)

(** The arguments [argparse] hands to [main]. *)
Record args := {
  csv : ustr;
  uri : ustr;
  user : ustr;
  password : ustr;
  clear : bool;
  encoding : ustr
}.

(** What [main] meets outside the source: whether [GraphDatabase.driver]
    returns a driver for the URI and the credentials or raises; what
    [pd.read_csv] makes of the file under the encoding, a frame or an
    exception; the interpreter; the store behind the driver, with the
    order of its sets and its faults, and what it holds at the start. *)
Record world := {
  driver : ustr → ustr → ustr → option unit;
  read_csv : ustr → ustr → option (list (gmap string pyval));
  runtime : py_runtime;
  session_env : run_env;
  database : graph
}.

(** The exceptions that reach the handler of [main]. *)
Inductive main_exn :=
  | DriverFailed
  | ReadFailed
  | ImportFailed (e : exn).

(** The calls to [logger] of a run of [main], those of [__init__],
    [parse_csv], [import_to_neo4j] and [close] included; the text of a
    message is not modelled. *)
Inductive main_log :=
  | Connected
  | CsvRead (records : nat)
  | CsvFailed
  | PreviewHeader
  | PreviewFields
  | PreviewTitles
  | Importer (e : log_entry)
  | Finished
  | Failed (e : main_exn)
  | Closed.

(** What a run of [main] leaves: the exit status of the process, the
    messages logged, oldest first, and the store. *)
Record outcome := {
  exit_code : Z;
  messages : list main_log;
  final_store : graph
}.

(** [importer.close()], called from the [finally] clause when [importer]
    is bound. *)
Definition close (msgs : list main_log) : list main_log := msgs ++ [Closed].

Definition main (w : world) (a : args) : outcome :=
  match driver w (uri a) (user a) (password a) with
  | None =>
      {| exit_code := 1;
         messages := [Failed DriverFailed];
         final_store := database w |}
  | Some _ =>
      match read_csv w (csv a) (encoding a) with
      | None =>
          {| exit_code := 1;
             messages := close [Connected; CsvFailed; Failed ReadFailed];
             final_store := database w |}
      | Some raw =>
          let df := parse_csv (runtime w) raw in
          let run := import_to_neo4j (session_env w) df (clear a)
                       {| store := database w; clock := 0; log := [] |} in
          let msgs := [Connected; CsvRead (length df); PreviewHeader;
                       PreviewFields; PreviewTitles]
                      ++ (Importer <$> log run.2) in
          match run.1 with
          | inr _ =>
              {| exit_code := 0;
                 messages := close (msgs ++ [Finished]);
                 final_store := store run.2 |}
          | inl e =>
              {| exit_code := 1;
                 messages := close (msgs ++ [Failed (ImportFailed e)]);
                 final_store := store run.2 |}
          end
      end
  end.

(** * Concrete environments

    Used where a statement is checked on a concrete input. *)

(** A runtime whose only decimal digits are the ASCII ones, with the
    default limit of 4300 digits. *)
Definition ascii_runtime : py_runtime :=
  {| nd_value := λ _, None;
     nd_not_space := λ c d H, ltac:(discriminate H);
     int_max_str_digits := 4300;
     int_max_str_digits_min := ltac:(right; lia) |}.

(** * Specification vocabulary *)

(** ** Statements as merge, write and link *)

(** The two properties nodes are matched on. *)
Definition key_prop (k : string) : Prop := k = "zotero_key" ∨ k = "name".

(** The node pattern a statement merges. *)
Definition merge_pattern (q : cypher) : option (string * string * pyval) :=
  match q with
  | MergePaper zk _ => Some ("Paper", "zotero_key", zk)
  | MergeAuthor name _ => Some ("Author", "name", name)
  | MergeKeyword name => Some ("Keyword", "name", name)
  | MergePublisher name _ => Some ("Publisher", "name", name)
  | MergeJournal name _ _ => Some ("Journal", "name", name)
  | MergeSubject name _ => Some ("Subject", "name", name)
  | DetachDeleteAll | LinkAuthor _ _ | LinkKeyword _ _ => None
  end.

(** The properties its [SET] clause writes on the merged nodes. *)
Definition write_map (now : nat) (q : cypher) : gmap string pyval :=
  match q with
  | MergePaper _ properties =>
      <["imported_at" := VInt (Z.of_nat now)]> properties
  | MergeAuthor _ paper_title => {[ "last_seen_in" := paper_title ]}
  | MergeJournal _ issn _ => {[ "issn" := issn ]}
  | _ => ∅
  end.

(** The relationship it merges: type, key of the paper, label and name of
    the other end. *)
Definition link_pattern (q : cypher)
  : option (string * pyval * string * pyval) :=
  match q with
  | LinkAuthor pk name => Some ("AUTHORED_BY", pk, "Author", name)
  | LinkKeyword pk name => Some ("HAS_KEYWORD", pk, "Keyword", name)
  | MergePublisher name pk => Some ("PUBLISHED_BY", pk, "Publisher", name)
  | MergeJournal name _ pk => Some ("PUBLISHED_IN", pk, "Journal", name)
  | MergeSubject name pk => Some ("BELONGS_TO_SUBJECT", pk, "Subject", name)
  | DetachDeleteAll | MergePaper _ _ | MergeAuthor _ _ | MergeKeyword _ => None
  end.

Definition stmt_matches (q : cypher) (n : node) : bool :=
  match merge_pattern q with
  | Some (l, k, v) => node_matches l k v n
  | None => false
  end.

(** What a statement does to one node that is there when its [SET] runs. *)
Definition upd (now : nat) (q : cypher) (n : node) : node :=
  if stmt_matches q n
  then {| nid := nid n; labels := labels n;
          props := props_update (write_map now q) (props n) |}
  else n.

(** The node a statement creates, if it creates one. *)
Definition created (q : cypher) (g : graph) : list node :=
  match merge_pattern q with
  | Some (l, k, v) =>
      if existsb (node_matches l k v) (nodes g) then []
      else [{| nid := fresh_id g; labels := [l]; props := {[ k := v ]} |}]
  | None => []
  end.

(** A statement can run: it is not the wipe and merges on no null key. *)
Definition stmt_ok (q : cypher) : Prop :=
  match q with
  | DetachDeleteAll => False
  | LinkAuthor _ _ | LinkKeyword _ _ => True
  | MergePaper v _ | MergeAuthor v _ | MergeKeyword v
  | MergePublisher v _ | MergeJournal v _ _ | MergeSubject v _ => v ≠ VNone
  end.

(** Its [SET] clause leaves the two key properties as they are. *)
Definition props_ok (q : cypher) : Prop :=
  match q with
  | MergePaper zk properties =>
      properties !! "zotero_key" = Some zk ∧ properties !! "name" = None
  | _ => True
  end.

Definition wf_stmt (q : cypher) : Prop := stmt_ok q ∧ props_ok q.

(** ** Runs of statements *)

(** A statement of a run that has gone through. *)
Definition exec (g : graph) (tq : nat * cypher) : graph :=
  match run_cypher tq.1 tq.2 g with
  | inr g' => g'
  | inl _ => g
  end.

(** A trace: the statements that went through, each with the clock
    reading it ran at. *)
Definition run_trace (tr : list (nat * cypher)) (g : graph) : graph :=
  foldl exec g tr.

(** Statements issued one after the other from clock reading [t]. *)
Definition stamp (t : nat) (qs : list cypher) : list (nat * cypher) :=
  imap (λ i q, ((t + i)%nat, q)) qs.

(** ** Facts about a graph *)

Definition has_node (l k : string) (v : pyval) (g : graph) : Prop :=
  ∃ n, n ∈ nodes g ∧ node_matches l k v n = true.

(** Every paper with key [pk] has a [t] relationship to every [l] node
    named [v]. *)
Definition linked (t : string) (pk : pyval) (l : string) (v : pyval)
    (g : graph) : Prop :=
  ∀ p x, p ∈ nodes g → x ∈ nodes g →
         node_matches "Paper" "zotero_key" pk p = true →
         node_matches l "name" v x = true →
         {| etype := t; esrc := nid p; edst := nid x |} ∈ edges g.

(** Both ends exist and are joined. *)
Definition connected (t : string) (pk : pyval) (l : string) (v : pyval)
    (g : graph) : Prop :=
  has_node "Paper" "zotero_key" pk g ∧ has_node l "name" v g
  ∧ linked t pk l v g.

(** What a statement leaves behind in the graph. *)
Definition holds_after (q : cypher) (g : graph) : Prop :=
  (∀ l k v, merge_pattern q = Some (l, k, v) → has_node l k v g)
  ∧ (∀ t pk l v, link_pattern q = Some (t, pk, l, v) → connected t pk l v g).


(** ** Traces of the importer *)

Definition wf_trace (tr : list (nat * cypher)) : Prop :=
  Forall (λ tq, wf_stmt tq.2) tr.

(** A statement that merges a relationship comes after the statements that
    merge its two ends (it may merge the far end itself). *)
Definition supported (before : list cypher) (q : cypher) : Prop :=
  ∀ t pk l v, link_pattern q = Some (t, pk, l, v) →
    (∃ q0, q0 ∈ before ∧ merge_pattern q0 = Some ("Paper", "zotero_key", pk))
    ∧ (∃ q0, q0 ∈ before ++ [q] ∧ merge_pattern q0 = Some (l, "name", v)).

Definition ordered (qs : list cypher) : Prop :=
  ∀ i q, qs !! i = Some q → supported (take i qs) q.

(** The value the last statement of [qs] that matches [n] and writes [x]
    gives to [x], if any does. *)
Definition last_write (qs : list cypher) (n : node) (x : string)
  : option pyval :=
  foldl (λ acc q, if stmt_matches q n
                  then match write_map 0 q !! x with
                       | Some w => Some w
                       | None => acc
                       end
                  else acc) None qs.

(** What a written value leaves in the property map. *)
Definition stored (w : pyval) : option pyval :=
  match w with VNone => None | _ => Some w end.

(** All the writes of a trace on one node. *)
Definition apply_all (tr : list (nat * cypher)) (n : node) : node :=
  foldl (λ n tq, upd tq.1 tq.2 n) n tr.

(** Two graphs with the same nodes (ids, labels and properties other than
    the import timestamp) and the same relationships. *)
Definition same_node (n2 n1 : node) : Prop :=
  nid n2 = nid n1 ∧ labels n2 = labels n1
  ∧ ∀ x, x ≠ "imported_at" → props n2 !! x = props n1 !! x.

Definition graph_sim (g2 g1 : graph) : Prop :=
  Forall2 same_node (nodes g2) (nodes g1) ∧ edges g2 = edges g1.


(** ** The statements of a row *)

Definition author_statements (zotero_key title : pyval)
    (authors : list ustr) : list cypher :=
  a ← authors;
  if truthy (VStr a)
  then [MergeAuthor (VStr a) title; LinkAuthor zotero_key (VStr a)]
  else [].

Definition keyword_statements (zotero_key : pyval)
    (all_tags : list ustr) : list cypher :=
  t ← all_tags;
  if truthy (VStr t)
  then [MergeKeyword (VStr t); LinkKeyword zotero_key (VStr t)]
  else [].

(** The journal of a row, when [_add_extra_nodes] makes a node of it. *)
Definition journal_of (paper_row : row) : option pyval :=
  let journal := py_or (row_get paper_row "Publication Title" (VStr []))
                       (row_get paper_row "publication_title" (VStr [])) in
  if truthy journal
     && bool_decide (row_get paper_row "item_type" VNone
                     = VStr (u "journalArticle"))
  then Some journal else None.

(** Its subject, likewise. *)
Definition subject_of (paper_row : row) : option pyval :=
  let major_field :=
    default VNone (default ∅ (extra_info_parsed paper_row) !! "major_field") in
  if truthy major_field then Some major_field else None.

Definition extra_statements (paper_row : row) (paper_key : pyval)
  : list cypher :=
  match find_publisher possible_publisher_cols paper_row with
  | Some publisher => [MergePublisher (VStr publisher) paper_key]
  | None => []
  end
  ++ match journal_of paper_row with
     | Some journal =>
         [MergeJournal journal (row_get paper_row "ISSN" (VStr [])) paper_key]
     | None => []
     end
  ++ match subject_of paper_row with
     | Some major_field => [MergeSubject major_field paper_key]
     | None => []
     end.

(** The key under which a row's paper is merged. *)
Definition paper_key_of (properties : gmap string pyval) : pyval :=
  default VNone (properties !! "zotero_key").

(** The tags of a row, manual then automatic, before deduplication. *)
Definition tags_of (paper_row : row) : list ustr :=
  _split_tags (row_get paper_row "manual_tags" (VStr []))
  ++ _split_tags (row_get paper_row "auto_tags" (VStr [])).

(** The statements [_import_paper] issues for a row, in order, when none
    of them fails. *)
Definition row_statements (env : run_env) (paper_row : row) : list cypher :=
  match paper_properties paper_row with
  | inl _ => []
  | inr properties =>
      let zotero_key := paper_key_of properties in
      MergePaper zotero_key properties
      :: author_statements zotero_key
           (default VNone (properties !! "title"))
           (_split_authors (row_get paper_row "authors" (VStr [])))
      ++ keyword_statements zotero_key (set_order env (tags_of paper_row))
      ++ extra_statements paper_row zotero_key
  end.

(** The statements of a row that go through when the store raises no
    fault: none when the key is null, all otherwise. *)
Definition executed (env : run_env) (paper_row : row) : list cypher :=
  match row_statements env paper_row with
  | MergePaper VNone _ :: _ => []
  | qs => qs
  end.

(** A piece of the importer, started in [s], issues the statements [qs]
    one after the other: it runs them all and returns, or stops at the
    first that fails (a store fault, or a statement the store rejects). *)
Definition issues_at (env : run_env) (c : M unit) (qs : list cypher)
    (s : state) : Prop :=
  (∃ l, log (c s).2 = log s ++ l)
  ∧ ∃ k, store (c s).2 = run_trace (stamp (clock s) (take k qs)) (store s)
         ∧ Forall stmt_ok (take k qs)
         ∧ (((c s).1 = inr () ∧ k = length qs
             ∧ clock (c s).2 = (clock s + length qs)%nat)
            ∨ (∃ e, (c s).1 = inl e) ∧ (k < length qs)%nat
              ∧ (store_fault env (clock s + k)%nat = true
                 ∨ ∃ q, qs !! k = Some q ∧ ¬ stmt_ok q)).

Definition issues (env : run_env) (c : M unit) (qs : list cypher) : Prop :=
  ∀ s, issues_at env c qs s.

(** ** Environments *)

(** [list(set(l))] lists each element of [l] once, in some order. *)
Definition set_order_valid (env : run_env) : Prop :=
  ∀ l, NoDup (set_order env l) ∧ ∀ x, x ∈ set_order env l ↔ x ∈ l.

(** The store raises no fault. *)
Definition no_faults (env : run_env) : Prop :=
  ∀ t, store_fault env t = false.

(** A dictionary with no key but the three of [_parse_extra_info]. *)
Definition extra_keys (d : gmap string pyval) : Prop :=
  ∀ x, is_Some (d !! x) →
       x = "download_count" ∨ x = "cnki_citation" ∨ x = "major_field".

(** The rows a DataFrame can hold after [parse_csv]: the extra facts, when
    present, come from [_parse_extra_info]. *)
Definition parsed_row (r : row) : Prop :=
  ∀ d, extra_info_parsed r = Some d → extra_keys d.


(** The dictionary literal of [_import_paper], before the extra facts are
    merged in. *)
Definition base_properties (paper_row : row) (abstract : pyval)
  : gmap string pyval :=
  <["zotero_key" := row_get paper_row "zotero_key" (VStr [])]>
  (<["title" := row_get paper_row "title" (VStr [])]>
  (<["item_type" := row_get paper_row "item_type" (VStr [])]>
  (<["publication_year" := row_get paper_row "publication_year" VNone]>
  (<["publication_title" := row_get paper_row "publication_title" (VStr [])]>
  (<["doi" := row_get paper_row "doi" (VStr [])]>
  (<["url" := row_get paper_row "url" (VStr [])]>
  (<["abstract" := abstract]>
  (<["date" := row_get paper_row "date" (VStr [])]>
  (<["pages" := row_get paper_row "pages" (VStr [])]>
  (<["has_pdf" := VBool (truthy (row_get paper_row "file_attachments" VNone))]>
   ∅)))))))))).

(** Statements that follow the merge of the paper [zk]: each relationship
    they merge starts at that paper, and its far end is merged by the
    statement itself or by one before it. *)
Definition follows_paper (zk : pyval) (qs : list cypher) : Prop :=
  ∀ i q, qs !! i = Some q →
    ∀ t pk l v, link_pattern q = Some (t, pk, l, v) →
      pk = zk
      ∧ ∃ q0, q0 ∈ take i qs ++ [q] ∧ merge_pattern q0 = Some (l, "name", v).


(** The store rejects the first statement of the row: its key is null. *)
Definition rejected (paper_row : row) : bool :=
  match paper_properties paper_row with
  | inr properties =>
      match paper_key_of properties with VNone => true | _ => false end
  | inl _ => false
  end.

(** ** What a run leaves of a row *)

(** The paper of the row, its authors, keywords, publisher, journal and
    subject are there, each joined to the paper. *)
Definition upserted (r : row) (g : graph) : Prop :=
  let zk := row_get r "zotero_key" (VStr []) in
  has_node "Paper" "zotero_key" zk g
  ∧ (∀ a, a ∈ _split_authors (row_get r "authors" (VStr [])) →
          connected "AUTHORED_BY" zk "Author" (VStr a) g)
  ∧ (∀ t, t ∈ tags_of r → connected "HAS_KEYWORD" zk "Keyword" (VStr t) g)
  ∧ (∀ p, find_publisher possible_publisher_cols r = Some p →
          connected "PUBLISHED_BY" zk "Publisher" (VStr p) g)
  ∧ (∀ j, journal_of r = Some j →
          connected "PUBLISHED_IN" zk "Journal" j g)
  ∧ (∀ m, subject_of r = Some m →
          connected "BELONGS_TO_SUBJECT" zk "Subject" m g).

(** The importer up to, and without, the row at index [i]. *)
Definition import_prefix (env : run_env) (df : list row)
    (clear_existing : bool) (i : nat) : M unit :=
  (if clear_existing
   then session_run env DetachDeleteAll ;; logging LogCleared
   else ret ()) ;;
  logging (LogStart (length df)) ;;
  import_rows env (length df) 0 (take i df).

(** An environment in which [list(set(l))] keeps the order of first
    occurrence and the store raises no fault. *)
Definition quiet_env : run_env :=
  {| set_order := remove_dups; store_fault := λ _, false |}.

(** A session on an empty store. *)
Definition session0 : state :=
  {| store := empty_graph; clock := 0; log := [] |}.

(** Two rows as [pd.read_csv] delivers them; the second has an empty
    abstract cell. *)
Definition sample_row1 : gmap string pyval :=
  list_to_map
    [("Key", VStr (u "K1")); ("Title", VStr (u "T1"));
     ("Abstract Note", VStr (u "An abstract"));
     ("Author", VStr (u "A; B ; "));
     ("Manual Tags", VStr (u "AI;ML"));
     ("Automatic Tags", VStr (u "ML;Data"));
     ("Item Type", VStr (u "journalArticle"));
     ("Publication Title", VStr (u "J"));
     ("Extra", VStr (u "download: 3 major: Physics"))].

Definition sample_row2 : gmap string pyval :=
  list_to_map
    [("Key", VStr (u "K2")); ("Title", VStr (u "T2"));
     ("Abstract Note", VNaN); ("Author", VStr (u "A"))].

Definition sample_df : list (gmap string pyval) :=
  [sample_row1; sample_row2].

(** A row whose attachment cell is empty. *)
Definition row_no_attachment : gmap string pyval :=
  list_to_map
    [("Key", VStr (u "K1")); ("Title", VStr (u "T1"));
     ("Abstract Note", VStr (u "An abstract"));
     ("File Attachments", VNaN)].


(** ** The invariants of the data model *)

(** Node ids are distinct, no relationship occurs twice, and two nodes
    that match one pattern are one node. *)
Definition wf_graph (g : graph) : Prop :=
  NoDup (nid <$> nodes g)
  ∧ NoDup (edges g)
  ∧ ∀ n1 n2 l k v, n1 ∈ nodes g → n2 ∈ nodes g → key_prop k →
      node_matches l k v n1 = true → node_matches l k v n2 = true → n1 = n2.

(** The [HAS_KEYWORD] relationships of a graph. *)
Definition keyword_edges (g : graph) : list edge :=
  filter (λ e, etype e = "HAS_KEYWORD") (edges g).

(** The first node that matches a pattern. *)
Definition find_node (l k : string) (v : pyval) (g : graph) : option node :=
  head (filter (λ n, node_matches l k v n = true) (nodes g)).

(** ** Further vocabulary and environments *)

(** A fact the annotation parser can return: a count under
    [download_count] or [cnki_citation], a trimmed one-line string under
    [major_field]. *)
Definition extra_fact (x : string) (w : pyval) : Prop :=
  ((x = "download_count" ∨ x = "cnki_citation")
   ∧ ∃ n, w = VInt n ∧ (0 ≤ n)%Z)
  ∨ (x = "major_field" ∧ ∃ t, w = VStr t ∧ strip t = t ∧ LF ∉ t).

(** A dictionary of such facts. *)
Definition facts_ok (d : gmap string pyval) : Prop :=
  ∀ x w, d !! x = Some w → extra_fact x w.

(** A runtime with the smallest digit limit the interpreter accepts. *)
Definition strict_runtime : py_runtime :=
  {| nd_value := λ _, None;
     nd_not_space := λ c d H, ltac:(discriminate H);
     int_max_str_digits := 640;
     int_max_str_digits_min := ltac:(right; lia) |}.

(** The columns [parse_csv] fills. *)
Definition filled_columns : list string :=
  ["authors"; "manual_tags"; "auto_tags"].

(** The relationship types of the data model, each with the label of the
    node it leads to. *)
Definition edge_schema : list (string * string) :=
  [("AUTHORED_BY", "Author"); ("HAS_KEYWORD", "Keyword");
   ("PUBLISHED_BY", "Publisher"); ("PUBLISHED_IN", "Journal");
   ("BELONGS_TO_SUBJECT", "Subject")].

(** An environment in which every statement fails on the way to the
    store. *)
Definition faulty_env : run_env :=
  {| set_order := remove_dups; store_fault := λ _, true |}.

(** The labels of the nodes the importer merges besides papers. *)
Definition secondary_labels : list string :=
  ["Author"; "Keyword"; "Publisher"; "Journal"; "Subject"].

(** A session on a store that holds a node of another application and a
    paper that is not in the sample file. *)
Definition session1 : state :=
  {| store := {| nodes := [{| nid := 1; labels := ["Note"];
                              props := {[ "text" := VStr (u "n") ]} |};
                           {| nid := 2; labels := ["Paper"];
                              props := {[ "zotero_key" := VStr (u "K9");
                                          "title" := VStr (u "T9") ]} |}];
                 edges := [{| etype := "ABOUT"; esrc := 1; edst := 2 |}] |};
     clock := 0; log := [] |}.


(** A file without a [Key] column. *)
Definition keyless_df : list (gmap string pyval) :=
  [ {[ "Title" := VStr (u "T1"); "Abstract Note" := VStr (u "a1") ]};
    {[ "Title" := VStr (u "T2"); "Abstract Note" := VStr (u "a2") ]} ].

(** A journal article whose [Publication Title] cell is empty. *)
Definition untitled_article : gmap string pyval :=
  list_to_map
    [("Key", VStr (u "K3")); ("Title", VStr (u "T3"));
     ("Abstract Note", VStr (u "a3"));
     ("Item Type", VStr (u "journalArticle"));
     ("Publication Title", VNaN)].

(** A row whose [Manual Tags] cell is empty. *)
Definition row_no_tags : gmap string pyval :=
  list_to_map [("Key", VStr (u "K4")); ("Manual Tags", VNaN)].

(** An environment whose store fails at the second statement of a
    session and at no other. *)
Definition second_fault_env : run_env :=
  {| set_order := remove_dups; store_fault := λ t, bool_decide (t = 1%nat) |}.

(** The dictionary [paper_properties] builds for the first sample row. *)
Definition sample_properties : gmap string pyval :=
  default ∅ (extra_info_parsed (parse_row ascii_runtime sample_row1))
  ∪ base_properties (parse_row ascii_runtime sample_row1)
      (VStr (slice_to 500 (u "An abstract"))).

(** A world in which the driver is created and the file is read, but
    every statement fails on the way to the store. *)
Definition unreachable_world : world :=
  {| driver := λ _ _ _, Some ();
     read_csv := λ _ _, Some sample_df;
     runtime := ascii_runtime;
     session_env := faulty_env;
     database := empty_graph |}.

Definition sample_args : args :=
  {| csv := u "library.csv"; uri := u "bolt://localhost:7687";
     user := u "neo4j"; password := u "secret"; clear := false;
     encoding := u "utf-8-sig" |}.

(** * Properties *)

(** ** Strings *)

Lemma lstrip_spec (s : ustr) :
  ∃ ws, s = ws ++ lstrip s
        ∧ Forall (λ c, isspace c = true) ws
        ∧ ∀ c, head (lstrip s) = Some c → isspace c = false.
Proof.
  induction s as [|c t (ws & Heq & Hws & Hhd)]; simpl.
  - exists []. by repeat split.
  - destruct (isspace c) eqn:Hc.
    + exists (c :: ws). split; [by rewrite Heq at 1|]. split; [by constructor|done].
    + exists []. repeat split; [constructor|]. simpl. by intros ? [= <-].
Qed.

Lemma rstrip_spec (s : ustr) :
  ∃ ws, s = rstrip s ++ ws
        ∧ Forall (λ c, isspace c = true) ws
        ∧ ∀ c, last (rstrip s) = Some c → isspace c = false.
Proof.
  unfold rstrip.
  destruct (lstrip_spec (reverse s)) as (ws & Heq & Hws & Hhd).
  exists (reverse ws). split; [|split].
  - rewrite <- reverse_app, <- Heq. by rewrite reverse_involutive.
  - by apply Forall_reverse.
  - intros c. rewrite last_reverse. apply Hhd.
Qed.

(** [strip] removes a run of whitespace from each end and stops at a
    character that is not whitespace. *)
Lemma strip_spec (s : ustr) :
  ∃ l r, s = l ++ strip s ++ r
         ∧ Forall (λ c, isspace c = true) l
         ∧ Forall (λ c, isspace c = true) r
         ∧ (∀ c, head (strip s) = Some c → isspace c = false)
         ∧ (∀ c, last (strip s) = Some c → isspace c = false).
Proof.
  unfold strip.
  destruct (lstrip_spec s) as (l & Hl & Hlw & Hhd).
  destruct (rstrip_spec (lstrip s)) as (r & Hr & Hrw & Hlast).
  exists l, r. repeat split; try done.
  - by rewrite <- Hr.
  - intros c Hc. apply Hhd. rewrite Hr.
    destruct (rstrip (lstrip s)); [done|]. by simpl in *.
Qed.

Lemma split_nonempty (sep : N) (s : ustr) : split sep s ≠ [].
Proof.
  destruct s as [|c t]; simpl; [done|].
  destruct (c =? sep); [done|]. by destruct (split sep t).
Qed.

Lemma split_app (sep : N) (s1 s2 : ustr) :
  split sep (s1 ++ sep :: s2) = split sep s1 ++ split sep s2.
Proof.
  induction s1 as [|c t IH]; simpl.
  - by rewrite N.eqb_refl.
  - destruct (c =? sep); [by rewrite IH|].
    rewrite IH. pose proof (split_nonempty sep t).
    by destruct (split sep t).
Qed.

Lemma split_no_sep (sep : N) (s : ustr) : sep ∉ s → split sep s = [s].
Proof.
  induction s as [|c t IH]; simpl; [done|].
  intros Hnot. apply not_elem_of_cons in Hnot as [Hne Hnot].
  destruct (N.eqb_spec c sep) as [->|_]; [done|].
  by rewrite IH.
Qed.

(** The body shared by the two splitters, on a string. *)
Lemma split_authors_str (s : ustr) :
  _split_authors (VStr s)
  = omap (λ a, match strip a with [] => None | t => Some t end) (split 59 s).
Proof. by destruct s. Qed.

(** ** C10 *)

(** C10: on every input value the author splitter and the tag splitter
    return the same list. *)
Theorem split_authors_split_tags_agree (v : pyval) :
  _split_authors v = _split_tags v.
Proof. by destruct v. Qed.

(** ** C4 *)

(** C4, as stated, fails: the splitter keeps a token that occurs twice. *)
Lemma split_authors_keeps_duplicates :
  _split_authors (VStr (u "A;A")) = [u "A"; u "A"]
  ∧ ¬ NoDup (_split_authors (VStr (u "A;A"))).
Proof.
  split; [reflexivity|].
  intros Hnd. apply NoDup_cons_1_1 in Hnd. apply Hnd. by left.
Qed.

(** C4 (amended): the splitter returns the non-empty whitespace-trimmed
    tokens of a semicolon-delimited string in input order, duplicates kept.
    It maps ["A; B ; "] to [["A"; "B"]]; it distributes over a semicolon;
    and a piece [s] without semicolon contributes [strip s] when that is
    not empty, where [strip s] is [s] without the whitespace at its two
    ends. *)
Theorem split_authors_tokens (s1 s2 s : ustr) :
  59 ∉ s →
  _split_authors (VStr (u "A; B ; ")) = [u "A"; u "B"]
  ∧ _split_authors (VStr (s1 ++ 59 :: s2))
    = _split_authors (VStr s1) ++ _split_authors (VStr s2)
  ∧ _split_authors (VStr s) = (if decide (strip s = []) then [] else [strip s])
  ∧ ∃ l r, s = l ++ strip s ++ r
           ∧ Forall (λ c, isspace c = true) l
           ∧ Forall (λ c, isspace c = true) r
           ∧ (∀ c, head (strip s) = Some c → isspace c = false)
           ∧ (∀ c, last (strip s) = Some c → isspace c = false).
Proof.
  intros Hs. split; [reflexivity|]. split; [|split].
  - by rewrite !split_authors_str, split_app, omap_app.
  - rewrite split_authors_str, split_no_sep by done. simpl.
    by destruct (strip s).
  - apply strip_spec.
Qed.

Lemma split_authors_tokens_witness :
  (59 ∉ u " B ")
  ∧ _split_authors (VStr (u "A" ++ 59 :: u " B "))
    = _split_authors (VStr (u "A")) ++ _split_authors (VStr (u " B ")).
Proof.
  assert (H : 59 ∉ u " B ")
    by (apply (bool_decide_unpack _); vm_compute; reflexivity).
  split; [exact H|].
  exact (proj1 (proj2 (split_authors_tokens (u "A") (u " B ") (u " B ") H))).
Defined.

(** ** The pattern matcher *)

Lemma startswith_app (p rest : ustr) : startswith p (p ++ rest) = true.
Proof. induction p as [|a p IH]; simpl; [done|]. by rewrite N.eqb_refl. Qed.

Lemma py_in_app (p pre rest : ustr) : py_in p (pre ++ p ++ rest) = true.
Proof.
  induction pre as [|c pre IH].
  - simpl app. destruct (p ++ rest) eqn:Heq; simpl;
      by rewrite <- Heq, startswith_app.
  - simpl. by rewrite IH, orb_true_r.
Qed.

Lemma re_lit_app (p rest : ustr) : re_lit p (p ++ rest) = Some rest.
Proof. induction p as [|a p IH]; simpl; [done|]. by rewrite N.eqb_refl. Qed.

Lemma re_lit_startswith (p s : ustr) :
  startswith p s = false → re_lit p s = None.
Proof.
  revert s. induction p as [|a p IH]; intros [|b s]; simpl; try done.
  destruct (a =? b); simpl; [apply IH|done].
Qed.

Lemma re_lit_length (p s rest : ustr) :
  re_lit p s = Some rest → (length rest ≤ length s)%nat.
Proof.
  revert s. induction p as [|a p IH]; intros [|b s]; simpl; try done.
  - by intros [= <-].
  - by intros [= <-].
  - destruct (a =? b); [|done]. intros H%IH. lia.
Qed.

Lemma take_class_Forall (cls : N → bool) (s : ustr) :
  Forall (λ c, cls c = true) (take_class cls s).
Proof.
  induction s as [|c t IH]; simpl; [constructor|].
  destruct (cls c) eqn:Hc; by constructor.
Qed.

Lemma take_class_length (cls : N → bool) (s : ustr) :
  (length (take_class cls s) ≤ length s)%nat.
Proof.
  induction s as [|c t IH]; simpl; [done|].
  destruct (cls c); simpl; lia.
Qed.

Lemma take_class_app (cls : N → bool) (g post : ustr) :
  Forall (λ c, cls c = true) g →
  (∀ c, head post = Some c → cls c = false) →
  take_class cls (g ++ post) = g.
Proof.
  intros Hg Hpost. induction Hg as [|c g Hc _ IH]; simpl.
  - destruct post as [|c post]; [done|]. simpl. by rewrite (Hpost c).
  - by rewrite Hc, IH.
Qed.

Lemma re_group_Some (cls : N → bool) (s g : ustr) :
  re_group cls s = Some g →
  g ≠ [] ∧ Forall (λ c, cls c = true) g ∧ (length g ≤ length s)%nat.
Proof.
  unfold re_group. pose proof (take_class_Forall cls s).
  pose proof (take_class_length cls s).
  destruct (take_class cls s); [done|]. by intros [= <-].
Qed.

Lemma re_spaces_group_Some (cls : N → bool) (s g : ustr) :
  re_spaces_group cls s = Some g →
  g ≠ [] ∧ Forall (λ c, cls c = true) g ∧ (length g ≤ length s)%nat.
Proof.
  revert g. induction s as [|c t IH]; intros g; simpl; [done|].
  destruct (isspace c).
  - destruct (re_spaces_group cls t) as [g'|].
    + intros [= <-]. destruct (IH g' eq_refl) as (? & ? & ?).
      repeat split; [done..|lia].
    + intros H%re_group_Some. simpl in H. done.
  - intros H%re_group_Some. by simpl in H.
Qed.

(** A group found by [re.search] is a non-empty run of the class, no
    longer than the text. *)
Lemma re_search_Some (marker : ustr) (cls : N → bool) (s g : ustr) :
  re_search marker cls s = Some g →
  g ≠ [] ∧ Forall (λ c, cls c = true) g ∧ (length g ≤ length s)%nat.
Proof.
  revert g. induction s as [|c t IH]; intros g; simpl.
  - unfold re_match_at. destruct (re_lit marker []) as [rest|] eqn:Hl; simpl.
    + intros H. destruct (re_spaces_group cls rest) eqn:Hg; [|done].
      apply re_lit_length in Hl. apply re_spaces_group_Some in Hg.
      simplify_eq. destruct Hg as (? & ? & ?). repeat split; [done..|].
      simpl in *. lia.
    + done.
  - unfold re_match_at.
    destruct (re_lit marker (c :: t)) as [rest|] eqn:Hl; simpl.
    + destruct (re_spaces_group cls rest) eqn:Hg.
      * intros [= <-]. apply re_lit_length in Hl.
        apply re_spaces_group_Some in Hg as (? & ? & ?).
        repeat split; [done..|]. simpl in *. lia.
      * intros (? & ? & ?)%IH. repeat split; [done..|]. simpl. lia.
    + intros (? & ? & ?)%IH. repeat split; [done..|]. simpl. lia.
Qed.

(** [\s*(C+)] on whitespace, then a maximal run of the class that does
    not begin with whitespace: the group is that run. *)
Lemma re_spaces_group_exact (cls : N → bool) (ws g post : ustr) :
  Forall (λ c, isspace c = true) ws →
  g ≠ [] →
  Forall (λ c, cls c = true) g →
  (∀ c, head g = Some c → isspace c = false) →
  (∀ c, head post = Some c → cls c = false) →
  re_spaces_group cls (ws ++ g ++ post) = Some g.
Proof.
  intros Hws Hne Hg Hhd Hpost.
  induction Hws as [|w ws Hw _ IH]; simpl.
  - destruct g as [|d g]; [done|]. simpl.
    rewrite (Hhd d eq_refl). unfold re_group.
    change (d :: g ++ post) with ((d :: g) ++ post).
    by rewrite take_class_app.
  - by rewrite Hw, IH.
Qed.

Lemma re_search_here (marker : ustr) (cls : N → bool) (s g : ustr) :
  re_match_at marker cls s = Some g → re_search marker cls s = Some g.
Proof. intros H. destruct s; simpl; by rewrite H. Qed.

(** The leftmost match is at the first place where the marker starts,
    when the text goes on there with whitespace and such a run. *)
Lemma re_search_first (marker : ustr) (cls : N → bool)
    (pre ws g post : ustr) :
  (∀ i, (i < length pre)%nat →
        startswith marker (drop i (pre ++ marker ++ ws ++ g ++ post)) = false) →
  Forall (λ c, isspace c = true) ws →
  g ≠ [] →
  Forall (λ c, cls c = true) g →
  (∀ c, head g = Some c → isspace c = false) →
  (∀ c, head post = Some c → cls c = false) →
  re_search marker cls (pre ++ marker ++ ws ++ g ++ post) = Some g.
Proof.
  intros Hfirst Hws Hne Hg Hhd Hpost.
  induction pre as [|c pre IH]; simpl.
  - apply re_search_here. unfold re_match_at. rewrite re_lit_app. simpl.
    by apply re_spaces_group_exact.
  - unfold re_match_at. rewrite re_lit_startswith; simpl.
    + apply IH. intros i Hi. apply (Hfirst (S i)). simpl. lia.
    + apply (Hfirst 0%nat). simpl. lia.
Qed.

(** ** Digits *)

Section ParserFacts.
Context (py : py_runtime).

Lemma is_decimal_not_space (c : N) :
  is_decimal py c = true → isspace c = false.
Proof.
  unfold is_decimal, digit_value.
  destruct ((48 <=? c) && (c <=? 57)) eqn:Hc.
  - intros _. apply andb_true_iff in Hc as [H1%N.leb_le H2%N.leb_le].
    unfold isspace.
    repeat (lazymatch goal with
            | |- (_ || _) = false => apply orb_false_iff; split
            | |- (_ && _) = false => apply andb_false_iff
            end).
    all: try (apply N.eqb_neq; lia).
    all: first [ left; apply N.leb_gt; lia | right; apply N.leb_gt; lia ].
  - destruct (nd_value py c) as [d|] eqn:Hd; [|done].
    intros _. by eapply nd_not_space.
Qed.

Lemma is_decimal_space (c : N) : isspace c = true → is_decimal py c = false.
Proof.
  intros Hc. destruct (is_decimal py c) eqn:Hd; [|done].
  apply is_decimal_not_space in Hd. congruence.
Qed.

Lemma digits_value_total (ds : ustr) :
  Forall (λ c, is_decimal py c = true) ds →
  is_Some (digits_value py ds).
Proof.
  unfold digits_value. generalize 0%Z.
  induction ds as [|c ds IH]; intros a Hds; simpl; [by eexists|].
  apply Forall_cons in Hds as [Hc Hds].
  unfold is_decimal in Hc. destruct (digit_value py c); [|done].
  simpl. by apply IH.
Qed.

(** [int] accepts a non-empty run of decimal digits within the limit. *)
Lemma py_int_digits (ds : ustr) :
  ds ≠ [] →
  Forall (λ c, is_decimal py c = true) ds →
  (int_max_str_digits py = 0 ∨ length ds ≤ int_max_str_digits py)%nat →
  ∃ n, digits_value py ds = Some n ∧ py_int py ds = inr n.
Proof.
  intros Hne Hds Hlim.
  destruct (digits_value_total ds Hds) as [n Hn].
  exists n. split; [done|]. unfold py_int.
  replace (negb (int_max_str_digits py =? 0)%nat
           && (int_max_str_digits py <? length ds)%nat) with false.
  - destruct ds; [done|]. by rewrite Hn.
  - symmetry. destruct Hlim as [->|Hle]; [done|].
    apply andb_false_iff. right. apply Nat.ltb_ge. done.
Qed.
End ParserFacts.

(** ** C3 *)

Section ExtraInfo.
Context (py : py_runtime).

Lemma py_int_small (ds : ustr) (n : Z) :
  ds ≠ [] → (length ds ≤ 640)%nat →
  digits_value py ds = Some n → py_int py ds = inr n.
Proof.
  intros Hne Hlen Hn. unfold py_int.
  replace (negb (int_max_str_digits py =? 0)%nat
           && (int_max_str_digits py <? length ds)%nat) with false.
  - destruct ds; [done|]. by rewrite Hn.
  - symmetry. destruct (int_max_str_digits_min py) as [->|Hle]; [done|].
    apply andb_false_iff. right. apply Nat.ltb_ge. lia.
Qed.

Lemma example_download :
  re_search (u "download:") (is_decimal py) annotation_example
  = Some (u "120").
Proof.
  apply (re_search_first (u "download:") (is_decimal py) [] (u " ")
           (u "120") (LF :: u "CNKICite: 5" ++ [LF] ++ u "major: Physics")).
  - simpl. lia.
  - by repeat constructor.
  - done.
  - by repeat constructor.
  - by intros c [= <-].
  - intros c [= <-]. by apply is_decimal_space.
Qed.

Lemma example_cite :
  re_search (u "CNKICite:") (is_decimal py) annotation_example
  = Some (u "5").
Proof.
  apply (re_search_first (u "CNKICite:") (is_decimal py)
           (u "download: 120" ++ [LF]) (u " ") (u "5")
           (LF :: u "major: Physics")).
  - intros i Hi. simpl in Hi.
    do 14 (destruct i as [|i]; [reflexivity|]). lia.
  - by repeat constructor.
  - done.
  - by repeat constructor.
  - by intros c [= <-].
  - intros c [= <-]. by apply is_decimal_space.
Qed.

Lemma example_major :
  re_search (u "major:") not_newline annotation_example
  = Some (u "Physics").
Proof.
  apply (re_search_first (u "major:") not_newline
           (u "download: 120" ++ [LF] ++ u "CNKICite: 5" ++ [LF])
           (u " ") (u "Physics") []).
  - intros i Hi. simpl in Hi.
    do 26 (destruct i as [|i]; [reflexivity|]). lia.
  - by repeat constructor.
  - done.
  - by repeat constructor.
  - by intros c [= <-].
  - done.
Qed.

Lemma parse_extra_info_example :
  _parse_extra_info py (VStr annotation_example)
  = <["download_count" := VInt 120]>
    (<["cnki_citation" := VInt 5]>
    (<["major_field" := VStr (u "Physics")]> ∅)).
Proof.
  unfold _parse_extra_info, parse_download.
  change (py_in (u "download:") annotation_example) with true.
  rewrite example_download.
  rewrite (py_int_small (u "120") 120) by (try done; simpl; lia).
  cbn [info_dict re_bound]. unfold parse_cite.
  change (py_in (u "CNKICite:") annotation_example) with true.
  cbn [info_dict re_bound]. rewrite example_cite.
  rewrite (py_int_small (u "5") 5) by (try done; simpl; lia).
  unfold parse_major.
  change (py_in (u "major:") annotation_example) with true.
  cbn [info_dict re_bound]. rewrite example_major.
  cbn [info_dict re_bound].
  apply map_eq. intros k.
  destruct (decide (k = "download_count")) as [->|?]; [done|].
  destruct (decide (k = "cnki_citation")) as [->|?]; [done|].
  destruct (decide (k = "major_field")) as [->|?]; [done|].
  by rewrite !lookup_insert_ne.
Qed.

(** With a [download:] marker in the text the first step of the parser
    binds [re] and leaves the other keys alone. *)
Lemma parse_download_binds (s : ustr) (st : parse_locals) :
  py_in (u "download:") s = true →
  (int_max_str_digits py = 0 ∨ length s ≤ int_max_str_digits py)%nat →
  ∃ st', parse_download py s st = inr st'
         ∧ re_bound st' = true
         ∧ info_dict st' !! "cnki_citation" = info_dict st !! "cnki_citation".
Proof.
  intros Hin Hlim. unfold parse_download. rewrite Hin.
  destruct (re_search (u "download:") (is_decimal py) s) as [g|] eqn:Hg.
  - apply re_search_Some in Hg as (Hne & Hall & Hlen).
    destruct (py_int_digits py g Hne Hall) as (n & _ & ->).
    { destruct Hlim; [by left|right; lia]. }
    eexists. split; [done|]. split; [done|]. cbn [info_dict].
    by rewrite lookup_insert_ne.
  - eexists. by repeat split.
Qed.

Lemma parse_major_frame (s : ustr) (st st' : parse_locals) :
  parse_major s st = inr st' →
  info_dict st' !! "cnki_citation" = info_dict st !! "cnki_citation".
Proof.
  unfold parse_major. intros H.
  repeat (case_match; simplify_eq); cbn [info_dict];
    by rewrite ?lookup_insert_ne.
Qed.
End ExtraInfo.

(** Without a [download:] marker the name [re] is never bound: the
    [CNKICite:] branch raises, the handler swallows the exception, and no
    fact is returned. *)
Lemma parse_extra_info_without_download (py : py_runtime) :
  _parse_extra_info py (VStr (u "CNKICite: 5")) = ∅.
Proof. reflexivity. Qed.

(** C3, as stated, fails: no fact is returned under [citation_count]. *)
Lemma parse_extra_info_no_citation_count :
  _parse_extra_info ascii_runtime (VStr annotation_example)
  ≠ <["download_count" := VInt 120]>
    (<["citation_count" := VInt 5]>
    (<["major_field" := VStr (u "Physics")]> ∅)).
Proof.
  rewrite parse_extra_info_example. intros Heq.
  apply (f_equal (λ m : gmap string pyval, m !! "citation_count")) in Heq.
  by vm_compute in Heq.
Qed.

(** C3 (amended): the parser maps the example annotation to
    [{download_count: 120, cnki_citation: 5, major_field: "Physics"}]; and
    in a text that contains a [download:] marker, when the first
    [CNKICite:] is followed by optional whitespace and a maximal run of
    digits, the integer those digits denote is returned under the key
    [cnki_citation]. *)
Theorem parse_extra_info_cnki_citation (py : py_runtime)
    (s pre ws ds post : ustr) :
  s = pre ++ u "CNKICite:" ++ ws ++ ds ++ post →
  (∀ i, (i < length pre)%nat → startswith (u "CNKICite:") (drop i s) = false) →
  Forall (λ c, isspace c = true) ws →
  ds ≠ [] →
  Forall (λ c, is_decimal py c = true) ds →
  (∀ c, head post = Some c → is_decimal py c = false) →
  py_in (u "download:") s = true →
  (int_max_str_digits py = 0 ∨ length s ≤ int_max_str_digits py)%nat →
  _parse_extra_info py (VStr annotation_example) = annotation_example_facts
  ∧ ∃ n, digits_value py ds = Some n
         ∧ _parse_extra_info py (VStr s) !! "cnki_citation" = Some (VInt n).
Proof.
  intros Hs Hfirst Hws Hne Hds Hpost Hdl Hlim.
  split; [apply parse_extra_info_example|].
  assert (Hlen : (length ds ≤ length s)%nat).
  { rewrite Hs, !length_app. lia. }
  destruct (py_int_digits py ds Hne Hds) as (n & Hn & Hint).
  { destruct Hlim; [by left|right; lia]. }
  exists n. split; [done|].
  assert (Hsearch : re_search (u "CNKICite:") (is_decimal py) s = Some ds).
  { rewrite Hs. apply re_search_first; try done.
    - by rewrite <- Hs.
    - intros c Hc. apply (is_decimal_not_space py).
      destruct ds; simplify_eq/=. by apply Forall_cons in Hds as [? _]. }
  assert (Hin : py_in (u "CNKICite:") s = true).
  { rewrite Hs. apply py_in_app. }
  unfold _parse_extra_info.
  destruct (parse_download_binds py s {| info_dict := ∅; re_bound := false |}
              Hdl Hlim) as (st1 & -> & Hre & _).
  unfold parse_cite. rewrite Hin, Hre, Hsearch, Hint.
  match goal with |- context [parse_major ?s ?st] =>
    destruct (parse_major s st) as [e|st3] eqn:Hmajor end.
  - cbn [info_dict]. by rewrite lookup_insert_eq.
  - rewrite (parse_major_frame _ _ _ Hmajor). cbn [info_dict].
    by rewrite lookup_insert_eq.
Qed.

Lemma parse_extra_info_cnki_citation_witness :
  ∃ n, digits_value ascii_runtime (u "5") = Some n
       ∧ _parse_extra_info ascii_runtime (VStr annotation_example)
           !! "cnki_citation" = Some (VInt n).
Proof.
  refine (proj2 (parse_extra_info_cnki_citation ascii_runtime
            annotation_example (u "download: 120" ++ [LF]) (u " ") (u "5")
            (LF :: u "major: Physics") eq_refl _ _ _ _ _ eq_refl _)).
  - intros i Hi. simpl in Hi.
    do 14 (destruct i as [|i]; [reflexivity|]). lia.
  - by repeat constructor.
  - done.
  - by repeat constructor.
  - by intros c [= <-].
  - right. vm_compute. lia.
Defined.

(** ** The store: matching and writing *)

Lemma node_matches_spec (l k : string) (v : pyval) (n : node) :
  node_matches l k v n = true
  ↔ v ≠ VNone ∧ l ∈ labels n ∧ props n !! k = Some v.
Proof.
  unfold node_matches.
  destruct v; rewrite ?andb_true_iff, ?bool_decide_eq_true;
    (split; [intros H|intros (? & ? & ?)]); try done; by destruct H.
Qed.

Lemma props_update_lookup (w m : gmap string pyval) (x : string) :
  props_update w m !! x
  = match w !! x with
    | Some VNone => None
    | Some v => Some v
    | None => m !! x
    end.
Proof.
  unfold props_update. rewrite lookup_merge.
  by destruct (w !! x) as [[]|], (m !! x).
Qed.

Lemma props_update_empty (m : gmap string pyval) : props_update ∅ m = m.
Proof. apply map_eq. intros x. by rewrite props_update_lookup, lookup_empty. Qed.

Lemma set_prop_update (k : string) (v : pyval) (w m : gmap string pyval) :
  set_prop k v (props_update w m) = props_update (<[k := v]> w) m.
Proof.
  apply map_eq. intros x. unfold set_prop.
  rewrite !props_update_lookup.
  destruct (decide (k = x)) as [->|Hne].
  - by rewrite lookup_singleton_eq, lookup_insert_eq.
  - by rewrite lookup_singleton_ne, lookup_insert_ne.
Qed.

Lemma node_eta (n : node) :
  {| nid := nid n; labels := labels n; props := props n |} = n.
Proof. by destruct n. Qed.

Lemma upd_nid (now : nat) (q : cypher) (n : node) : nid (upd now q n) = nid n.
Proof. unfold upd. by destruct (stmt_matches q n). Qed.

Lemma upd_labels (now : nat) (q : cypher) (n : node) :
  labels (upd now q n) = labels n.
Proof. unfold upd. by destruct (stmt_matches q n). Qed.

Lemma upd_props (now : nat) (q : cypher) (n : node) (x : string) :
  props (upd now q n) !! x
  = if stmt_matches q n
    then match write_map now q !! x with
         | Some VNone => None
         | Some v => Some v
         | None => props n !! x
         end
    else props n !! x.
Proof.
  unfold upd. destruct (stmt_matches q n); [|done].
  simpl. apply props_update_lookup.
Qed.

(** A well-formed statement leaves the key properties of every node as
    they are, *)
Lemma upd_key (now : nat) (q : cypher) (n : node) (k : string) :
  wf_stmt q → key_prop k → props (upd now q n) !! k = props n !! k.
Proof.
  intros [Hok Hprops] Hk. rewrite upd_props.
  destruct (stmt_matches q n) eqn:Hm; [|done].
  unfold stmt_matches in Hm.
  destruct q; simpl in *; try done;
    try (destruct Hk as [-> | ->];
         by rewrite ?lookup_singleton_ne, ?lookup_empty by done).
  apply node_matches_spec in Hm as (Hv & _ & Hzk).
  destruct Hprops as [Hp1 Hp2].
  destruct Hk as [-> | ->].
  - rewrite lookup_insert_ne, Hp1, Hzk by done. by destruct zotero_key.
  - by rewrite lookup_insert_ne, Hp2.
Qed.

(** and so matches the same patterns before and after. *)
Lemma upd_matches (now : nat) (q : cypher) (n : node)
    (l k : string) (v : pyval) :
  wf_stmt q → key_prop k →
  node_matches l k v (upd now q n) = node_matches l k v n.
Proof.
  intros Hwf Hk. unfold node_matches.
  by rewrite upd_labels, upd_key.
Qed.

Lemma stmt_matches_upd (now : nat) (q q' : cypher) (n : node) :
  wf_stmt q → stmt_matches q' (upd now q n) = stmt_matches q' n.
Proof.
  intros Hwf. unfold stmt_matches.
  destruct q'; simpl; try done; apply upd_matches; try done;
    unfold key_prop; auto.
Qed.

Lemma merge_pattern_key (q : cypher) (l k : string) (v : pyval) :
  merge_pattern q = Some (l, k, v) → key_prop k.
Proof. destruct q; intros [= <- <- <-]; unfold key_prop; auto. Qed.

(** A created node matches the pattern it was created for and no other. *)
Lemma created_matches (q : cypher) (g : graph) (n : node)
    (l k : string) (v : pyval) :
  n ∈ created q g → key_prop k → node_matches l k v n = true →
  merge_pattern q = Some (l, k, v) ∧ ¬ has_node l k v g.
Proof.
  unfold created. intros Hn Hk Hm.
  destruct (merge_pattern q) as [[[l' k'] v']|] eqn:Hq;
    [|by apply elem_of_nil in Hn].
  destruct (existsb (node_matches l' k' v') (nodes g)) eqn:Hex;
    [by apply elem_of_nil in Hn|].
  apply list_elem_of_singleton in Hn as ->.
  apply node_matches_spec in Hm as (Hv & Hl & Hp). simpl in *.
  apply list_elem_of_singleton in Hl as ->.
  apply lookup_singleton_Some in Hp as [<- <-].
  split; [done|]. intros (n & Hn & Hm).
  assert (existsb (node_matches l' k' v') (nodes g) = true); [|congruence].
  apply existsb_exists. exists n. split; [|done]. by apply list_elem_of_In.
Qed.

Lemma created_self (q : cypher) (g : graph) (n : node) :
  stmt_ok q → n ∈ created q g → stmt_matches q n = true.
Proof.
  unfold created, stmt_matches. intros Hok Hn.
  destruct (merge_pattern q) as [[[l k] v]|] eqn:Hq;
    [|by apply elem_of_nil in Hn].
  destruct (existsb (node_matches l k v) (nodes g));
    [by apply elem_of_nil in Hn|].
  apply list_elem_of_singleton in Hn as ->.
  apply node_matches_spec. simpl.
  split; [|split; [by left|by rewrite lookup_singleton_eq]].
  destruct q; simplify_eq/=; done.
Qed.

Lemma created_nil (q : cypher) (g : graph) :
  (∀ l k v, merge_pattern q = Some (l, k, v) → has_node l k v g) →
  created q g = [].
Proof.
  unfold created. intros H.
  destruct (merge_pattern q) as [[[l k] v]|]; [|done].
  destruct (H l k v eq_refl) as (n & Hn & Hm).
  destruct (existsb (node_matches l k v) (nodes g)) eqn:Hex; [done|].
  assert (existsb (node_matches l k v) (nodes g) = true); [|congruence].
  apply existsb_exists. exists n. split; [|done]. by apply list_elem_of_In.
Qed.

(** ** The store: relationships *)

Lemma merge_edges_nodes (t : string) (prs : list (nat * nat)) (g : graph) :
  nodes (merge_edges t prs g) = nodes g.
Proof.
  unfold merge_edges. revert g.
  induction prs as [|pr prs IH]; intros g; simpl; [done|].
  rewrite IH. unfold merge_edge. by case_bool_decide.
Qed.

Lemma merge_edges_mono (t : string) (prs : list (nat * nat)) (g : graph)
    (e : edge) :
  e ∈ edges g → e ∈ edges (merge_edges t prs g).
Proof.
  unfold merge_edges. revert g.
  induction prs as [|pr prs IH]; intros g He; simpl; [done|].
  apply IH. unfold merge_edge. case_bool_decide; [done|].
  simpl. apply elem_of_app. by left.
Qed.

Lemma merge_edges_covers (t : string) (prs : list (nat * nat)) (g : graph)
    (pr : nat * nat) :
  pr ∈ prs →
  {| etype := t; esrc := pr.1; edst := pr.2 |} ∈ edges (merge_edges t prs g).
Proof.
  unfold merge_edges. revert g.
  induction prs as [|pr' prs IH]; intros g Hpr; simpl.
  - by apply elem_of_nil in Hpr.
  - apply elem_of_cons in Hpr as [<-|Hpr]; [|by apply IH].
    apply (merge_edges_mono t prs). unfold merge_edge.
    case_bool_decide; [done|]. simpl. apply elem_of_app. right. by left.
Qed.

Lemma merge_edges_noop (t : string) (prs : list (nat * nat)) (g : graph) :
  (∀ pr, pr ∈ prs →
         {| etype := t; esrc := pr.1; edst := pr.2 |} ∈ edges g) →
  merge_edges t prs g = g.
Proof.
  unfold merge_edges.
  induction prs as [|pr prs IH]; intros H; simpl; [done|].
  unfold merge_edge at 2. rewrite bool_decide_eq_true_2.
  - apply IH. intros pr' Hpr'. apply H. by right.
  - apply H. by left.
Qed.

(** Every relationship of the result was there or joins one of the
    pairs. *)
Lemma merge_edges_inv (t : string) (prs : list (nat * nat)) (g : graph)
    (e : edge) :
  e ∈ edges (merge_edges t prs g) →
  e ∈ edges g
  ∨ ∃ pr, pr ∈ prs ∧ e = {| etype := t; esrc := pr.1; edst := pr.2 |}.
Proof.
  unfold merge_edges. revert g.
  induction prs as [|pr prs IH]; intros g He; simpl in *; [by left|].
  apply IH in He as [He|(pr' & Hpr' & ->)].
  - unfold merge_edge in He. case_bool_decide; [by left|].
    simpl in He. apply elem_of_app in He as [He|He]; [by left|].
    apply list_elem_of_singleton in He as ->.
    right. exists pr. split; [by left|done].
  - right. exists pr'. split; [by right|done].
Qed.

Lemma elem_of_match_ids (l k : string) (v : pyval) (g : graph) (i : nat) :
  i ∈ match_ids l k v g
  ↔ ∃ n, n ∈ nodes g ∧ node_matches l k v n = true ∧ nid n = i.
Proof.
  unfold match_ids. rewrite list_elem_of_fmap. split.
  - intros (n & -> & Hn). apply list_elem_of_filter in Hn as [? ?]. eauto.
  - intros (n & Hn & Hm & <-). exists n. split; [done|].
    by apply list_elem_of_filter.
Qed.

Lemma pairs_from_paper (ps xs : list nat) (pr : nat * nat) :
  pr ∈ (p ← ps; x ← xs; [(p, x)]) ↔ pr.1 ∈ ps ∧ pr.2 ∈ xs.
Proof.
  destruct pr as [a b]. rewrite list_elem_of_bind. simpl. split.
  - intros (p & Hx & Hp). apply list_elem_of_bind in Hx as (x & Hpr & Hx).
    apply list_elem_of_singleton in Hpr. by simplify_eq.
  - intros [Ha Hb]. exists a. split; [|done].
    apply list_elem_of_bind. exists b. split; [by left|done].
Qed.

Lemma pairs_to_paper (ps xs : list nat) (pr : nat * nat) :
  pr ∈ (x ← xs; p ← ps; [(p, x)]) ↔ pr.1 ∈ ps ∧ pr.2 ∈ xs.
Proof.
  destruct pr as [a b]. rewrite list_elem_of_bind. simpl. split.
  - intros (x & Hp & Hx). apply list_elem_of_bind in Hp as (p & Hpr & Hp).
    apply list_elem_of_singleton in Hpr. by simplify_eq.
  - intros [Ha Hb]. exists b. split; [|done].
    apply list_elem_of_bind. exists a. split; [by left|done].
Qed.

(** The two link clauses differ only in the order of their rows. *)
Lemma link_cases (t : string) (pk : pyval) (l : string) (v : pyval)
    (g g' : graph) :
  g' = link_from_paper t pk l v g ∨ g' = link_to_paper t l v pk g →
  ∃ prs, g' = merge_edges t prs g
         ∧ ∀ pr, pr ∈ prs ↔ pr.1 ∈ match_ids "Paper" "zotero_key" pk g
                            ∧ pr.2 ∈ match_ids l "name" v g.
Proof.
  intros [-> | ->]; eexists; (split; [reflexivity|]); intros pr.
  - apply pairs_from_paper.
  - apply pairs_to_paper.
Qed.

Lemma link_nodes (t : string) (pk : pyval) (l : string) (v : pyval)
    (g g' : graph) :
  g' = link_from_paper t pk l v g ∨ g' = link_to_paper t l v pk g →
  nodes g' = nodes g.
Proof.
  intros (prs & -> & _)%link_cases. apply merge_edges_nodes.
Qed.

Lemma link_mono (t : string) (pk : pyval) (l : string) (v : pyval)
    (g g' : graph) (e : edge) :
  g' = link_from_paper t pk l v g ∨ g' = link_to_paper t l v pk g →
  e ∈ edges g → e ∈ edges g'.
Proof.
  intros (prs & -> & _)%link_cases. apply merge_edges_mono.
Qed.

Lemma link_linked (t : string) (pk : pyval) (l : string) (v : pyval)
    (g g' : graph) :
  g' = link_from_paper t pk l v g ∨ g' = link_to_paper t l v pk g →
  linked t pk l v g'.
Proof.
  intros H. pose proof (link_nodes _ _ _ _ _ _ H) as Hn.
  apply link_cases in H as (prs & -> & Hprs).
  intros p x Hp Hx Hmp Hmx. rewrite Hn in Hp, Hx.
  apply (merge_edges_covers t prs g (nid p, nid x)).
  apply Hprs. simpl. split; apply elem_of_match_ids; eauto.
Qed.

Lemma link_noop (t : string) (pk : pyval) (l : string) (v : pyval)
    (g g' : graph) :
  g' = link_from_paper t pk l v g ∨ g' = link_to_paper t l v pk g →
  linked t pk l v g → g' = g.
Proof.
  intros (prs & -> & Hprs)%link_cases Hl.
  apply merge_edges_noop. intros pr [Hp Hx]%Hprs.
  apply elem_of_match_ids in Hp as (p & Hp & Hmp & <-).
  apply elem_of_match_ids in Hx as (x & Hx & Hmx & <-).
  by apply Hl.
Qed.

Lemma link_inv (t : string) (pk : pyval) (l : string) (v : pyval)
    (g g' : graph) (e : edge) :
  g' = link_from_paper t pk l v g ∨ g' = link_to_paper t l v pk g →
  e ∈ edges g' →
  e ∈ edges g
  ∨ ∃ p x, p ∈ nodes g ∧ x ∈ nodes g
           ∧ node_matches "Paper" "zotero_key" pk p = true
           ∧ node_matches l "name" v x = true
           ∧ e = {| etype := t; esrc := nid p; edst := nid x |}.
Proof.
  intros (prs & -> & Hprs)%link_cases He.
  apply merge_edges_inv in He as [He|(pr & [Hp Hx]%Hprs & ->)]; [by left|].
  apply elem_of_match_ids in Hp as (p & Hp & Hmp & <-).
  apply elem_of_match_ids in Hx as (x & Hx & Hmx & <-).
  right. by exists p, x.
Qed.

(** ** The store: one statement *)

Lemma merge_node_inr (l k : string) (v : pyval) (g g1 : graph) :
  merge_node l k v g = inr g1 →
  v ≠ VNone
  ∧ edges g1 = edges g
  ∧ nodes g1
    = nodes g ++ (if existsb (node_matches l k v) (nodes g) then []
                  else [{| nid := fresh_id g; labels := [l];
                           props := {[ k := v ]} |}]).
Proof.
  unfold merge_node.
  destruct v; try done;
    (destruct (existsb _ (nodes g)); intros [= <-];
     (split; [done|]); (split; [done|]); simpl; by rewrite ?app_nil_r).
Qed.

Lemma run_cypher_stmt_ok (now : nat) (q : cypher) (g g' : graph) :
  q ≠ DetachDeleteAll → run_cypher now q g = inr g' → stmt_ok q.
Proof.
  intros Hq H. destruct q; simpl in *; try done;
    match type of H with
    | context [merge_node ?l ?k ?v ?g] =>
        destruct (merge_node l k v g) as [e|g1] eqn:Hm; [done|];
        by apply merge_node_inr in Hm as [? _]
    end.
Qed.

Lemma run_cypher_total (now : nat) (q : cypher) (g : graph) :
  stmt_ok q → ∃ g', run_cypher now q g = inr g'.
Proof.
  intros Hq. destruct q; simpl in *; try done; try by eexists.
  all: unfold merge_node; destruct_all pyval; try done;
    destruct (existsb _ (nodes g)); by eexists.
Qed.

(** The shape of a statement: merge a node, write on the matching nodes,
    then merge the relationships. *)
Lemma run_cypher_nf (now : nat) (q : cypher) (g g' : graph) :
  q ≠ DetachDeleteAll → run_cypher now q g = inr g' →
  ∃ gm, nodes gm = upd now q <$> (nodes g ++ created q g)
        ∧ edges gm = edges g
        ∧ match link_pattern q with
          | Some (t, pk, l, v) =>
              g' = link_from_paper t pk l v gm ∨ g' = link_to_paper t l v pk gm
          | None => g' = gm
          end.
Proof.
  intros Hq H.
  assert (Hid : ∀ ns : list node,
            (∀ n, stmt_matches q n = false) → ns = upd now q <$> ns).
  { intros ns Hno. rewrite <- (list_fmap_id ns) at 1.
    apply list_fmap_ext. intros _ n _. unfold upd. by rewrite Hno. }
  assert (Hnoset : ∀ ns : list node,
            write_map now q = ∅ → ns = upd now q <$> ns).
  { intros ns Hw. rewrite <- (list_fmap_id ns) at 1.
    apply list_fmap_ext. intros _ n _. unfold upd. rewrite Hw.
    destruct (stmt_matches q n); [|done].
    by rewrite props_update_empty, node_eta. }
  destruct q; simpl in H; try done;
    try (destruct (merge_node _ _ _ g) as [e|g1] eqn:Hm; [done|];
         apply merge_node_inr in Hm as (_ & He & Hn); simplify_eq/=).
  - eexists. split; [|split; [|reflexivity]]; [|done].
    unfold created. simpl. rewrite Hn.
    apply list_fmap_ext. intros _ n _. unfold upd, stmt_matches. simpl.
    destruct (node_matches _ _ _ n); [|done]. by rewrite set_prop_update.
  - eexists. split; [|split; [|reflexivity]]; [|done].
    unfold created. simpl. rewrite Hn.
    apply list_fmap_ext. intros _ n _. by unfold upd, stmt_matches.
  - simplify_eq/=. exists g. split; [|split; [done|by left]].
    unfold created. simpl. rewrite app_nil_r. by apply Hid.
  - exists g'. split; [|done]. unfold created. simpl. rewrite Hn.
    by apply Hnoset.
  - simplify_eq/=. exists g. split; [|split; [done|by left]].
    unfold created. simpl. rewrite app_nil_r. by apply Hid.
  - exists g1. split; [|split; [done|by right]].
    unfold created. simpl. rewrite Hn. by apply Hnoset.
  - eexists. split; [|split; [|right; reflexivity]]; [|done].
    unfold created. simpl. rewrite Hn.
    apply list_fmap_ext. intros _ n _. by unfold upd, stmt_matches.
  - exists g1. split; [|split; [done|by right]].
    unfold created. simpl. rewrite Hn. by apply Hnoset.
Qed.

Lemma link_pattern_cases (q : cypher) (gm g' : graph) :
  match link_pattern q with
  | Some (t, pk, l, v) =>
      g' = link_from_paper t pk l v gm ∨ g' = link_to_paper t l v pk gm
  | None => g' = gm
  end →
  nodes g' = nodes gm ∧ ∀ e, e ∈ edges gm → e ∈ edges g'.
Proof.
  destruct (link_pattern q) as [[[[t pk] l] v]|]; [|by intros ->].
  intros H. split; [by eapply link_nodes|]. intros e. by eapply link_mono.
Qed.

(** The nodes after a statement: the old ones and the created one, all
    seen by its [SET]. *)
Lemma run_cypher_nodes (now : nat) (q : cypher) (g g' : graph) :
  q ≠ DetachDeleteAll → run_cypher now q g = inr g' →
  nodes g' = upd now q <$> (nodes g ++ created q g).
Proof.
  intros Hq (gm & Hn & _ & Hl)%run_cypher_nf; [|done].
  apply link_pattern_cases in Hl as [-> _]. done.
Qed.

Lemma run_cypher_edges_mono (now : nat) (q : cypher) (g g' : graph)
    (e : edge) :
  q ≠ DetachDeleteAll → run_cypher now q g = inr g' →
  e ∈ edges g → e ∈ edges g'.
Proof.
  intros Hq (gm & _ & He & Hl)%run_cypher_nf; [|done].
  apply link_pattern_cases in Hl as [_ Hl]. intros. apply Hl. by rewrite He.
Qed.

Lemma run_cypher_linked (now : nat) (q : cypher) (g g' : graph)
    (t : string) (pk : pyval) (l : string) (v : pyval) :
  run_cypher now q g = inr g' → link_pattern q = Some (t, pk, l, v) →
  linked t pk l v g'.
Proof.
  intros H Hq. apply run_cypher_nf in H as (gm & _ & _ & Hl);
    [|by destruct q].
  rewrite Hq in Hl. by eapply link_linked.
Qed.

(** A relationship of the result was there, or is the one the statement
    merges between two nodes of the result. *)
Lemma run_cypher_edges_inv (now : nat) (q : cypher) (g g' : graph)
    (e : edge) :
  q ≠ DetachDeleteAll → run_cypher now q g = inr g' → e ∈ edges g' →
  e ∈ edges g
  ∨ ∃ t pk l v p x,
      link_pattern q = Some (t, pk, l, v)
      ∧ p ∈ nodes g' ∧ x ∈ nodes g'
      ∧ node_matches "Paper" "zotero_key" pk p = true
      ∧ node_matches l "name" v x = true
      ∧ e = {| etype := t; esrc := nid p; edst := nid x |}.
Proof.
  intros Hq (gm & _ & He & Hl)%run_cypher_nf Hin; [|done].
  destruct (link_pattern q) as [[[[t pk] l] v]|] eqn:Hlp.
  - pose proof (link_nodes _ _ _ _ _ _ Hl) as Hn.
    eapply link_inv in Hin as [Hin|(p & x & ? & ? & ? & ? & ->)]; [| |done].
    + left. by rewrite <- He.
    + right. exists t, pk, l, v, p, x. rewrite Hn. done.
  - left. subst g'. by rewrite <- He.
Qed.

(** ** Facts are kept by every statement *)

Lemma graph_eq (g1 g2 : graph) :
  nodes g1 = nodes g2 → edges g1 = edges g2 → g1 = g2.
Proof. destruct g1, g2. simpl. by intros -> ->. Qed.

Lemma wf_not_wipe (q : cypher) : wf_stmt q → q ≠ DetachDeleteAll.
Proof. intros [Hok _] ->. done. Qed.

Lemma has_node_step (now : nat) (q : cypher) (g g' : graph)
    (l k : string) (v : pyval) :
  wf_stmt q → run_cypher now q g = inr g' → key_prop k →
  has_node l k v g → has_node l k v g'.
Proof.
  intros Hwf Hrun Hk (n & Hn & Hm).
  exists (upd now q n). split.
  - erewrite run_cypher_nodes; [|by apply wf_not_wipe|done].
    apply list_elem_of_fmap. exists n. split; [done|].
    apply elem_of_app. by left.
  - by rewrite upd_matches.
Qed.

Lemma connected_step (now : nat) (q : cypher) (g g' : graph)
    (t : string) (pk : pyval) (l : string) (v : pyval) :
  wf_stmt q → run_cypher now q g = inr g' →
  connected t pk l v g → connected t pk l v g'.
Proof.
  intros Hwf Hrun (Hp & Hx & Hl).
  assert (Hq : q ≠ DetachDeleteAll) by (by apply wf_not_wipe).
  assert (Hkz : key_prop "zotero_key") by (by left).
  assert (Hkn : key_prop "name") by (by right).
  split; [by eapply has_node_step|]. split; [by eapply has_node_step|].
  intros p x Hpin Hxin Hmp Hmx.
  rewrite (run_cypher_nodes _ _ _ _ Hq Hrun) in Hpin, Hxin.
  apply list_elem_of_fmap in Hpin as (p0 & -> & Hp0).
  apply list_elem_of_fmap in Hxin as (x0 & -> & Hx0).
  rewrite upd_matches in Hmp, Hmx by done. rewrite !upd_nid.
  apply elem_of_app in Hp0 as [Hp0|Hp0];
    [|by destruct (created_matches _ _ _ _ _ _ Hp0 Hkz Hmp)].
  apply elem_of_app in Hx0 as [Hx0|Hx0];
    [|by destruct (created_matches _ _ _ _ _ _ Hx0 Hkn Hmx)].
  eapply run_cypher_edges_mono; [done..|]. by apply Hl.
Qed.

Lemma holds_after_step (now : nat) (q q0 : cypher) (g g' : graph) :
  wf_stmt q → run_cypher now q g = inr g' →
  holds_after q0 g → holds_after q0 g'.
Proof.
  intros Hwf Hrun [Hn Hl]. split.
  - intros l k v Hq0. eapply has_node_step; [done..| |by apply Hn].
    by eapply merge_pattern_key.
  - intros t pk l v Hq0. eapply connected_step; [done..|]. by apply Hl.
Qed.

(** After a statement the node it merges is there. *)
Lemma has_node_merged (now : nat) (q : cypher) (g g' : graph)
    (l k : string) (v : pyval) :
  wf_stmt q → run_cypher now q g = inr g' →
  merge_pattern q = Some (l, k, v) → has_node l k v g'.
Proof.
  intros Hwf Hrun Hq.
  assert (Hne : q ≠ DetachDeleteAll) by (by apply wf_not_wipe).
  assert (Hk : key_prop k) by (by eapply merge_pattern_key).
  destruct (existsb (node_matches l k v) (nodes g)) eqn:Hex.
  - apply existsb_exists in Hex as (n & Hn%list_elem_of_In & Hm).
    eapply has_node_step; [done..|]. by exists n.
  - set (new := {| nid := fresh_id g; labels := [l]; props := {[ k := v ]} |}).
    assert (Hc : created q g = [new]) by (unfold created; by rewrite Hq, Hex).
    exists (upd now q new). split.
    + rewrite (run_cypher_nodes _ _ _ _ Hne Hrun), Hc.
      apply list_elem_of_fmap. exists new. split; [done|].
      apply elem_of_app. right. by left.
    + rewrite upd_matches by done.
      assert (Hs : stmt_matches q new = true).
      { apply (created_self q g); [by destruct Hwf|]. rewrite Hc. by left. }
      unfold stmt_matches in Hs. by rewrite Hq in Hs.
Qed.

(** A statement whose ends are merged before it leaves its own fact. *)
Lemma holds_after_run (now : nat) (q : cypher) (g g' : graph) :
  wf_stmt q → run_cypher now q g = inr g' →
  (∀ t pk l v, link_pattern q = Some (t, pk, l, v) →
     has_node "Paper" "zotero_key" pk g
     ∧ (has_node l "name" v g ∨ merge_pattern q = Some (l, "name", v))) →
  holds_after q g'.
Proof.
  intros Hwf Hrun Hsup. split.
  - intros l k v Hq. by eapply has_node_merged.
  - intros t pk l v Hq. destruct (Hsup t pk l v Hq) as [Hp Hx].
    split; [|split].
    + eapply has_node_step; [done..|by left|done].
    + destruct Hx as [Hx|Hx].
      * eapply has_node_step; [done..|by right|done].
      * by eapply has_node_merged.
    + by eapply run_cypher_linked.
Qed.

(** A statement whose fact holds already creates nothing: it only
    writes. *)
Lemma run_cypher_noop (now : nat) (q : cypher) (g : graph) :
  wf_stmt q → holds_after q g →
  run_cypher now q g
  = inr {| nodes := upd now q <$> nodes g; edges := edges g |}.
Proof.
  intros Hwf [Hn Hl].
  assert (Hne : q ≠ DetachDeleteAll) by (by apply wf_not_wipe).
  destruct (run_cypher_total now q g) as [g' Hrun]; [by destruct Hwf|].
  rewrite Hrun. f_equal.
  destruct (run_cypher_nf _ _ _ _ Hne Hrun) as (gm & Hnodes & Hedges & Hlink).
  rewrite (created_nil q g Hn), app_nil_r in Hnodes.
  assert (Hgm : gm = {| nodes := upd now q <$> nodes g; edges := edges g |})
    by (by apply graph_eq).
  destruct (link_pattern q) as [[[[t pk] l] v]|] eqn:Hq; [|congruence].
  rewrite <- Hgm. eapply link_noop; [done|].
  destruct (Hl t pk l v eq_refl) as (_ & _ & Hlinked).
  intros p x Hp Hx Hmp Hmx. rewrite Hedges. rewrite Hnodes in Hp, Hx.
  apply list_elem_of_fmap in Hp as (p0 & -> & Hp0).
  apply list_elem_of_fmap in Hx as (x0 & -> & Hx0).
  rewrite upd_matches in Hmp, Hmx by (try done; unfold key_prop; auto).
  rewrite !upd_nid. by apply Hlinked.
Qed.

(** ** Traces *)

Lemma exec_wf (g : graph) (t : nat) (q : cypher) :
  wf_stmt q → run_cypher t q g = inr (exec g (t, q)).
Proof.
  intros [Hok _]. unfold exec. simpl.
  by destruct (run_cypher_total t q g Hok) as [g' ->].
Qed.

Lemma run_trace_snoc (tr : list (nat * cypher)) (tq : nat * cypher)
    (g : graph) :
  run_trace (tr ++ [tq]) g = exec (run_trace tr g) tq.
Proof. unfold run_trace. by rewrite foldl_app. Qed.

Lemma run_trace_app (tr1 tr2 : list (nat * cypher)) (g : graph) :
  run_trace (tr1 ++ tr2) g = run_trace tr2 (run_trace tr1 g).
Proof. unfold run_trace. by rewrite foldl_app. Qed.

Lemma ordered_snoc (qs : list cypher) (q : cypher) :
  ordered (qs ++ [q]) → ordered qs ∧ supported qs q.
Proof.
  intros H. split.
  - intros i q0 Hi. pose proof (lookup_lt_Some _ _ _ Hi) as Hlt.
    specialize (H i q0). rewrite lookup_app_l, take_app_le in H by lia.
    by apply H.
  - specialize (H (length qs) q).
    rewrite lookup_app_r, Nat.sub_diag, take_app_length in H by lia.
    by apply H.
Qed.

Lemma ordered_app (qs1 qs2 : list cypher) :
  ordered qs1 → ordered qs2 → ordered (qs1 ++ qs2).
Proof.
  intros H1 H2 i q Hi.
  destruct (decide (i < length qs1)%nat) as [Hlt|Hge].
  - rewrite lookup_app_l in Hi by done. rewrite take_app_le by lia.
    by apply H1.
  - rewrite lookup_app_r in Hi by lia. rewrite take_app_ge by lia.
    intros t pk l v Hq. destruct (H2 _ _ Hi t pk l v Hq) as [Hp Hx]. split.
    + destruct Hp as (q0 & Hq0 & ?). exists q0. split; [|done].
      apply elem_of_app. by right.
    + destruct Hx as (q0 & Hq0 & ?). exists q0. split; [|done].
      rewrite <- app_assoc. apply elem_of_app. by right.
Qed.

Lemma write_map_time (t : nat) (q : cypher) (x : string) :
  x ≠ "imported_at" → write_map t q !! x = write_map 0 q !! x.
Proof. intros Hx. destruct q; simpl; try done. by rewrite !lookup_insert_ne. Qed.

Lemma last_write_snoc (qs : list cypher) (q : cypher) (n : node)
    (x : string) :
  last_write (qs ++ [q]) n x
  = if stmt_matches q n
    then match write_map 0 q !! x with
         | Some w => Some w
         | None => last_write qs n x
         end
    else last_write qs n x.
Proof. unfold last_write. by rewrite foldl_app. Qed.

Lemma last_write_ext (qs : list cypher) (n n' : node) (x : string) :
  (∀ q, stmt_matches q n = stmt_matches q n') →
  last_write qs n x = last_write qs n' x.
Proof.
  intros H. induction qs as [|q qs IH] using rev_ind; [done|].
  by rewrite !last_write_snoc, IH, H.
Qed.

Lemma last_write_matched (qs : list cypher) (n : node) (x : string)
    (w : pyval) :
  last_write qs n x = Some w → ∃ q, q ∈ qs ∧ stmt_matches q n = true.
Proof.
  induction qs as [|q qs IH] using rev_ind; [done|].
  rewrite last_write_snoc. destruct (stmt_matches q n) eqn:Hm.
  - intros _. exists q. split; [|done]. apply elem_of_app. right. by left.
  - intros (q0 & ? & ?)%IH. exists q0. split; [|done].
    apply elem_of_app. by left.
Qed.

(** After a run of well-formed, ordered statements every statement's fact
    holds, and a property some statement wrote holds what the last such
    statement gave it. *)
Lemma run_trace_facts (tr : list (nat * cypher)) (g : graph) :
  wf_trace tr → ordered tr.*2 →
  (∀ q, q ∈ tr.*2 → holds_after q (run_trace tr g))
  ∧ (∀ n x w, n ∈ nodes (run_trace tr g) → x ≠ "imported_at" →
       last_write tr.*2 n x = Some w → props n !! x = stored w).
Proof.
  induction tr as [|[t q] tr IH] using rev_ind; intros Hwf Hord.
  - split; [by intros q ?%elem_of_nil|]. by intros n x w _ _ ?.
  - apply Forall_app in Hwf as [Hwf Hq%Forall_inv]. simpl in Hq.
    rewrite fmap_app in Hord. simpl in Hord.
    apply ordered_snoc in Hord as [Hord Hsup].
    destruct (IH Hwf Hord) as [IH1 IH2]. clear IH.
    rewrite run_trace_snoc, fmap_app. simpl.
    set (G := run_trace tr g) in *.
    pose proof (exec_wf G t q Hq) as Hrun.
    split.
    + intros q0 [Hq0|Hq0%list_elem_of_singleton]%elem_of_app.
      * eapply holds_after_step; [done..|]. by apply IH1.
      * subst q0. eapply holds_after_run; [done..|].
        intros ty pk l v Hlp.
        destruct (Hsup ty pk l v Hlp) as [(q1 & Hq1 & Hm1) (q2 & Hq2 & Hm2)].
        split; [by apply (IH1 q1 Hq1)|].
        apply elem_of_app in Hq2 as [Hq2|Hq2%list_elem_of_singleton].
        -- left. by apply (IH1 q2 Hq2).
        -- right. by subst q2.
    + intros n' x w Hn' Hx.
      rewrite (run_cypher_nodes _ _ _ _ (wf_not_wipe _ Hq) Hrun) in Hn'.
      apply list_elem_of_fmap in Hn' as (n & -> & Hn).
      rewrite last_write_snoc, stmt_matches_upd by done.
      rewrite (last_write_ext _ (upd t q n) n)
        by (intros; by apply stmt_matches_upd).
      rewrite upd_props, (write_map_time t q x) by done.
      destruct (stmt_matches q n) eqn:Hm.
      * destruct (write_map 0 q !! x) as [w'|] eqn:Hw.
        { intros [= ->]. by destruct w. }
        intros Hlw. apply elem_of_app in Hn as [Hn|Hn]; [by eapply IH2|].
        exfalso. apply last_write_matched in Hlw as (q0 & Hq0 & Hm0).
        unfold stmt_matches in Hm0.
        destruct (merge_pattern q0) as [[[l k] v]|] eqn:Hp0; [|done].
        destruct (created_matches _ _ _ _ _ _ Hn
                    (merge_pattern_key _ _ _ _ Hp0) Hm0) as [_ Hno].
        apply Hno. by apply (IH1 q0 Hq0).
      * intros Hlw. apply elem_of_app in Hn as [Hn|Hn]; [by eapply IH2|].
        by rewrite (created_self q G n) in Hm by (by destruct Hq).
Qed.

Lemma apply_all_snoc (tr : list (nat * cypher)) (t : nat) (q : cypher)
    (n : node) :
  apply_all (tr ++ [(t, q)]) n = upd t q (apply_all tr n).
Proof. unfold apply_all. by rewrite foldl_app. Qed.

Lemma apply_all_matches (tr : list (nat * cypher)) (n : node) (q : cypher) :
  wf_trace tr → stmt_matches q (apply_all tr n) = stmt_matches q n.
Proof.
  induction tr as [|[t q0] tr IH] using rev_ind; intros Hwf; [done|].
  apply Forall_app in Hwf as [Hwf Hq%Forall_inv].
  by rewrite apply_all_snoc, stmt_matches_upd, IH.
Qed.

Lemma apply_all_nid (tr : list (nat * cypher)) (n : node) :
  nid (apply_all tr n) = nid n ∧ labels (apply_all tr n) = labels n.
Proof.
  induction tr as [|[t q0] tr IH] using rev_ind; [done|].
  by rewrite apply_all_snoc, upd_nid, upd_labels.
Qed.

(** The writes of a trace on a node leave in each property the value of
    the last write to it. *)
Lemma apply_all_props (tr : list (nat * cypher)) (n : node) (x : string) :
  wf_trace tr → x ≠ "imported_at" →
  props (apply_all tr n) !! x
  = match last_write tr.*2 n x with
    | Some w => stored w
    | None => props n !! x
    end.
Proof.
  intros Hwf Hx. induction tr as [|[t q] tr IH] using rev_ind; [done|].
  apply Forall_app in Hwf as [Hwf Hq%Forall_inv].
  rewrite apply_all_snoc, fmap_app.
  change ([(t, q)].*2) with [q]. rewrite last_write_snoc.
  rewrite upd_props, apply_all_matches, (write_map_time t q x) by done.
  destruct (stmt_matches q n); [|by apply IH].
  destruct (write_map 0 q !! x) as [w|]; [by destruct w|by apply IH].
Qed.

(** A trace all of whose facts hold already creates no node and no
    relationship. *)
Lemma run_trace_settled (tr : list (nat * cypher)) (g : graph) :
  wf_trace tr → (∀ q, q ∈ tr.*2 → holds_after q g) →
  run_trace tr g = {| nodes := apply_all tr <$> nodes g; edges := edges g |}.
Proof.
  revert g. induction tr as [|[t q] tr IH]; intros g Hwf Hfacts.
  - apply graph_eq; [|done]. simpl. by rewrite list_fmap_id.
  - apply Forall_cons in Hwf as [Hq Hwf]. simpl in Hq.
    change (run_trace ((t, q) :: tr) g) with (run_trace tr (exec g (t, q))).
    pose proof (exec_wf g t q Hq) as Hrun.
    rewrite IH; [|done|].
    + rewrite run_cypher_noop in Hrun; [|done|apply Hfacts; by left].
      injection Hrun as <-. simpl. apply graph_eq; [|done]. simpl.
      by rewrite <- list_fmap_compose.
    + intros q0 Hq0. eapply holds_after_step; [done..|].
      apply Hfacts. by right.
Qed.

(** Running a second trace on the result of a first one, when it issues
    no statement the first did not and writes the same last values, gives
    the same graph up to the import timestamps. *)
Lemma rerun_same_graph (tr1 tr2 : list (nat * cypher)) (g : graph) :
  wf_trace tr1 → ordered tr1.*2 → wf_trace tr2 →
  (∀ q, q ∈ tr2.*2 → q ∈ tr1.*2) →
  (∀ n x, last_write tr2.*2 n x = last_write tr1.*2 n x) →
  graph_sim (run_trace tr2 (run_trace tr1 g)) (run_trace tr1 g).
Proof.
  intros Hwf1 Hord Hwf2 Hsub Hlw.
  destruct (run_trace_facts tr1 g Hwf1 Hord) as [Hfacts Hprops].
  rewrite run_trace_settled; [|done|by intros q ?%Hsub%Hfacts].
  split; [|done]. simpl.
  apply Forall2_fmap_l, Forall_Forall2_diag, Forall_forall.
  intros n Hn. destruct (apply_all_nid tr2 n) as [Hid Hlab].
  split; [done|]. split; [done|]. intros x Hx.
  rewrite apply_all_props, Hlw by done.
  destruct (last_write tr1.*2 n x) as [w|] eqn:Hw; [|done].
  symmetry. by eapply Hprops.
Qed.

(** ** The importer issues statements *)

Lemma stamp_app (t : nat) (qs1 qs2 : list cypher) :
  stamp t (qs1 ++ qs2) = stamp t qs1 ++ stamp (t + length qs1)%nat qs2.
Proof.
  unfold stamp. rewrite imap_app. f_equal.
  apply imap_ext. intros i q _. simpl. f_equal. lia.
Qed.

Lemma stamp_snd (t : nat) (qs : list cypher) : (stamp t qs).*2 = qs.
Proof.
  apply list_eq. intros i. unfold stamp.
  rewrite list_lookup_fmap, list_lookup_imap. by destruct (qs !! i).
Qed.

Lemma stamp_wf (t : nat) (qs : list cypher) :
  Forall wf_stmt qs → wf_trace (stamp t qs).
Proof.
  intros H. unfold wf_trace.
  apply (proj1 (Forall_fmap snd wf_stmt (stamp t qs))).
  by rewrite stamp_snd.
Qed.

Lemma bind_unfold {A B} (c : M A) (k : A → M B) (s : state) :
  (c ≫= k) s
  = match c s with
    | (inr a, s') => k a s'
    | (inl e, s') => (inl e, s')
    end.
Proof. done. Qed.

Lemma issues_ret (env : run_env) : issues env (ret ()) [].
Proof.
  intros s. split; [exists []; by rewrite app_nil_r|].
  exists 0%nat. simpl. split; [done|]. split; [done|]. left.
  repeat split. lia.
Qed.

Lemma issues_logging (env : run_env) (e : log_entry) :
  issues env (logging e) [].
Proof.
  intros s. split; [by exists [e]|].
  exists 0%nat. simpl. split; [done|]. split; [done|]. left.
  repeat split. lia.
Qed.

Lemma issues_run (env : run_env) (q : cypher) :
  q ≠ DetachDeleteAll → issues env (session_run env q) [q].
Proof.
  intros Hq s. unfold issues_at, session_run.
  destruct (store_fault env (clock s)) eqn:Hf.
  { split; [exists []; by rewrite app_nil_r|].
    exists 0%nat. simpl. split; [done|]. split; [done|]. right.
    split; [by eexists|]. split; [lia|]. left. by rewrite Nat.add_0_r. }
  destruct (run_cypher (clock s) q (store s)) as [e|g] eqn:Hrun.
  - split; [exists []; by rewrite app_nil_r|].
    exists 0%nat. simpl. split; [done|]. split; [done|]. right.
    split; [by eexists|]. split; [lia|]. right. exists q. split; [done|].
    intros [g Hg]%(run_cypher_total (clock s) q (store s)). congruence.
  - split; [exists []; by rewrite app_nil_r|].
    exists 1%nat. simpl. split; [|split].
    + unfold run_trace, exec. simpl. by rewrite Nat.add_0_r, Hrun.
    + constructor; [|done]. by eapply run_cypher_stmt_ok.
    + left. repeat split. lia.
Qed.

Lemma issues_seq (env : run_env) (c1 c2 : M unit) (qs1 qs2 : list cypher) :
  issues env c1 qs1 → issues env c2 qs2 →
  issues env (c1 ;; c2) (qs1 ++ qs2).
Proof.
  intros H1 H2 s. unfold issues_at. rewrite bind_unfold.
  destruct (H1 s) as [[l1 Hl1] (k1 & Hst1 & Hok1 & Hres1)].
  destruct (c1 s) as [[e|[]] s1] eqn:Hc1; simpl in *.
  - destruct Hres1 as [[? _]|(_ & Hk1 & Hwhy)]; [done|].
    split; [by exists l1|]. exists k1.
    rewrite take_app_le by lia. split; [done|]. split; [done|]. right.
    split; [by eexists|]. split; [rewrite length_app; lia|].
    destruct Hwhy as [?|(q & Hq & ?)]; [by left|right].
    exists q. split; [|done]. by rewrite lookup_app_l.
  - destruct Hres1 as [(_ & -> & Hcl1)|[[e ?] _]]; [|done].
    rewrite firstn_all in Hst1, Hok1.
    destruct (H2 s1) as [[l2 Hl2] (k2 & Hst2 & Hok2 & Hres2)].
    split; [exists (l1 ++ l2); by rewrite Hl2, Hl1, app_assoc|].
    exists (length qs1 + k2)%nat.
    rewrite take_app_ge, Nat.add_comm, Nat.add_sub by lia.
    rewrite stamp_app, run_trace_app, <- Hst1, <- Hcl1.
    split; [done|]. split; [by apply Forall_app|].
    destruct Hres2 as [(? & -> & Hcl2)|(? & Hk2 & Hwhy)]; [left|right].
    + rewrite length_app. repeat split; [done|lia|lia].
    + split; [done|]. split; [rewrite length_app; lia|].
      destruct Hwhy as [Hf|(q & Hq & ?)]; [left|right].
      * rewrite <- Hf. f_equal. lia.
      * exists q. split; [|done].
        rewrite lookup_app_r by lia. rewrite <- Hq. f_equal. lia.
Qed.

Lemma issues_for_each {A} (env : run_env) (l : list A) (body : A → M unit)
    (f : A → list cypher) :
  (∀ x, issues env (body x) (f x)) →
  issues env (for_each l body) (x ← l; f x).
Proof.
  intros H. induction l as [|x l IH]; simpl.
  - apply issues_ret.
  - by apply issues_seq.
Qed.

Lemma issues_publisher (env : run_env) (paper_row : row) (pk : pyval) :
  issues env (_add_extra_nodes env paper_row pk)
             (extra_statements paper_row pk).
Proof.
  unfold _add_extra_nodes, extra_statements, journal_of, subject_of.
  apply issues_seq; [|apply issues_seq].
  - destruct (find_publisher _ _); [by apply issues_run|apply issues_logging].
  - destruct (truthy _ && _); [by apply issues_run|apply issues_ret].
  - destruct (truthy _); [by apply issues_run|apply issues_ret].
Qed.

Lemma issues_authors (env : run_env) (zk title : pyval) (authors : list ustr) :
  issues env
    (for_each authors (λ author_name,
       if truthy (VStr author_name) then
         session_run env (MergeAuthor (VStr author_name) title) ;;
         session_run env (LinkAuthor zk (VStr author_name))
       else ret ()))
    (author_statements zk title authors).
Proof.
  apply issues_for_each. intros a. destruct (truthy (VStr a)).
  - by apply (issues_seq env _ _ [_] [_]); apply issues_run.
  - apply issues_ret.
Qed.

Lemma issues_keywords (env : run_env) (zk : pyval) (tags : list ustr) :
  issues env
    (for_each tags (λ tag_name,
       if truthy (VStr tag_name) then
         session_run env (MergeKeyword (VStr tag_name)) ;;
         session_run env (LinkKeyword zk (VStr tag_name))
       else ret ()))
    (keyword_statements zk tags).
Proof.
  apply issues_for_each. intros a. destruct (truthy (VStr a)).
  - by apply (issues_seq env _ _ [_] [_]); apply issues_run.
  - apply issues_ret.
Qed.

(** [_import_paper] raises before any statement when the dictionary cannot
    be built, and otherwise issues the statements of the row. *)
Lemma import_paper_issues (env : run_env) (paper_row : row) (s : state) :
  match paper_properties paper_row with
  | inl e => _import_paper env paper_row s = (inl e, s)
  | inr _ => issues_at env (_import_paper env paper_row)
                       (row_statements env paper_row) s
  end.
Proof.
  unfold _import_paper, row_statements, tags_of, paper_key_of.
  destruct (paper_properties paper_row) as [e|properties]; [done|].
  apply (issues_seq env (session_run env _) _ [_] _).
  - by apply issues_run.
  - apply issues_seq; [apply issues_authors|].
    apply issues_seq; [apply issues_keywords|apply issues_publisher].
Qed.

(** ** The statements of a row are well formed *)

(** Go through the members of an explicit list of statements. *)
Ltac stmt_cases H :=
  repeat (apply elem_of_cons in H as [->|H]);
  try (by apply elem_of_nil in H).

Lemma paper_properties_spec (paper_row : row)
    (properties : gmap string pyval) :
  paper_properties paper_row = inr properties ↔
  ∃ a, row_get paper_row "abstract" (VStr []) = VStr a
       ∧ properties
         = default ∅ (extra_info_parsed paper_row)
           ∪ base_properties paper_row (VStr (slice_to 500 a)).
Proof.
  unfold paper_properties, base_properties.
  destruct (row_get paper_row "abstract" (VStr [])) as [| | | |a];
    simpl; try (split; [done|by intros (? & ? & _)]).
  split.
  - intros [= <-]. exists a. split; [done|].
    case_decide as He; [|done]. by rewrite He, (left_id_L ∅ (∪)).
  - intros (a' & [= <-] & ->). f_equal.
    case_decide as He; [|done]. by rewrite He, (left_id_L ∅ (∪)).
Qed.

Lemma paper_properties_lookup (paper_row : row)
    (properties : gmap string pyval) (x : string) :
  parsed_row paper_row →
  paper_properties paper_row = inr properties →
  x ≠ "download_count" → x ≠ "cnki_citation" → x ≠ "major_field" →
  ∃ a, row_get paper_row "abstract" (VStr []) = VStr a
       ∧ properties !! x
         = base_properties paper_row (VStr (slice_to 500 a)) !! x.
Proof.
  intros Hrow (a & Ha & ->)%paper_properties_spec H1 H2 H3.
  exists a. split; [done|]. apply lookup_union_r.
  destruct (extra_info_parsed paper_row) as [d|] eqn:Hd; [|done]. simpl.
  destruct (d !! x) eqn:Hx; [|done].
  destruct (Hrow d Hd x) as [?|[?|?]]; by eauto.
Qed.

Lemma row_statements_props_ok (env : run_env) (paper_row : row) :
  parsed_row paper_row → Forall props_ok (row_statements env paper_row).
Proof.
  intros Hrow. unfold row_statements.
  destruct (paper_properties paper_row) as [e|properties] eqn:Hpp;
    [constructor|].
  constructor.
  - simpl. unfold paper_key_of.
    destruct (paper_properties_lookup _ _ "zotero_key" Hrow Hpp)
      as (a & _ & ->); [done..|].
    destruct (paper_properties_lookup _ _ "name" Hrow Hpp)
      as (a' & _ & ->); [done..|].
    done.
  - apply Forall_forall. intros q Hq.
    repeat (apply elem_of_app in Hq as [Hq|Hq]).
    + unfold author_statements in Hq.
      apply list_elem_of_bind in Hq as (a & Hq & _).
      destruct (truthy (VStr a)); stmt_cases Hq; done.
    + unfold keyword_statements in Hq.
      apply list_elem_of_bind in Hq as (a & Hq & _).
      destruct (truthy (VStr a)); stmt_cases Hq; done.
    + destruct (find_publisher _ _); stmt_cases Hq; done.
    + destruct (journal_of _); stmt_cases Hq; done.
    + destruct (subject_of _); stmt_cases Hq; done.
Qed.

Lemma truthy_not_none (v : pyval) : truthy v = true → v ≠ VNone.
Proof. by destruct v. Qed.

(** Only the merge of the paper can be rejected by the store. *)
Lemma row_statements_tail_ok (env : run_env) (paper_row : row) :
  Forall stmt_ok (tail (row_statements env paper_row)).
Proof.
  unfold row_statements.
  destruct (paper_properties paper_row) as [e|properties]; [constructor|].
  simpl. apply Forall_forall. intros q Hq.
  repeat (apply elem_of_app in Hq as [Hq|Hq]).
  - unfold author_statements in Hq.
    apply list_elem_of_bind in Hq as (a & Hq & _).
    destruct (truthy (VStr a)); stmt_cases Hq; done.
  - unfold keyword_statements in Hq.
    apply list_elem_of_bind in Hq as (a & Hq & _).
    destruct (truthy (VStr a)); stmt_cases Hq; done.
  - destruct (find_publisher _ _); stmt_cases Hq; done.
  - unfold journal_of in Hq.
    destruct (truthy _ && _) eqn:Hj; [|by apply elem_of_nil in Hq].
    apply list_elem_of_singleton in Hq as ->. simpl.
    apply andb_true_iff in Hj as [Hj _]. by apply truthy_not_none.
  - unfold subject_of in Hq.
    destruct (truthy _) eqn:Hj; [|by apply elem_of_nil in Hq].
    apply list_elem_of_singleton in Hq as ->. simpl.
    by apply truthy_not_none.
Qed.

(** ** The statements of a row are ordered *)

Lemma follows_paper_app (zk : pyval) (qs1 qs2 : list cypher) :
  follows_paper zk qs1 → follows_paper zk qs2 →
  follows_paper zk (qs1 ++ qs2).
Proof.
  intros H1 H2 i q Hi t pk l v Hq.
  destruct (decide (i < length qs1)%nat) as [Hlt|Hge].
  - rewrite lookup_app_l in Hi by done. rewrite take_app_le by lia.
    by eapply H1.
  - rewrite lookup_app_r in Hi by lia. rewrite take_app_ge by lia.
    destruct (H2 _ _ Hi t pk l v Hq) as [-> (q0 & Hq0 & ?)].
    split; [done|]. exists q0. split; [|done].
    rewrite <- app_assoc. apply elem_of_app. by right.
Qed.

Lemma follows_paper_nil (zk : pyval) : follows_paper zk [].
Proof. by intros i q ?. Qed.

Lemma follows_paper_bind {A} (zk : pyval) (l : list A)
    (f : A → list cypher) :
  (∀ x, follows_paper zk (f x)) → follows_paper zk (x ← l; f x).
Proof.
  intros H. induction l as [|x l IH]; simpl.
  - apply follows_paper_nil.
  - by apply follows_paper_app.
Qed.

Lemma follows_paper_merge_link (zk : pyval) (q1 q2 : cypher)
    (t l : string) (v : pyval) :
  link_pattern q1 = None → merge_pattern q1 = Some (l, "name", v) →
  link_pattern q2 = Some (t, zk, l, v) →
  follows_paper zk [q1; q2].
Proof.
  intros Hl1 Hm1 Hl2 [|[|i]] q Hi ty pk l' v' Hq; simplify_eq/=.
  split; [done|]. exists q1. split; [by left|done].
Qed.

Lemma follows_paper_self (zk : pyval) (q : cypher)
    (t l : string) (v : pyval) :
  merge_pattern q = Some (l, "name", v) →
  link_pattern q = Some (t, zk, l, v) →
  follows_paper zk [q].
Proof.
  intros Hm Hl [|i] q' Hi ty pk l' v' Hq; simplify_eq/=.
  split; [done|]. exists q'. split; [by left|done].
Qed.

Lemma ordered_paper (zk : pyval) (properties : gmap string pyval)
    (qs : list cypher) :
  follows_paper zk qs → ordered (MergePaper zk properties :: qs).
Proof.
  intros H [|i] q Hi t pk l v Hq; simplify_eq/=.
  destruct (H i q Hi t pk l v Hq) as [-> (q0 & Hq0 & ?)]. split.
  - eexists. split; [by left|done].
  - exists q0. split; [by right|done].
Qed.

Lemma ordered_take (k : nat) (qs : list cypher) :
  ordered qs → ordered (take k qs).
Proof.
  intros H i q Hi. apply lookup_take_Some in Hi as [Hi Hlt].
  rewrite take_take, Nat.min_l by lia. by apply H.
Qed.

Lemma ordered_nil : ordered [].
Proof. by intros i q ?. Qed.

Lemma row_statements_ordered (env : run_env) (paper_row : row) :
  ordered (row_statements env paper_row).
Proof.
  unfold row_statements.
  destruct (paper_properties paper_row) as [e|properties];
    [apply ordered_nil|].
  apply ordered_paper. repeat apply follows_paper_app.
  - apply follows_paper_bind. intros a. destruct (truthy (VStr a)).
    + by eapply follows_paper_merge_link.
    + apply follows_paper_nil.
  - apply follows_paper_bind. intros a. destruct (truthy (VStr a)).
    + by eapply follows_paper_merge_link.
    + apply follows_paper_nil.
  - destruct (find_publisher _ _).
    + by eapply follows_paper_self.
    + apply follows_paper_nil.
  - destruct (journal_of _).
    + by eapply follows_paper_self.
    + apply follows_paper_nil.
  - destruct (subject_of _).
    + by eapply follows_paper_self.
    + apply follows_paper_nil.
Qed.

(** ** One row *)

Lemma executed_alt (env : run_env) (paper_row : row) :
  executed env paper_row
  = if rejected paper_row then [] else row_statements env paper_row.
Proof.
  unfold executed, rejected, row_statements.
  destruct (paper_properties paper_row) as [e|properties]; [done|].
  by destruct (paper_key_of properties).
Qed.

Lemma rejected_head (env : run_env) (paper_row : row) :
  rejected paper_row = false → Forall stmt_ok (row_statements env paper_row).
Proof.
  intros Hrej. pose proof (row_statements_tail_ok env paper_row) as Htail.
  unfold rejected, row_statements in *.
  destruct (paper_properties paper_row) as [e|properties]; [constructor|].
  constructor; [|done]. simpl. by destruct (paper_key_of properties).
Qed.

Lemma rejected_first (env : run_env) (paper_row : row) (k : nat) (q : cypher) :
  row_statements env paper_row !! k = Some q → ¬ stmt_ok q →
  k = 0%nat ∧ rejected paper_row = true.
Proof.
  intros Hk Hq. pose proof (row_statements_tail_ok env paper_row) as Htail.
  unfold rejected, row_statements in *.
  destruct (paper_properties paper_row) as [e|properties]; [done|].
  destruct k as [|k]; simpl in *.
  - simplify_eq. split; [done|]. simpl in Hq.
    destruct (paper_key_of properties); try done; by destruct Hq.
  - destruct Hq. eapply Forall_lookup_1 in Htail; [|done]. done.
Qed.

(** What one call of [_import_paper] does to the store: it runs a prefix
    of the row's statements, all of them when it returns, and exactly the
    executed ones when the store raises no fault. *)
Lemma import_paper_trace (env : run_env) (r : row) (s : state) :
  parsed_row r →
  ∃ qs, store (_import_paper env r s).2
        = run_trace (stamp (clock s) qs) (store s)
        ∧ Forall wf_stmt qs ∧ ordered qs
        ∧ (∀ q, q ∈ qs → q ∈ row_statements env r)
        ∧ ((_import_paper env r s).1 = inr () → qs = row_statements env r)
        ∧ (no_faults env → qs = executed env r)
        ∧ ∃ l, log (_import_paper env r s).2 = log s ++ l.
Proof.
  intros Hrow. pose proof (import_paper_issues env r s) as H.
  destruct (paper_properties r) as [e|properties] eqn:Hpp.
  - rewrite H. exists []. simpl.
    split; [done|]. split; [constructor|]. split; [apply ordered_nil|].
    split; [by intros q ?%elem_of_nil|]. split; [done|]. split.
    + intros _. unfold executed, row_statements. by rewrite Hpp.
    + exists []. by rewrite app_nil_r.
  - destruct H as [Hlog (k & Hst & Hok & Hres)].
    exists (take k (row_statements env r)). split; [done|].
    split; [|split; [|split; [|split; [|split]]]]; try done.
    + apply (proj2 (Forall_and stmt_ok (Q:=props_ok) _)).
      split; [done|]. by apply Forall_take, row_statements_props_ok.
    + apply ordered_take, row_statements_ordered.
    + intros q Hq. by eapply subseteq_take.
    + destruct Hres as [(_ & -> & _)|([e He] & _)].
      * intros _. apply firstn_all.
      * by rewrite He.
    + intros Hnf. rewrite executed_alt.
      destruct Hres as [(_ & -> & _)|(_ & Hk & [Hf|(q & Hq & Hnok)])].
      * rewrite firstn_all in *.
        destruct (rejected r) eqn:Hrej; [|done].
        unfold rejected in Hrej. rewrite Hpp in Hrej.
        unfold row_statements in Hok. rewrite Hpp in Hok.
        apply Forall_cons in Hok as [Hok _]. simpl in Hok.
        by destruct (paper_key_of properties).
      * by rewrite Hnf in Hf.
      * by destruct (rejected_first env r k q Hq Hnok) as [-> ->].
Qed.

Lemma import_row_spec (env : run_env) (total idx : nat) (r : row)
    (s : state) :
  (import_row env total idx r s).1 = inr ()
  ∧ store (import_row env total idx r s).2
    = store (_import_paper env r s).2
  ∧ (∃ l, log (import_row env total idx r s).2
          = log (_import_paper env r s).2 ++ l)
  ∧ ∀ e, (_import_paper env r s).1 = inl e →
         LogFailed (row_get r "zotero_key" (VStr (u "N/A"))) e
         ∈ log (import_row env total idx r s).2.
Proof.
  unfold import_row, try_except. rewrite bind_unfold.
  destruct (_import_paper env r s) as [[e|[]] s1]; simpl.
  - repeat split; [by eexists|]. intros e' [= <-].
    apply elem_of_app. right. by left.
  - destruct (_ || _); simpl; repeat split; try done.
    + by eexists.
    + exists []. by rewrite app_nil_r.
Qed.

(** ** The loop *)

Lemma import_rows_ok (env : run_env) (total idx : nat) (df : list row)
    (s : state) :
  (import_rows env total idx df s).1 = inr ().
Proof.
  revert idx s. induction df as [|r df IH]; intros idx s; simpl; [done|].
  rewrite bind_unfold.
  pose proof (import_row_spec env total idx r s) as [Hok _].
  destruct (import_row env total idx r s) as [[e|[]] s1]; [done|].
  apply IH.
Qed.

Lemma import_rows_cons (env : run_env) (total idx : nat) (r : row)
    (df : list row) (s : state) :
  import_rows env total idx (r :: df) s
  = import_rows env total (S idx) df (import_row env total idx r s).2.
Proof.
  simpl. rewrite bind_unfold.
  pose proof (import_row_spec env total idx r s) as [Hok _].
  by destruct (import_row env total idx r s) as [[e|[]] s1].
Qed.

Lemma import_rows_app (env : run_env) (total idx : nat) (df1 df2 : list row)
    (s : state) :
  import_rows env total idx (df1 ++ df2) s
  = import_rows env total (idx + length df1) df2
      (import_rows env total idx df1 s).2.
Proof.
  revert idx s. induction df1 as [|r df1 IH]; intros idx s.
  - simpl. by rewrite Nat.add_0_r.
  - change ((r :: df1) ++ df2) with (r :: (df1 ++ df2)).
    rewrite !import_rows_cons, IH. simpl. f_equal. lia.
Qed.

(** The loop changes the store by a trace of well-formed statements, and
    its log only grows. *)
Lemma import_rows_trace (env : run_env) (total idx : nat) (df : list row)
    (s : state) :
  Forall parsed_row df →
  ∃ tr, store (import_rows env total idx df s).2 = run_trace tr (store s)
        ∧ wf_trace tr ∧ ordered tr.*2
        ∧ (∀ q, q ∈ tr.*2 → ∃ r, r ∈ df ∧ q ∈ row_statements env r)
        ∧ (no_faults env → tr.*2 = r ← df; executed env r)
        ∧ ∃ l, log (import_rows env total idx df s).2 = log s ++ l.
Proof.
  revert idx s. induction df as [|r df IH]; intros idx s Hdf.
  - exists []. split; [done|]. split; [constructor|].
    split; [apply ordered_nil|]. split; [by intros q ?%elem_of_nil|].
    split; [done|]. exists []. by rewrite app_nil_r.
  - apply Forall_cons in Hdf as [Hr Hdf]. rewrite import_rows_cons.
    destruct (import_row_spec env total idx r s) as (_ & Hst & [l1 Hl1] & _).
    destruct (import_paper_trace env r s Hr)
      as (qs & Hqs & Hwf & Hord & Hsub & _ & Hex & [l0 Hl0]).
    destruct (IH (S idx) (import_row env total idx r s).2 Hdf)
      as (tr & Htr & Hwftr & Hordtr & Hsubtr & Hextr & [l2 Hl2]).
    exists (stamp (clock s) qs ++ tr).
    split; [|split; [|split; [|split; [|split]]]].
    + by rewrite run_trace_app, Htr, Hst, Hqs.
    + apply Forall_app. split; [by apply stamp_wf|done].
    + rewrite fmap_app, stamp_snd. by apply ordered_app.
    + rewrite fmap_app, stamp_snd.
      intros q [Hq|Hq]%elem_of_app.
      * exists r. split; [by left|by apply Hsub].
      * destruct (Hsubtr q Hq) as (r' & ? & ?). exists r'.
        split; [by right|done].
    + intros Hnf. rewrite fmap_app, stamp_snd. simpl.
      by rewrite Hex, Hextr.
    + exists (l0 ++ l1 ++ l2). rewrite Hl2, Hl1, Hl0.
      by rewrite <- !app_assoc.
Qed.

(** ** Rows that come out of [parse_csv] *)

Section ParsedRows.
Context (py : py_runtime).

Lemma extra_keys_insert (d : gmap string pyval) (k : string) (v : pyval) :
  k = "download_count" ∨ k = "cnki_citation" ∨ k = "major_field" →
  extra_keys d → extra_keys (<[k := v]> d).
Proof.
  intros Hk Hd x Hx. destruct (decide (k = x)) as [<-|Hne]; [done|].
  rewrite lookup_insert_ne in Hx by done. by apply Hd.
Qed.

(** The parser returns no key but its three. *)
Lemma parse_extra_info_keys (extra_str : pyval) :
  extra_keys (_parse_extra_info py extra_str).
Proof.
  assert (H0 : extra_keys ∅).
  { intros x Hx. rewrite lookup_empty in Hx. by destruct Hx. }
  unfold _parse_extra_info. destruct extra_str as [| | | |s]; try done.
  assert (H1 : ∀ st st', extra_keys (info_dict st) →
            parse_download py s st = inr st' → extra_keys (info_dict st')).
  { intros st st' Hst. unfold parse_download.
    repeat case_match; intros; simplify_eq; try done.
    apply extra_keys_insert; auto. }
  assert (H2 : ∀ st st', extra_keys (info_dict st) →
            parse_cite py s st = inr st' → extra_keys (info_dict st')).
  { intros st st' Hst. unfold parse_cite.
    repeat case_match; intros; simplify_eq; try done.
    apply extra_keys_insert; auto. }
  assert (H3 : ∀ st st', extra_keys (info_dict st) →
            parse_major s st = inr st' → extra_keys (info_dict st')).
  { intros st st' Hst. unfold parse_major.
    repeat case_match; intros; simplify_eq; try done.
    apply extra_keys_insert; auto. }
  destruct (parse_download py s _) as [e|st1] eqn:Hd; [done|].
  specialize (H1 {| info_dict := ∅; re_bound := false |} _ H0 Hd).
  destruct (parse_cite py s st1) as [e|st2] eqn:Hc; [done|].
  specialize (H2 _ _ H1 Hc).
  destruct (parse_major s st2) as [e|st3] eqn:Hm; [done|].
  by apply (H3 _ _ H2 Hm).
Qed.

Lemma parse_row_parsed (raw : gmap string pyval) :
  parsed_row (parse_row py raw).
Proof.
  intros d Hd. unfold parse_row in Hd. simpl in Hd.
  apply fmap_Some in Hd as (v & _ & ->).
  apply parse_extra_info_keys.
Qed.

Lemma parse_csv_parsed (df : list (gmap string pyval)) :
  Forall parsed_row (parse_csv py df).
Proof.
  unfold parse_csv. apply Forall_fmap, Forall_forall.
  intros raw _. apply parse_row_parsed.
Qed.
End ParsedRows.

(** ** Two environments issue the same writes *)

Lemma last_write_app (qs1 qs2 : list cypher) (n : node) (x : string) :
  last_write (qs1 ++ qs2) n x
  = match last_write qs2 n x with
    | Some w => Some w
    | None => last_write qs1 n x
    end.
Proof.
  induction qs2 as [|q qs2 IH] using rev_ind.
  - by rewrite app_nil_r.
  - rewrite app_assoc, !last_write_snoc, IH.
    destruct (stmt_matches q n); [|done].
    by destruct (write_map 0 q !! x).
Qed.

Lemma last_write_cons (q : cypher) (qs : list cypher) (n : node)
    (x : string) :
  last_write (q :: qs) n x
  = match last_write qs n x with
    | Some w => Some w
    | None => last_write [q] n x
    end.
Proof. apply (last_write_app [q] qs). Qed.

Lemma last_write_singleton (q : cypher) (n : node) (x : string) :
  last_write [q] n x = if stmt_matches q n then write_map 0 q !! x else None.
Proof.
  unfold last_write. cbn [foldl]. destruct (stmt_matches q n); [|done].
  by destruct (write_map 0 q !! x).
Qed.

Lemma last_write_silent (qs : list cypher) (n : node) (x : string) :
  (∀ q, q ∈ qs → write_map 0 q = ∅) → last_write qs n x = None.
Proof.
  induction qs as [|q qs IH] using rev_ind; intros H; [done|].
  rewrite last_write_snoc, IH, H.
  - rewrite lookup_empty. by destruct (stmt_matches q n).
  - apply elem_of_app. right. by left.
  - intros q' Hq'. apply H. apply elem_of_app. by left.
Qed.

Lemma last_write_bind {A} (l : list A) (f f' : A → list cypher)
    (n : node) (x : string) :
  (∀ r, last_write (f r) n x = last_write (f' r) n x) →
  last_write (l ≫= f) n x = last_write (l ≫= f') n x.
Proof.
  intros H. induction l as [|r l IH]; [done|].
  change (last_write (f r ++ (l ≫= f)) n x
          = last_write (f' r ++ (l ≫= f')) n x).
  by rewrite !last_write_app, IH, H.
Qed.

Lemma keyword_statements_silent (zk : pyval) (tags : list ustr) (q : cypher) :
  q ∈ keyword_statements zk tags → write_map 0 q = ∅.
Proof.
  unfold keyword_statements. intros (t & Hq & _)%list_elem_of_bind.
  destruct (truthy (VStr t)); stmt_cases Hq; done.
Qed.

Lemma keyword_statements_subset (zk : pyval) (tags tags' : list ustr)
    (q : cypher) :
  (∀ t, t ∈ tags → t ∈ tags') →
  q ∈ keyword_statements zk tags → q ∈ keyword_statements zk tags'.
Proof.
  unfold keyword_statements. intros Hsub (t & Hq & Ht)%list_elem_of_bind.
  apply list_elem_of_bind. exists t. split; [done|by apply Hsub].
Qed.

Lemma executed_last_write (env1 env2 : run_env) (r : row) (n : node)
    (x : string) :
  last_write (executed env1 r) n x = last_write (executed env2 r) n x.
Proof.
  rewrite !executed_alt. destruct (rejected r); [done|].
  unfold row_statements. destruct (paper_properties r) as [e|p]; [done|].
  rewrite !(last_write_cons _ (_ ++ _)),
    !(last_write_app (author_statements _ _ _)),
    !(last_write_app (keyword_statements _ _)).
  by rewrite !(last_write_silent (keyword_statements _ _))
    by apply keyword_statements_silent.
Qed.

Lemma executed_subset (env1 env2 : run_env) (r : row) (q : cypher) :
  set_order_valid env1 → set_order_valid env2 →
  q ∈ executed env2 r → q ∈ executed env1 r.
Proof.
  intros H1 H2. rewrite !executed_alt. destruct (rejected r); [done|].
  unfold row_statements. destruct (paper_properties r) as [e|p]; [done|].
  rewrite !elem_of_cons, !elem_of_app.
  intros [?|[?|[Hq|?]]]; auto.
  right. right. left. eapply keyword_statements_subset; [|done].
  intros t Ht. apply H1. by apply H2.
Qed.

(** ** C1 *)

Lemma import_to_neo4j_keep (env : run_env) (df : list row) (s : state) :
  store (import_to_neo4j env df false s).2
  = store (import_rows env (length df) 0 df
             (logging (LogStart (length df)) s).2).2.
Proof.
  unfold import_to_neo4j. do 2 (rewrite bind_unfold; simpl).
  rewrite bind_unfold.
  pose proof (import_rows_ok env (length df) 0 df
                (logging (LogStart (length df)) s).2) as Hok.
  simpl in Hok.
  by destruct (import_rows env (length df) 0 df _) as [[e|[]] s1].
Qed.

Lemma quiet_env_no_faults : no_faults quiet_env.
Proof. by intros t. Qed.

Lemma quiet_env_valid : set_order_valid quiet_env.
Proof.
  intros l. split; [apply NoDup_remove_dups|].
  intros x. apply elem_of_remove_dups.
Qed.

(** C1: importing the same input twice yields the same graph.  The second
    run, from any session on the store the first run left, creates no node
    and no relationship: the nodes correspond one to one with the same id,
    labels and properties apart from [imported_at], and the relationships
    are the same.  The two runs may list the tags in different orders; the
    store raises no fault in either. *)
Theorem import_twice_same_graph (py : py_runtime) (env1 env2 : run_env)
    (raw : list (gmap string pyval)) (s s' : state) :
  no_faults env1 → no_faults env2 →
  set_order_valid env1 → set_order_valid env2 →
  store s' = store (import_to_neo4j env1 (parse_csv py raw) false s).2 →
  (import_to_neo4j env2 (parse_csv py raw) false s').1 = inr ()
  ∧ graph_sim (store (import_to_neo4j env2 (parse_csv py raw) false s').2)
              (store (import_to_neo4j env1 (parse_csv py raw) false s).2).
Proof.
  intros Hnf1 Hnf2 Hv1 Hv2 Hs'. split.
  { unfold import_to_neo4j. do 2 (rewrite bind_unfold; simpl).
    rewrite bind_unfold.
    pose proof (import_rows_ok env2 (length (parse_csv py raw)) 0
                  (parse_csv py raw)
                  (logging (LogStart (length (parse_csv py raw))) s').2) as Hok.
    simpl in Hok.
    by destruct (import_rows env2 _ 0 _ _) as [[e|[]] s1]. }
  rewrite import_to_neo4j_keep in Hs'. rewrite !import_to_neo4j_keep.
  pose proof (parse_csv_parsed py raw) as Hdf.
  set (df := parse_csv py raw) in *.
  destruct (import_rows_trace env1 (length df) 0 df
              (logging (LogStart (length df)) s).2 Hdf)
    as (tr1 & Htr1 & Hwf1 & Hord1 & _ & Hex1 & _).
  destruct (import_rows_trace env2 (length df) 0 df
              (logging (LogStart (length df)) s').2 Hdf)
    as (tr2 & Htr2 & Hwf2 & _ & _ & Hex2 & _).
  rewrite Htr1 in Hs'. rewrite Htr2, Htr1.
  change (store (logging (LogStart (length df)) s').2) with (store s').
  rewrite Hs'.
  apply rerun_same_graph; try done.
  - rewrite (Hex1 Hnf1), (Hex2 Hnf2). intros q (r & Hq & Hr)%list_elem_of_bind.
    apply list_elem_of_bind. exists r. split; [|done].
    by eapply executed_subset.
  - intros n x. rewrite (Hex1 Hnf1), (Hex2 Hnf2).
    apply last_write_bind. intros r. apply executed_last_write.
Qed.

Lemma import_twice_same_graph_witness :
  graph_sim
    (store (import_to_neo4j quiet_env (parse_csv ascii_runtime sample_df) false
              (import_to_neo4j quiet_env (parse_csv ascii_runtime sample_df)
                 false session0).2).2)
    (store (import_to_neo4j quiet_env (parse_csv ascii_runtime sample_df)
              false session0).2).
Proof.
  exact (proj2 (import_twice_same_graph ascii_runtime quiet_env quiet_env
                  sample_df session0 _
                  quiet_env_no_faults quiet_env_no_faults
                  quiet_env_valid quiet_env_valid eq_refl)).
Defined.

(** ** C2 *)

Lemma holds_after_trace (tr : list (nat * cypher)) (g : graph) (q : cypher) :
  wf_trace tr → holds_after q g → holds_after q (run_trace tr g).
Proof.
  revert g. induction tr as [|[t q0] tr IH]; intros g Hwf Hq; [done|].
  apply Forall_cons in Hwf as [Hq0 Hwf]. simpl in Hq0.
  change (run_trace ((t, q0) :: tr) g) with (run_trace tr (exec g (t, q0))).
  apply IH; [done|]. eapply holds_after_step; [done| |done].
  by apply exec_wf.
Qed.

Lemma split_authors_truthy (v : pyval) (a : ustr) :
  a ∈ _split_authors v → truthy (VStr a) = true.
Proof.
  destruct v as [| | | |s];
    try (unfold _split_authors; rewrite orb_true_r; by intros ?%elem_of_nil).
  rewrite split_authors_str. intros (p & _ & Hp)%list_elem_of_omap.
  by destruct (strip p); simplify_eq.
Qed.

Lemma split_tags_truthy (v : pyval) (a : ustr) :
  a ∈ _split_tags v → truthy (VStr a) = true.
Proof.
  destruct v as [| | | |s];
    try (unfold _split_tags; rewrite orb_true_r; by intros ?%elem_of_nil).
  destruct s; [by intros ?%elem_of_nil|]. unfold _split_tags.
  cbn [truthy is_str negb orb]. intros (p & _ & Hp)%list_elem_of_omap.
  by destruct (strip p); simplify_eq.
Qed.

Lemma paper_key_parsed (r : row) (properties : gmap string pyval) :
  parsed_row r → paper_properties r = inr properties →
  paper_key_of properties = row_get r "zotero_key" (VStr []).
Proof.
  intros Hrow Hpp. unfold paper_key_of.
  by destruct (paper_properties_lookup _ _ "zotero_key" Hrow Hpp)
    as (a & _ & ->).
Qed.

(** When the fact of each statement of a row holds, the row is there in
    full. *)
Lemma upserted_of_facts (env : run_env) (r : row) (g : graph)
    (properties : gmap string pyval) :
  set_order_valid env → parsed_row r →
  paper_properties r = inr properties →
  (∀ q, q ∈ row_statements env r → holds_after q g) →
  upserted r g.
Proof.
  intros Henv Hrow Hpp Hfacts. unfold upserted.
  rewrite <- (paper_key_parsed r properties Hrow Hpp).
  unfold row_statements in Hfacts. rewrite Hpp in Hfacts.
  set (zk := paper_key_of properties) in *.
  assert (Hlink : ∀ q t l v,
            q ∈ author_statements zk (default VNone (properties !! "title"))
                  (_split_authors (row_get r "authors" (VStr [])))
                ++ keyword_statements zk (set_order env (tags_of r))
                ++ extra_statements r zk →
            link_pattern q = Some (t, zk, l, v) → connected t zk l v g).
  { intros q t l v Hq Hl. apply (Hfacts q); [by right|done]. }
  split; [|split; [|split; [|split; [|split]]]].
  - apply (Hfacts (MergePaper zk properties)); [by left|done].
  - intros a Ha. apply (Hlink (LinkAuthor zk (VStr a))); [|done].
    apply elem_of_app. left. apply list_elem_of_bind. exists a.
    split; [|done]. rewrite (split_authors_truthy _ _ Ha). right. by left.
  - intros t Ht. apply (Hlink (LinkKeyword zk (VStr t))); [|done].
    apply elem_of_app. right. apply elem_of_app. left.
    apply list_elem_of_bind. exists t. split; [|by apply Henv].
    assert (truthy (VStr t) = true) as ->.
    { unfold tags_of in Ht.
      apply elem_of_app in Ht as [Ht|Ht]; by eapply split_tags_truthy. }
    right. by left.
  - intros p Hp. apply (Hlink (MergePublisher (VStr p) zk)); [|done].
    do 2 (apply elem_of_app; right). unfold extra_statements.
    rewrite Hp. apply elem_of_app. left. by left.
  - intros j Hj. apply (Hlink (MergeJournal j (row_get r "ISSN" (VStr [])) zk));
      [|done].
    do 2 (apply elem_of_app; right). unfold extra_statements.
    rewrite Hj. apply elem_of_app. right. apply elem_of_app. left. by left.
  - intros m Hm. apply (Hlink (MergeSubject m zk)); [|done].
    do 2 (apply elem_of_app; right). unfold extra_statements.
    rewrite Hm. do 2 (apply elem_of_app; right). by left.
Qed.

(** The steps before the loop go through when the wipe does. *)
Lemma import_start (env : run_env) (n : nat) (clear_existing : bool)
    (s : state) :
  (clear_existing = true → store_fault env (clock s) = false) →
  ∃ s0, ∀ k : M unit,
    ((if clear_existing
      then session_run env DetachDeleteAll ;; logging LogCleared
      else ret ()) ;; logging (LogStart n) ;; k) s = k s0.
Proof.
  intros Hclear. destruct clear_existing.
  - eexists. intros k. do 2 (rewrite bind_unfold; simpl).
    unfold session_run. rewrite (Hclear eq_refl). simpl.
    rewrite bind_unfold. simpl. reflexivity.
  - eexists. intros k. do 2 (rewrite bind_unfold; simpl). reflexivity.
Qed.

(** C2: whatever fails in one record (the dictionary of the row, a
    statement the store rejects, a fault of the store at any statement),
    the batch runs to completion over all records, the failure is logged
    with the record's key ([N/A] when the row has none), and every record
    whose upsert did not raise is in the final graph in full. *)
Theorem import_isolates_failures (py : py_runtime) (env : run_env)
    (raw : list (gmap string pyval)) (clear_existing : bool) (s : state) :
  set_order_valid env →
  (clear_existing = true → store_fault env (clock s) = false) →
  (import_to_neo4j env (parse_csv py raw) clear_existing s).1 = inr ()
  ∧ last (log (import_to_neo4j env (parse_csv py raw) clear_existing s).2)
    = Some (LogDone (length (parse_csv py raw)))
  ∧ ∀ i r, parse_csv py raw !! i = Some r →
      match (_import_paper env r
               (import_prefix env (parse_csv py raw) clear_existing i s).2).1
      with
      | inl e =>
          LogFailed (row_get r "zotero_key" (VStr (u "N/A"))) e
          ∈ log (import_to_neo4j env (parse_csv py raw) clear_existing s).2
      | inr _ =>
          upserted r
            (store (import_to_neo4j env (parse_csv py raw) clear_existing s).2)
      end.
Proof.
  intros Henv Hclear. pose proof (parse_csv_parsed py raw) as Hdf.
  set (df := parse_csv py raw) in *.
  destruct (import_start env (length df) clear_existing s Hclear) as [s0 Hs0].
  unfold import_to_neo4j, import_prefix. rewrite Hs0.
  assert (Hfinal : ∀ sr, (import_rows env (length df) 0 df s0).2 = sr →
    (import_rows env (length df) 0 df ;; logging (LogDone (length df))) s0
    = (inr (), {| store := store sr; clock := clock sr;
                  log := log sr ++ [LogDone (length df)] |})).
  { intros sr <-. rewrite bind_unfold.
    pose proof (import_rows_ok env (length df) 0 df s0) as Hok.
    by destruct (import_rows env (length df) 0 df s0) as [[e|[]] s1]. }
  rewrite (Hfinal _ eq_refl). simpl.
  split; [done|]. split; [by rewrite last_snoc|].
  intros i r Hi. rewrite Hs0.
  set (si := (import_rows env (length df) 0 (take i df) s0).2).
  pose proof (take_drop_middle df i r Hi) as Hsplit.
  assert (Hrun : (import_rows env (length df) 0 df s0).2
                 = (import_rows env (length df) (S (0 + length (take i df)))
                      (drop (S i) df)
                      (import_row env (length df) (0 + length (take i df))
                         r si).2).2).
  { rewrite <- Hsplit at 2. by rewrite import_rows_app, import_rows_cons. }
  rewrite Hrun. clear Hrun.
  set (idx := (0 + length (take i df))%nat).
  assert (Hr : parsed_row r) by (by eapply Forall_lookup_1 in Hdf).
  destruct (import_row_spec env (length df) idx r si)
    as (_ & Hst & _ & Hfail).
  destruct (import_rows_trace env (length df) (S idx) (drop (S i) df)
              (import_row env (length df) idx r si).2)
    as (tr & Htr & Hwf & _ & _ & _ & [l Hl]); [by apply Forall_drop|].
  destruct (_import_paper env r si) as [[e|[]] s1] eqn:Hip; simpl.
  - rewrite Hl. apply elem_of_app. left. apply elem_of_app. left.
    by apply Hfail.
  - rewrite Htr, Hst.
    destruct (import_paper_trace env r si Hr)
      as (qs & Hqs & Hwfqs & Hord & _ & Hall & _ & _).
    rewrite Hip in Hqs, Hall. simpl in Hqs, Hall.
    specialize (Hall eq_refl). subst qs.
    pose proof (import_paper_issues env r si) as Hiss.
    destruct (paper_properties r) as [e|properties] eqn:Hpp;
      [by rewrite Hip in Hiss|].
    apply (upserted_of_facts env r _ properties Henv Hr Hpp).
    intros q Hq. apply holds_after_trace; [done|]. cbn [snd]. rewrite Hqs.
    apply (run_trace_facts _ (store si) (stamp_wf _ _ Hwfqs));
      by rewrite stamp_snd.
Qed.

Lemma import_isolates_failures_witness :
  (import_to_neo4j quiet_env (parse_csv ascii_runtime sample_df)
     false session0).1 = inr ()
  ∧ LogFailed (VStr (u "K2")) TypeError
    ∈ log (import_to_neo4j quiet_env (parse_csv ascii_runtime sample_df)
             false session0).2
  ∧ upserted (parse_row ascii_runtime sample_row1)
      (store (import_to_neo4j quiet_env (parse_csv ascii_runtime sample_df)
                false session0).2).
Proof.
  pose proof (import_isolates_failures ascii_runtime quiet_env sample_df
                false session0 quiet_env_valid
                (λ H : false = true, ltac:(discriminate H)))
    as (Hok & _ & Hrows).
  split; [exact Hok|]. split.
  - exact (Hrows 1%nat (parse_row ascii_runtime sample_row2) eq_refl).
  - exact (Hrows 0%nat (parse_row ascii_runtime sample_row1) eq_refl).
Defined.

(** ** C7 and C8: cells that [parse_csv] leaves as NaN *)

Lemma base_properties_has_pdf (r : row) (abstract : pyval) :
  base_properties r abstract !! "has_pdf"
  = Some (VBool (truthy (row_get r "file_attachments" VNone))).
Proof.
  unfold base_properties. rewrite !lookup_insert_ne by done.
  by rewrite lookup_insert_eq.
Qed.

(** C7, at a row whose attachment cell is empty: [parse_csv] leaves the
    cell NaN, [bool(NaN)] is true, and the paper is stored with
    [has_pdf] true. *)
Theorem has_pdf_of_empty_attachment (py : py_runtime) :
  cells (parse_row py row_no_attachment) !! "file_attachments" = Some VNaN
  ∧ (∃ properties,
       paper_properties (parse_row py row_no_attachment) = inr properties
       ∧ properties !! "has_pdf" = Some (VBool true))
  ∧ (λ n, props n !! "has_pdf")
    <$> nodes (store (_import_paper quiet_env
                        (parse_row py row_no_attachment) session0).2)
    = [Some (VBool true)].
Proof.
  split; [by vm_compute|]. split; [|by vm_compute].
  assert (Ha : row_get (parse_row py row_no_attachment) "abstract" (VStr [])
               = VStr (u "An abstract")) by (by vm_compute).
  assert (Hf : row_get (parse_row py row_no_attachment) "file_attachments"
                 VNone = VNaN) by (by vm_compute).
  eexists. split.
  - apply paper_properties_spec. exists (u "An abstract"). by split.
  - rewrite lookup_union_r by (by vm_compute).
    by rewrite base_properties_has_pdf, Hf.
Qed.

(** C8, at a row whose abstract and title cells are empty: [parse_csv]
    fills only the author and tag columns, so both cells stay NaN, and
    slicing the abstract raises in [_import_paper] before any statement
    is issued. *)
Theorem import_paper_of_empty_abstract (py : py_runtime) (env : run_env)
    (s : state) :
  cells (parse_row py sample_row2) !! "abstract" = Some VNaN
  ∧ row_get (parse_row py sample_row2) "abstract" (VStr []) ≠ VStr []
  ∧ _import_paper env (parse_row py sample_row2) s = (inl TypeError, s).
Proof.
  split; [by vm_compute|]. split; [by vm_compute|].
  pose proof (import_paper_issues env (parse_row py sample_row2) s) as H.
  assert (Hpp : paper_properties (parse_row py sample_row2) = inl TypeError)
    by (by vm_compute).
  by rewrite Hpp in H.
Qed.

(** ** C9: where the nodes and relationships of a run come from *)

Lemma created_shape (q : cypher) (g : graph) (n : node) :
  n ∈ created q g →
  ∃ l k v, merge_pattern q = Some (l, k, v)
           ∧ labels n = [l] ∧ props n !! k = Some v.
Proof.
  unfold created. intros Hn.
  destruct (merge_pattern q) as [[[l k] v]|]; [|by apply elem_of_nil in Hn].
  destruct (existsb _ _); [by apply elem_of_nil in Hn|].
  apply list_elem_of_singleton in Hn as ->.
  exists l, k, v. simpl. by rewrite lookup_singleton_eq.
Qed.

(** Every node after a trace was in the graph before it or was created
    for the pattern of one of its statements; every relationship was there
    before or is the one a statement merges between two nodes. *)
Lemma run_trace_origin (tr : list (nat * cypher)) (g : graph) :
  wf_trace tr →
  (∀ n, n ∈ nodes (run_trace tr g) →
     (∃ n0, n0 ∈ nodes g ∧ nid n = nid n0 ∧ labels n = labels n0)
     ∨ ∃ q l k v, q ∈ tr.*2 ∧ merge_pattern q = Some (l, k, v)
                  ∧ labels n = [l] ∧ props n !! k = Some v)
  ∧ (∀ e, e ∈ edges (run_trace tr g) →
       e ∈ edges g
       ∨ ∃ q t pk l v p x,
           q ∈ tr.*2 ∧ link_pattern q = Some (t, pk, l, v)
           ∧ p ∈ nodes (run_trace tr g) ∧ x ∈ nodes (run_trace tr g)
           ∧ node_matches "Paper" "zotero_key" pk p = true
           ∧ node_matches l "name" v x = true
           ∧ e = {| etype := t; esrc := nid p; edst := nid x |}).
Proof.
  induction tr as [|[t q] tr IH] using rev_ind; intros Hwf.
  - split; [|by left]. intros n Hn. left. by exists n.
  - apply Forall_app in Hwf as [Hwf Hq%Forall_inv]. simpl in Hq.
    destruct (IH Hwf) as [IHn IHe]. clear IH.
    rewrite run_trace_snoc, fmap_app. change ([(t, q)].*2) with [q].
    set (G := run_trace tr g) in *.
    pose proof (exec_wf G t q Hq) as Hrun.
    pose proof (wf_not_wipe q Hq) as Hne.
    pose proof (run_cypher_nodes _ _ _ _ Hne Hrun) as Hnodes.
    split.
    + intros n' Hn'. rewrite Hnodes in Hn'.
      apply list_elem_of_fmap in Hn' as (n & -> & Hn).
      rewrite upd_nid, upd_labels.
      apply elem_of_app in Hn as [Hn|Hn].
      * destruct (IHn n Hn) as [?|(q0 & l & k & v & Hq0 & Hm & Hl & Hp)];
          [by left|right].
        exists q0, l, k, v. split; [apply elem_of_app; by left|].
        split; [done|]. split; [done|].
        rewrite upd_key; [done..|]. by eapply merge_pattern_key.
      * right. destruct (created_shape q G n Hn) as (l & k & v & Hm & Hl & Hp).
        exists q, l, k, v. split; [apply elem_of_app; right; by left|].
        split; [done|]. split; [done|].
        rewrite upd_key; [done..|]. by eapply merge_pattern_key.
    + intros e He.
      apply (run_cypher_edges_inv _ _ _ _ _ Hne Hrun) in He
        as [He|(ty & pk & l & v & p & x & Hl & Hp & Hx & Hmp & Hmx & ->)].
      * destruct (IHe e He)
          as [?|(q0 & ty & pk & l & v & p & x & Hq0 & Hl & Hp & Hx
                 & Hmp & Hmx & ->)]; [by left|right].
        exists q0, ty, pk, l, v, (upd t q p), (upd t q x).
        split; [apply elem_of_app; by left|]. split; [done|].
        rewrite Hnodes, !upd_nid,
          !upd_matches by (try done; unfold key_prop; auto).
        repeat split; try done;
          apply list_elem_of_fmap; eexists; (split; [done|]);
          apply elem_of_app; by left.
      * right. exists q, ty, pk, l, v, p, x.
        split; [apply elem_of_app; right; by left|]. done.
Qed.

(** C9: when the clear flag is set and the wipe goes through, the run is
    the run without the flag on an empty store: the result does not depend
    on the prior graph, every node of the final graph was created for the
    pattern of a statement of one of the rows, and every relationship is
    one such a statement merges between two nodes of the final graph. *)
Theorem clear_leaves_current_run (py : py_runtime) (env : run_env)
    (raw : list (gmap string pyval)) (s : state) :
  store_fault env (clock s) = false →
  import_to_neo4j env (parse_csv py raw) true s
  = import_to_neo4j env (parse_csv py raw) false
      {| store := empty_graph; clock := S (clock s);
         log := log s ++ [LogCleared] |}
  ∧ (∀ n, n ∈ nodes (store (import_to_neo4j env (parse_csv py raw) true s).2) →
       ∃ r q l k v, r ∈ parse_csv py raw ∧ q ∈ row_statements env r
                    ∧ merge_pattern q = Some (l, k, v)
                    ∧ labels n = [l] ∧ props n !! k = Some v)
  ∧ (∀ e, e ∈ edges (store (import_to_neo4j env (parse_csv py raw) true s).2) →
       ∃ r q t pk l v p x,
         r ∈ parse_csv py raw ∧ q ∈ row_statements env r
         ∧ link_pattern q = Some (t, pk, l, v)
         ∧ p ∈ nodes (store (import_to_neo4j env (parse_csv py raw) true s).2)
         ∧ x ∈ nodes (store (import_to_neo4j env (parse_csv py raw) true s).2)
         ∧ node_matches "Paper" "zotero_key" pk p = true
         ∧ node_matches l "name" v x = true
         ∧ e = {| etype := t; esrc := nid p; edst := nid x |}).
Proof.
  intros Hf.
  assert (Heq : import_to_neo4j env (parse_csv py raw) true s
                = import_to_neo4j env (parse_csv py raw) false
                    {| store := empty_graph; clock := S (clock s);
                       log := log s ++ [LogCleared] |}).
  { unfold import_to_neo4j. rewrite bind_unfold. rewrite bind_unfold.
    unfold session_run. rewrite Hf. simpl. by rewrite !bind_unfold. }
  split; [done|]. rewrite Heq, import_to_neo4j_keep.
  set (df := parse_csv py raw).
  destruct (import_rows_trace env (length df) 0 df
              (logging (LogStart (length df))
                 {| store := empty_graph; clock := S (clock s);
                    log := log s ++ [LogCleared] |}).2
              (parse_csv_parsed py raw))
    as (tr & -> & Hwf & _ & Hsub & _ & _).
  destruct (run_trace_origin tr empty_graph Hwf) as [Hn He]. simpl.
  split.
  - intros n [(n0 & []%elem_of_nil & _)|(q & l & k & v & Hq & ?)]%Hn.
    destruct (Hsub q Hq) as (r & ? & ?). by exists r, q, l, k, v.
  - intros e [[]%elem_of_nil|(q & t & pk & l & v & p & x & Hq & ?)]%He.
    destruct (Hsub q Hq) as (r & ? & ?). by exists r, q, t, pk, l, v, p, x.
Qed.

Lemma clear_leaves_current_run_witness :
  import_to_neo4j quiet_env (parse_csv ascii_runtime sample_df) true
    (import_to_neo4j quiet_env (parse_csv ascii_runtime sample_df)
       false session0).2
  = import_to_neo4j quiet_env (parse_csv ascii_runtime sample_df) false
      {| store := empty_graph;
         clock := S (clock (import_to_neo4j quiet_env
                              (parse_csv ascii_runtime sample_df)
                              false session0).2);
         log := log (import_to_neo4j quiet_env
                       (parse_csv ascii_runtime sample_df) false session0).2
                ++ [LogCleared] |}.
Proof.
  exact (proj1 (clear_leaves_current_run ascii_runtime quiet_env sample_df
                  (import_to_neo4j quiet_env
                     (parse_csv ascii_runtime sample_df) false session0).2
                  eq_refl)).
Defined.

(** ** C6 *)

Lemma last_write_unwritten (qs : list cypher) (n : node) (x : string) :
  (∀ q, q ∈ qs → write_map 0 q !! x = None) → last_write qs n x = None.
Proof.
  induction qs as [|q qs IH] using rev_ind; intros H; [done|].
  rewrite last_write_snoc, IH, H.
  - by destruct (stmt_matches q n).
  - apply elem_of_app. right. by left.
  - intros q' Hq'. apply H. apply elem_of_app. by left.
Qed.

(** After the merge of the paper no statement of a row writes a property
    other than the author's hint and the journal's ISSN. *)
Lemma row_statements_tail_writes (env : run_env) (r : row) (q : cypher)
    (x : string) :
  q ∈ tail (row_statements env r) →
  x ≠ "last_seen_in" → x ≠ "issn" → write_map 0 q !! x = None.
Proof.
  intros Hq Hx1 Hx2. unfold row_statements in Hq.
  destruct (paper_properties r) as [e|p]; [by apply elem_of_nil in Hq|].
  simpl in Hq. repeat (apply elem_of_app in Hq as [Hq|Hq]).
  - unfold author_statements in Hq.
    apply list_elem_of_bind in Hq as (a & Hq & _).
    destruct (truthy (VStr a)); stmt_cases Hq; simpl;
      by rewrite ?lookup_singleton_ne, ?lookup_empty.
  - by rewrite (keyword_statements_silent _ _ _ Hq), lookup_empty.
  - destruct (find_publisher _ _); stmt_cases Hq; by simpl.
  - destruct (journal_of _); stmt_cases Hq; simpl.
    by rewrite lookup_singleton_ne.
  - destruct (subject_of _); stmt_cases Hq; by simpl.
Qed.

(** With no fault of the store, a row whose dictionary can be built and
    whose key is not null is imported without an exception. *)
Lemma import_paper_succeeds (env : run_env) (r : row) (s : state)
    (properties : gmap string pyval) :
  no_faults env → paper_properties r = inr properties →
  rejected r = false →
  (_import_paper env r s).1 = inr ()
  ∧ store (_import_paper env r s).2
    = run_trace (stamp (clock s) (row_statements env r)) (store s).
Proof.
  intros Hnf Hpp Hrej. pose proof (import_paper_issues env r s) as H.
  rewrite Hpp in H.
  destruct H as [_ (k & Hst & _ & [(Hres & -> & _)|(_ & _ & Hwhy)])].
  - by rewrite firstn_all in Hst.
  - destruct Hwhy as [Hf|(q & Hq & Hnok)]; [by rewrite Hnf in Hf|].
    destruct (rejected_first env r k q Hq Hnok) as [_ ?]. congruence.
Qed.

(** C6: the paper of a row is stored with the first 500 characters of the
    row's abstract: the import returns, a paper with the row's key is in
    the store, and every such paper holds that prefix, which is 500 long
    for a longer abstract (so for one of 600 characters) and the abstract
    itself for one of at most 500. *)
Theorem abstract_truncated (py : py_runtime) (env : run_env)
    (raw : gmap string pyval) (s : state) (a : ustr) :
  no_faults env →
  row_get (parse_row py raw) "abstract" (VStr []) = VStr a →
  row_get (parse_row py raw) "zotero_key" (VStr []) ≠ VNone →
  (_import_paper env (parse_row py raw) s).1 = inr ()
  ∧ has_node "Paper" "zotero_key"
      (row_get (parse_row py raw) "zotero_key" (VStr []))
      (store (_import_paper env (parse_row py raw) s).2)
  ∧ (∀ n, n ∈ nodes (store (_import_paper env (parse_row py raw) s).2) →
       node_matches "Paper" "zotero_key"
         (row_get (parse_row py raw) "zotero_key" (VStr [])) n = true →
       props n !! "abstract" = Some (VStr (take 500 a)))
  ∧ take 500 a `prefix_of` a
  ∧ (500 ≤ length a → length (take 500 a) = 500)%nat
  ∧ (length a = 600 → length (take 500 a) = 500)%nat
  ∧ (length a ≤ 500 → take 500 a = a)%nat.
Proof.
  intros Hnf Ha Hkey.
  pose proof (parse_row_parsed py raw) as Hrow.
  set (r := parse_row py raw) in *.
  assert (Hpp : ∃ properties, paper_properties r = inr properties).
  { eexists. apply paper_properties_spec. by exists a. }
  destruct Hpp as [properties Hpp].
  pose proof (paper_key_parsed r properties Hrow Hpp) as Hzk.
  assert (Hrej : rejected r = false).
  { unfold rejected. rewrite Hpp, Hzk.
    by destruct (row_get r "zotero_key" (VStr [])). }
  destruct (import_paper_succeeds env r s properties Hnf Hpp Hrej)
    as [Hres Hst].
  split; [done|]. rewrite Hst.
  assert (Hwf : Forall wf_stmt (row_statements env r)).
  { apply (proj2 (Forall_and stmt_ok (Q:=props_ok) _)).
    split; [by apply rejected_head|by apply row_statements_props_ok]. }
  destruct (run_trace_facts (stamp (clock s) (row_statements env r)) (store s))
    as [Hfacts Hprops].
  { by apply stamp_wf. }
  { rewrite stamp_snd. apply row_statements_ordered. }
  rewrite stamp_snd in Hfacts, Hprops.
  assert (Hqs : row_statements env r
                = MergePaper (row_get r "zotero_key" (VStr [])) properties
                  :: tail (row_statements env r)).
  { unfold row_statements. by rewrite Hpp, Hzk. }
  split; [|split; [|split; [|split; [|split]]]].
  - destruct (Hfacts (MergePaper (row_get r "zotero_key" (VStr []))
                        properties)) as [Hnode _].
    { rewrite Hqs. by left. }
    by apply Hnode.
  - intros n Hn Hm. apply (Hprops n "abstract" (VStr (take 500 a)) Hn);
      [done|].
    rewrite Hqs, last_write_cons, last_write_unwritten.
    + rewrite last_write_singleton. unfold stmt_matches.
      cbn [merge_pattern write_map]. rewrite Hm.
      rewrite lookup_insert_ne by done.
      destruct (paper_properties_lookup r properties "abstract" Hrow Hpp)
        as (a' & Ha' & ->); [done..|].
      rewrite Ha in Ha'. by simplify_eq.
    + intros q Hq. by eapply row_statements_tail_writes.
  - apply prefix_take.
  - intros Hlen. rewrite length_take. lia.
  - intros Hlen. rewrite length_take. lia.
  - intros Hlen. by apply take_ge.
Qed.

Lemma abstract_truncated_witness :
  (_import_paper quiet_env (parse_row ascii_runtime sample_row1) session0).1
  = inr ()
  ∧ has_node "Paper" "zotero_key"
      (row_get (parse_row ascii_runtime sample_row1) "zotero_key" (VStr []))
      (store (_import_paper quiet_env (parse_row ascii_runtime sample_row1)
                session0).2).
Proof.
  assert (Ha : row_get (parse_row ascii_runtime sample_row1) "abstract"
                 (VStr []) = VStr (u "An abstract"))
    by (vm_compute; reflexivity).
  assert (Hk : row_get (parse_row ascii_runtime sample_row1) "zotero_key"
                 (VStr []) ≠ VNone)
    by (vm_compute; intros H; discriminate H).
  pose proof (abstract_truncated ascii_runtime quiet_env sample_row1 session0
                (u "An abstract") quiet_env_no_faults Ha Hk) as (H1 & H2 & _).
  split; [exact H1|exact H2].
Defined.

(** ** The invariants of the data model are kept *)

Lemma wf_graph_empty : wf_graph empty_graph.
Proof.
  split; [constructor|]. split; [constructor|].
  by intros n1 n2 l k v ?%elem_of_nil.
Qed.

Lemma fresh_id_fresh (g : graph) : fresh_id g ∉ nid <$> nodes g.
Proof. apply max_list_not_elem_of_gt. unfold fresh_id. lia. Qed.

Lemma created_ids (q : cypher) (g : graph) :
  NoDup (nid <$> nodes g) → NoDup (nid <$> (nodes g ++ created q g)).
Proof.
  intros Hnd. unfold created.
  destruct (merge_pattern q) as [[[l k] v]|]; [|by rewrite app_nil_r].
  destruct (existsb _ _); [by rewrite app_nil_r|].
  rewrite fmap_app. apply NoDup_app. split; [done|]. split.
  - intros i Hi [->|[]%elem_of_nil]%elem_of_cons.
    by apply (fresh_id_fresh g).
  - apply NoDup_singleton.
Qed.

Lemma created_one (q : cypher) (g : graph) (n1 n2 : node) :
  n1 ∈ created q g → n2 ∈ created q g → n1 = n2.
Proof.
  unfold created.
  destruct (merge_pattern q) as [[[l k] v]|]; [|by intros ?%elem_of_nil].
  destruct (existsb _ _); [by intros ?%elem_of_nil|].
  by intros ->%list_elem_of_singleton ->%list_elem_of_singleton.
Qed.

Lemma merge_edges_NoDup (t : string) (prs : list (nat * nat)) (g : graph) :
  NoDup (edges g) → NoDup (edges (merge_edges t prs g)).
Proof.
  unfold merge_edges. revert g.
  induction prs as [|pr prs IH]; intros g Hnd; simpl; [done|].
  apply IH. unfold merge_edge. case_bool_decide as Hin; [done|].
  simpl. apply NoDup_app. split; [done|]. split; [|apply NoDup_singleton].
  by intros e He ->%list_elem_of_singleton.
Qed.

Lemma wf_graph_step (now : nat) (q : cypher) (g g' : graph) :
  wf_stmt q → run_cypher now q g = inr g' → wf_graph g → wf_graph g'.
Proof.
  intros Hwf Hrun (Hids & Hedges & Huniq).
  pose proof (wf_not_wipe q Hwf) as Hne.
  pose proof (run_cypher_nodes _ _ _ _ Hne Hrun) as Hnodes.
  split; [|split].
  - rewrite Hnodes, <- list_fmap_compose.
    erewrite list_fmap_ext; [by apply created_ids|].
    intros i n _. apply upd_nid.
  - destruct (run_cypher_nf _ _ _ _ Hne Hrun) as (gm & _ & He & Hl).
    destruct (link_pattern q) as [[[[t pk] l] v]|].
    + apply link_cases in Hl as (prs & -> & _).
      apply merge_edges_NoDup. by rewrite He.
    + subst g'. by rewrite He.
  - intros n1' n2' l k v Hn1 Hn2 Hk Hm1 Hm2. rewrite Hnodes in Hn1, Hn2.
    apply list_elem_of_fmap in Hn1 as (n1 & -> & Hn1).
    apply list_elem_of_fmap in Hn2 as (n2 & -> & Hn2).
    rewrite upd_matches in Hm1, Hm2 by done. f_equal.
    apply elem_of_app in Hn1 as [Hn1|Hn1];
      apply elem_of_app in Hn2 as [Hn2|Hn2].
    + by eapply Huniq.
    + destruct (created_matches _ _ _ _ _ _ Hn2 Hk Hm2) as [_ Hno].
      destruct Hno. by exists n1.
    + destruct (created_matches _ _ _ _ _ _ Hn1 Hk Hm1) as [_ Hno].
      destruct Hno. by exists n2.
    + by eapply created_one.
Qed.

(** One node per key and one relationship per pair and type, throughout a
    run. *)
Lemma wf_graph_trace (tr : list (nat * cypher)) (g : graph) :
  wf_trace tr → wf_graph g → wf_graph (run_trace tr g).
Proof.
  revert g. induction tr as [|[t q] tr IH]; intros g Hwf Hg; [done|].
  apply Forall_cons in Hwf as [Hq Hwf]. simpl in Hq.
  change (run_trace ((t, q) :: tr) g) with (run_trace tr (exec g (t, q))).
  apply IH; [done|]. eapply wf_graph_step; [done| |done]. by apply exec_wf.
Qed.

Lemma find_node_Some (l k : string) (v : pyval) (g : graph) :
  has_node l k v g →
  ∃ n, find_node l k v g = Some n ∧ n ∈ nodes g ∧ node_matches l k v n = true.
Proof.
  intros (n & Hn & Hm). unfold find_node.
  destruct (filter _ (nodes g)) as [|n' ns] eqn:Hf.
  - assert (H : n ∈ filter (λ n, node_matches l k v n = true) (nodes g))
      by (by apply list_elem_of_filter).
    rewrite Hf in H. by apply elem_of_nil in H.
  - exists n'. split; [done|].
    assert (H : n' ∈ filter (λ n, node_matches l k v n = true) (nodes g))
      by (rewrite Hf; by left).
    by apply list_elem_of_filter in H as [? ?].
Qed.

(** ** C5 *)

Lemma nid_inj (ns : list node) (n1 n2 : node) :
  NoDup (nid <$> ns) → n1 ∈ ns → n2 ∈ ns → nid n1 = nid n2 → n1 = n2.
Proof.
  induction ns as [|n ns IH]; intros Hnd H1 H2 Heq.
  - by apply elem_of_nil in H1.
  - rewrite fmap_cons in Hnd. apply NoDup_cons in Hnd as [Hn Hnd].
    apply elem_of_cons in H1 as [->|H1]; apply elem_of_cons in H2 as [->|H2].
    + done.
    + destruct Hn. rewrite Heq. apply list_elem_of_fmap. by exists n2.
    + destruct Hn. rewrite <- Heq. apply list_elem_of_fmap. by exists n1.
    + by apply IH.
Qed.

(** The only statements of a row that merge a [HAS_KEYWORD] relationship
    are those of its tags. *)
Lemma link_keyword_inv (env : run_env) (r : row)
    (properties : gmap string pyval) (q : cypher)
    (pk : pyval) (l : string) (v : pyval) :
  paper_properties r = inr properties →
  q ∈ row_statements env r →
  link_pattern q = Some ("HAS_KEYWORD", pk, l, v) →
  ∃ t, t ∈ set_order env (tags_of r)
       ∧ pk = paper_key_of properties ∧ l = "Keyword" ∧ v = VStr t.
Proof.
  intros Hpp Hq Hl. unfold row_statements in Hq. rewrite Hpp in Hq.
  apply elem_of_cons in Hq as [->|Hq]; [done|].
  repeat (apply elem_of_app in Hq as [Hq|Hq]).
  - unfold author_statements in Hq.
    apply list_elem_of_bind in Hq as (a & Hq & _).
    destruct (truthy (VStr a)); stmt_cases Hq; done.
  - unfold keyword_statements in Hq.
    apply list_elem_of_bind in Hq as (t & Hq & Ht).
    destruct (truthy (VStr t)); stmt_cases Hq; try done.
    simpl in Hl. simplify_eq. by exists t.
  - destruct (find_publisher _ _); stmt_cases Hq; done.
  - destruct (journal_of _); stmt_cases Hq; done.
  - destruct (subject_of _); stmt_cases Hq; done.
Qed.

(** C5: on an empty store, a row is imported with exactly one
    [HAS_KEYWORD] relationship from its paper to the keyword node of each
    distinct token of its two tag strings taken together, and no other;
    for the tags ["AI;ML"] and ["ML;Data"] these are the three keywords
    AI, ML and Data.  The paper node and each keyword node are the only
    nodes of their key. *)
Theorem tags_union_keywords (py : py_runtime) (env : run_env)
    (raw : gmap string pyval) (s : state) (a : ustr) :
  set_order_valid env → no_faults env → store s = empty_graph →
  row_get (parse_row py raw) "abstract" (VStr []) = VStr a →
  row_get (parse_row py raw) "zotero_key" (VStr []) ≠ VNone →
  ∃ (p : node) (kw : ustr → node),
    (p ∈ nodes (store (_import_paper env (parse_row py raw) s).2)
     ∧ ∀ n, n ∈ nodes (store (_import_paper env (parse_row py raw) s).2) →
         node_matches "Paper" "zotero_key"
           (row_get (parse_row py raw) "zotero_key" (VStr [])) n = true
         ↔ n = p)
    ∧ (∀ t, t ∈ tags_of (parse_row py raw) →
         kw t ∈ nodes (store (_import_paper env (parse_row py raw) s).2)
         ∧ ∀ n, n ∈ nodes (store (_import_paper env (parse_row py raw) s).2) →
             node_matches "Keyword" "name" (VStr t) n = true ↔ n = kw t)
    ∧ keyword_edges (store (_import_paper env (parse_row py raw) s).2)
      ≡ₚ (λ t, {| etype := "HAS_KEYWORD"; esrc := nid p; edst := nid (kw t) |})
         <$> remove_dups (tags_of (parse_row py raw))
    ∧ (row_get (parse_row py raw) "manual_tags" (VStr []) = VStr (u "AI;ML") →
       row_get (parse_row py raw) "auto_tags" (VStr []) = VStr (u "ML;Data") →
       remove_dups (tags_of (parse_row py raw)) = [u "AI"; u "ML"; u "Data"]
       ∧ length (keyword_edges
                   (store (_import_paper env (parse_row py raw) s).2)) = 3%nat).
Proof.
  intros Henv Hnf Hempty Ha Hkey.
  pose proof (parse_row_parsed py raw) as Hrow.
  set (r := parse_row py raw) in *.
  assert (Hpp : ∃ properties, paper_properties r = inr properties).
  { eexists. apply paper_properties_spec. by exists a. }
  destruct Hpp as [properties Hpp].
  pose proof (paper_key_parsed r properties Hrow Hpp) as Hzk.
  assert (Hrej : rejected r = false).
  { unfold rejected. rewrite Hpp, Hzk.
    by destruct (row_get r "zotero_key" (VStr [])). }
  destruct (import_paper_succeeds env r s properties Hnf Hpp Hrej)
    as [_ ->].
  assert (Hwf : Forall wf_stmt (row_statements env r)).
  { apply (proj2 (Forall_and stmt_ok (Q:=props_ok) _)).
    split; [by apply rejected_head|by apply row_statements_props_ok]. }
  pose proof (stamp_wf (clock s) _ Hwf) as Hwftr.
  destruct (run_trace_facts (stamp (clock s) (row_statements env r)) (store s))
    as [Hfacts _]; [done|rewrite stamp_snd; apply row_statements_ordered|].
  destruct (run_trace_origin (stamp (clock s) (row_statements env r))
              (store s) Hwftr) as [_ Horigin].
  pose proof (wf_graph_trace (stamp (clock s) (row_statements env r))
                (store s) Hwftr) as HG.
  rewrite stamp_snd in Hfacts, Horigin. rewrite Hempty in *.
  specialize (HG wf_graph_empty).
  set (G := run_trace (stamp (clock s) (row_statements env r)) empty_graph)
    in *.
  destruct HG as (Hids & Hedges & Huniq).
  destruct (upserted_of_facts env r G properties Henv Hrow Hpp Hfacts)
    as ((p & Hp & Hmp) & _ & Htags & _).
  set (zk := row_get r "zotero_key" (VStr [])) in *.
  set (kw := λ t, default p (find_node "Keyword" "name" (VStr t) G)).
  assert (Hkw : ∀ t, t ∈ tags_of r →
            kw t ∈ nodes G
            ∧ node_matches "Keyword" "name" (VStr t) (kw t) = true).
  { intros t Ht. destruct (Htags t Ht) as (_ & Hx & _).
    apply find_node_Some in Hx as (x & Hfind & Hx & Hmx).
    unfold kw. by rewrite Hfind. }
  assert (Hkz : key_prop "zotero_key") by (by left).
  assert (Hkn : key_prop "name") by (by right).
  assert (Hperm : keyword_edges G
            ≡ₚ (λ t, {| etype := "HAS_KEYWORD"; esrc := nid p;
                        edst := nid (kw t) |})
               <$> remove_dups (tags_of r)).
  { apply NoDup_Permutation.
    - by apply NoDup_filter.
    - apply NoDup_fmap_2_strong; [|apply NoDup_remove_dups].
      intros t1 t2 Ht1 Ht2 [= Heq].
      apply (proj1 (elem_of_remove_dups _ _)) in Ht1, Ht2.
      destruct (Hkw t1 Ht1) as [Hx1 Hm1]. destruct (Hkw t2 Ht2) as [Hx2 Hm2].
      apply (nid_inj _ _ _ Hids Hx1 Hx2) in Heq. rewrite Heq in Hm1.
      apply node_matches_spec in Hm1 as (_ & _ & Hp1).
      apply node_matches_spec in Hm2 as (_ & _ & Hp2). congruence.
    - intros e. unfold keyword_edges.
      rewrite list_elem_of_filter, list_elem_of_fmap. split.
      + intros [Hty [[]%elem_of_nil|Hor]%Horigin].
        destruct Hor as (q & ty & pk & l & v & p' & x' & Hq & Hl & Hp' & Hx'
                         & Hmp' & Hmx' & ->).
        simpl in Hty. subst ty.
        destruct (link_keyword_inv env r properties q pk l v Hpp Hq Hl)
          as (t & Ht & -> & -> & ->).
        apply (proj1 (proj2 (Henv _) _)) in Ht. rewrite Hzk in Hmp'.
        destruct (Hkw t Ht) as [Hx Hmx].
        exists t. split; [|by apply (proj2 (elem_of_remove_dups _ _))].
        rewrite (Huniq p' p "Paper" "zotero_key" zk) by done.
        by rewrite (Huniq x' (kw t) "Keyword" "name" (VStr t)) by done.
      + intros (t & -> & Ht). split; [done|].
        apply (proj1 (elem_of_remove_dups _ _)) in Ht.
        destruct (Hkw t Ht) as [Hx Hmx].
        destruct (Htags t Ht) as (_ & _ & Hlinked). by apply Hlinked. }
  exists p, kw. split; [|split; [|split]].
  - split; [done|]. intros n Hn. split; [|by intros ->].
    intros Hm. by apply (Huniq n p "Paper" "zotero_key" zk).
  - intros t Ht. destruct (Hkw t Ht) as [Hx Hmx]. split; [done|].
    intros n Hn. split; [|by intros ->]. intros Hm.
    by apply (Huniq n (kw t) "Keyword" "name" (VStr t)).
  - done.
  - intros Hmanual Hauto.
    assert (Hdedup : remove_dups (tags_of r) = [u "AI"; u "ML"; u "Data"]).
    { unfold tags_of. rewrite Hmanual, Hauto. by vm_compute. }
    split; [done|]. by rewrite Hperm, length_fmap, Hdedup.
Qed.

Lemma tags_union_keywords_witness :
  length (keyword_edges
            (store (_import_paper quiet_env
                      (parse_row ascii_runtime sample_row1) session0).2))
  = 3%nat.
Proof.
  assert (Ha : row_get (parse_row ascii_runtime sample_row1) "abstract"
                 (VStr []) = VStr (u "An abstract"))
    by (vm_compute; reflexivity).
  assert (Hk : row_get (parse_row ascii_runtime sample_row1) "zotero_key"
                 (VStr []) ≠ VNone)
    by (vm_compute; intros H; discriminate H).
  assert (Hm : row_get (parse_row ascii_runtime sample_row1) "manual_tags"
                 (VStr []) = VStr (u "AI;ML"))
    by (vm_compute; reflexivity).
  assert (Hau : row_get (parse_row ascii_runtime sample_row1) "auto_tags"
                  (VStr []) = VStr (u "ML;Data"))
    by (vm_compute; reflexivity).
  destruct (tags_union_keywords ascii_runtime quiet_env sample_row1 session0
              (u "An abstract") quiet_env_valid quiet_env_no_faults
              eq_refl Ha Hk) as (p & kw & _ & _ & _ & H).
  exact (proj2 (H Hm Hau)).
Defined.

(** * Further properties of the code *)

(** ** The splitters on any input *)

Lemma lstrip_all_space (s : ustr) :
  Forall (λ c, isspace c = true) s → lstrip s = [].
Proof.
  induction 1 as [|c t Hc _ IH]; simpl; [done|]. by rewrite Hc.
Qed.

Lemma strip_nil_iff (s : ustr) :
  strip s = [] ↔ Forall (λ c, isspace c = true) s.
Proof.
  split.
  - intros Hnil. destruct (strip_spec s) as (l & r & Heq & Hl & Hr & _).
    rewrite Hnil in Heq. rewrite Heq. apply Forall_app. by split.
  - intros Hs. unfold strip. by rewrite (lstrip_all_space s Hs).
Qed.

(** A string that begins and ends with a character that is not whitespace
    is its own [strip]. *)
Lemma strip_fixed (t : ustr) :
  (∀ c, head t = Some c → isspace c = false) →
  (∀ c, last t = Some c → isspace c = false) →
  strip t = t.
Proof.
  intros Hhd Hlast.
  assert (Hl : ∀ s : ustr, (∀ c, head s = Some c → isspace c = false) →
                           lstrip s = s).
  { intros [|c s] H; [done|]. simpl. by rewrite (H c eq_refl). }
  unfold strip, rstrip. rewrite (Hl t Hhd), Hl.
  - apply reverse_involutive.
  - intros c. rewrite head_reverse. apply Hlast.
Qed.

Lemma strip_idemp (s : ustr) : strip (strip s) = strip s.
Proof.
  destruct (strip_spec s) as (l & r & _ & _ & _ & Hhd & Hlast).
  by apply strip_fixed.
Qed.

Lemma split_head_prefix (sep : N) (s h : ustr) (r : list ustr) :
  split sep s = h :: r → ∃ post, s = h ++ post.
Proof.
  revert h r. induction s as [|c t IH]; simpl; intros h r Hsplit.
  - simplify_eq. by exists [].
  - destruct (c =? sep); [simplify_eq; by eexists|].
    pose proof (split_nonempty sep t) as Hnil.
    destruct (split sep t) as [|h0 r0]; [done|].
    destruct (IH h0 r0 eq_refl) as [post ->].
    simplify_eq. by exists post.
Qed.

(** A piece of [s.split(sep)] holds no separator and is a part of [s]. *)
Lemma split_pieces (sep : N) (s p : ustr) :
  p ∈ split sep s → (sep ∉ p) ∧ ∃ pre post, s = pre ++ p ++ post.
Proof.
  revert p. induction s as [|c t IH]; simpl; intros p Hp.
  - apply list_elem_of_singleton in Hp as ->.
    split; [apply not_elem_of_nil|]. by exists [], [].
  - destruct (N.eqb_spec c sep) as [->|Hne].
    + apply elem_of_cons in Hp as [->|Hp].
      * split; [apply not_elem_of_nil|]. by exists [], (sep :: t).
      * destruct (IH p Hp) as (Hsep & pre & post & ->).
        split; [done|]. by exists (sep :: pre), post.
    + pose proof (split_nonempty sep t) as Hnil.
      destruct (split sep t) as [|h r] eqn:Hsplit; [done|].
      apply elem_of_cons in Hp as [->|Hp].
      * destruct (IH h) as (Hsep & _); [by left|].
        split; [apply not_elem_of_cons; by split|].
        destruct (split_head_prefix sep t h r Hsplit) as [post ->].
        by exists [], post.
      * destruct (IH p) as (Hsep & pre & post & ->); [by right|].
        split; [done|]. by exists (c :: pre), post.
Qed.

Lemma split_tags_str (s : ustr) :
  _split_tags (VStr s)
  = omap (λ a, match strip a with [] => None | t => Some t end) (split 59 s).
Proof. by destruct s. Qed.

Lemma split_all_blank (s : ustr) :
  Forall (λ p, Forall (λ c, isspace c = true) p) (split 59 s)
  ↔ Forall (λ c, isspace c = true ∨ c = 59) s.
Proof.
  induction s as [|c t IH]; simpl.
  - split; intros _; by repeat constructor.
  - destruct (N.eqb_spec c 59) as [->|Hne].
    + rewrite !Forall_cons, IH. split; [intros [_ H]|intros [_ H]]; split;
        by auto.
    + pose proof (split_nonempty 59 t) as Hnil.
      destruct (split 59 t) as [|h r] eqn:Hsplit; [done|].
      rewrite !Forall_cons, <- IH, !Forall_cons. split.
      * intros [[Hc Hh] Hr]. by auto.
      * intros [[Hc|Hc] [Hh Hr]]; by auto.
Qed.

(** X1: the splitter returns no token exactly when its argument is not a
    string or is made only of whitespace and semicolons. *)
Theorem split_authors_nil_iff (v : pyval) :
  _split_authors v = []
  ↔ ∀ s, v = VStr s → Forall (λ c, isspace c = true ∨ c = 59) s.
Proof.
  destruct v as [|b|z| |s];
    try (split; [by intros _ ? [=]
                |intros _; unfold _split_authors; simpl;
                 by rewrite ?orb_true_r]).
  rewrite split_authors_str. split.
  - intros Hnil s' [= <-]. apply split_all_blank.
    apply Forall_forall. intros p Hp. apply strip_nil_iff.
    destruct (strip p) as [|c t] eqn:Hstrip; [done|].
    assert (Hin : (c :: t) ∈ omap (λ a, match strip a with
                                         | [] => None
                                         | x => Some x
                                         end) (split 59 s)).
    { apply list_elem_of_omap. exists p. split; [done|]. by rewrite Hstrip. }
    rewrite Hnil in Hin. by apply elem_of_nil in Hin.
  - intros Hs. specialize (Hs s eq_refl). apply split_all_blank in Hs.
    induction Hs as [|p ps Hp _ IH]; simpl; [done|].
    apply strip_nil_iff in Hp. by rewrite Hp.
Qed.

Lemma split_authors_nil_iff_witness :
  _split_authors (VStr (u " ; ;")) = [].
Proof.
  apply (proj2 (split_authors_nil_iff (VStr (u " ; ;")))).
  intros s [= <-].
  repeat (apply Forall_cons; split; [first [by left|by right]|]).
  apply Forall_nil_2.
Defined.

(** X2: every token the splitter returns is a non-empty piece of its argument
    that holds no semicolon and neither begins nor ends with whitespace;
    split again, it gives itself back. *)
Theorem split_tags_token (v : pyval) (t : ustr) :
  t ∈ _split_tags v →
  t ≠ [] ∧ (59 ∉ t) ∧ strip t = t
  ∧ (∃ s pre post, v = VStr s ∧ s = pre ++ t ++ post)
  ∧ _split_tags (VStr t) = [t].
Proof.
  destruct v as [|b|z| |s];
    try (unfold _split_tags; simpl; rewrite ?orb_true_r;
         by intros H; apply elem_of_nil in H).
  rewrite split_tags_str. intros Ht.
  apply list_elem_of_omap in Ht as (p & Hp & Hstrip).
  assert (Heq : strip p = t) by (destruct (strip p); by simplify_eq).
  assert (Hne : t ≠ []) by (destruct (strip p); by simplify_eq).
  clear Hstrip.
  apply split_pieces in Hp as (Hsep & pre & post & ->).
  destruct (strip_spec p) as (l & r & Hlr & _ & _ & _).
  rewrite Heq in Hlr.
  assert (Hsep' : 59 ∉ t).
  { intros Hin. apply Hsep. rewrite Hlr.
    apply elem_of_app. right. apply elem_of_app. by left. }
  assert (Hfix : strip t = t) by (rewrite <- Heq; apply strip_idemp).
  split; [done|]. split; [done|]. split; [done|]. split.
  - exists (pre ++ p ++ post), (pre ++ l), (r ++ post). split; [done|].
    rewrite Hlr at 1. by rewrite <- !app_assoc.
  - rewrite split_tags_str.
    rewrite split_no_sep by done. simpl. rewrite Hfix. by destruct t.
Qed.

Lemma split_tags_token_witness :
  u "ML" ∈ _split_tags (VStr (u "AI; ML ;"))
  ∧ _split_tags (VStr (u "ML")) = [u "ML"].
Proof.
  assert (H : u "ML" ∈ _split_tags (VStr (u "AI; ML ;")))
    by (apply (bool_decide_unpack _); vm_compute; reflexivity).
  split; [exact H|].
  exact (proj2 (proj2 (proj2 (proj2 (split_tags_token _ _ H))))).
Defined.

(** ** The annotation parser on any input *)

Section ExtraInfoFacts.
Context (py : py_runtime).

Lemma digits_value_nonneg (ds : ustr) (n : Z) :
  digits_value py ds = Some n → (0 ≤ n)%Z.
Proof.
  unfold digits_value.
  assert (H : ∀ a, (0 ≤ a)%Z →
    foldl (λ acc c, a ← acc; d ← digit_value py c;
                    Some (10 * a + Z.of_N d)%Z) (Some a) ds = Some n →
    (0 ≤ n)%Z).
  { induction ds as [|c ds IH]; simpl; intros a Ha Hn; [by simplify_eq|].
    destruct (digit_value py c) as [d|]; simpl in Hn.
    - apply (IH (10 * a + Z.of_N d)%Z); [lia|done].
    - exfalso. clear -Hn. induction ds as [|c' ds IH]; simpl in Hn; [done|].
      by apply IH. }
  by apply H.
Qed.

Lemma py_int_inr (ds : ustr) (n : Z) :
  py_int py ds = inr n → digits_value py ds = Some n ∧ (0 ≤ n)%Z.
Proof.
  unfold py_int. intros H. repeat (case_match; simplify_eq).
  split; [done|]. by eapply digits_value_nonneg.
Qed.

Lemma re_lit_Some_startswith (p s rest : ustr) :
  re_lit p s = Some rest → startswith p s = true.
Proof.
  revert s. induction p as [|a p IH]; intros [|b s]; simpl; try done.
  destruct (a =? b); [apply IH|done].
Qed.

Lemma re_search_py_in (marker : ustr) (cls : N → bool) (s g : ustr) :
  re_search marker cls s = Some g → py_in marker s = true.
Proof.
  induction s as [|c t IH]; simpl.
  - unfold re_match_at. destruct (re_lit marker []) as [rest|] eqn:Hlit;
      simpl; [|done].
    intros _. apply re_lit_Some_startswith in Hlit. by rewrite Hlit.
  - unfold re_match_at at 1.
    destruct (re_lit marker (c :: t)) as [rest|] eqn:Hlit; simpl.
    + intros _. apply re_lit_Some_startswith in Hlit. by rewrite Hlit.
    + intros H. rewrite (IH H). apply orb_true_r.
Qed.

(** The three steps change no key but their own. *)
Lemma parse_download_frame (s : ustr) (st st' : parse_locals) (x : string) :
  parse_download py s st = inr st' → x ≠ "download_count" →
  info_dict st' !! x = info_dict st !! x.
Proof.
  unfold parse_download. intros H Hx.
  repeat (case_match; simplify_eq); cbn [info_dict];
    by rewrite ?lookup_insert_ne.
Qed.

Lemma parse_cite_frame (s : ustr) (st st' : parse_locals) (x : string) :
  parse_cite py s st = inr st' → x ≠ "cnki_citation" →
  info_dict st' !! x = info_dict st !! x.
Proof.
  unfold parse_cite. intros H Hx.
  repeat (case_match; simplify_eq); cbn [info_dict];
    by rewrite ?lookup_insert_ne.
Qed.

Lemma parse_major_frame' (s : ustr) (st st' : parse_locals) (x : string) :
  parse_major s st = inr st' → x ≠ "major_field" →
  info_dict st' !! x = info_dict st !! x.
Proof.
  unfold parse_major. intros H Hx.
  repeat (case_match; simplify_eq); cbn [info_dict];
    by rewrite ?lookup_insert_ne.
Qed.

(** Within the digit limit the [CNKICite:] step raises only for want of
    [re]. *)
Lemma parse_cite_bound (s : ustr) (st : parse_locals) :
  re_bound st = true →
  (int_max_str_digits py = 0 ∨ length s ≤ int_max_str_digits py)%nat →
  ∃ st', parse_cite py s st = inr st' ∧ re_bound st' = true.
Proof.
  intros Hre Hlim. unfold parse_cite. rewrite Hre.
  destruct (py_in (u "CNKICite:") s); [|by eexists].
  destruct (re_search (u "CNKICite:") (is_decimal py) s) as [g|] eqn:Hg;
    [|by eexists].
  apply re_search_Some in Hg as (Hne & Hall & Hlen).
  destruct (py_int_digits py g Hne Hall) as (n & _ & ->).
  { destruct Hlim; [by left|right; lia]. }
  by eexists.
Qed.

Lemma facts_ok_insert (d : gmap string pyval) (x : string) (w : pyval) :
  extra_fact x w → facts_ok d → facts_ok (<[x := w]> d).
Proof.
  intros Hw Hd y v. destruct (decide (y = x)) as [->|Hne].
  - rewrite lookup_insert_eq. by intros [= <-].
  - rewrite lookup_insert_ne by done. apply Hd.
Qed.

Lemma parse_download_facts (s : ustr) (st st' : parse_locals) :
  parse_download py s st = inr st' →
  facts_ok (info_dict st) → facts_ok (info_dict st').
Proof.
  unfold parse_download. intros H Hd.
  repeat (case_match; simplify_eq); cbn [info_dict]; try done.
  apply facts_ok_insert; [|done]. left. split; [by left|].
  eexists. split; [done|]. by eapply py_int_inr.
Qed.

Lemma parse_cite_facts (s : ustr) (st st' : parse_locals) :
  parse_cite py s st = inr st' →
  facts_ok (info_dict st) → facts_ok (info_dict st').
Proof.
  unfold parse_cite. intros H Hd.
  repeat (case_match; simplify_eq); cbn [info_dict]; try done.
  apply facts_ok_insert; [|done]. left. split; [by right|].
  eexists. split; [done|]. by eapply py_int_inr.
Qed.

Lemma parse_major_facts (s : ustr) (st st' : parse_locals) :
  parse_major s st = inr st' →
  facts_ok (info_dict st) → facts_ok (info_dict st').
Proof.
  unfold parse_major. intros H Hd.
  destruct (py_in (u "major:") s); [|by simplify_eq].
  destruct (re_bound st); [|done].
  destruct (re_search (u "major:") not_newline s) as [g|] eqn:Hg;
    [|by simplify_eq].
  simplify_eq. cbn [info_dict].
  apply facts_ok_insert; [|done]. right. split; [done|].
  eexists. split; [done|]. split; [apply strip_idemp|].
  apply re_search_Some in Hg as (_ & Hall & _).
  destruct (strip_spec g) as (l & r & Hlr & _).
  intros Hin. rewrite Forall_forall in Hall.
  assert (Hnl : not_newline LF = true).
  { apply Hall. rewrite Hlr.
    apply elem_of_app. right. apply elem_of_app. by left. }
  done.
Qed.

(** X3: whatever the parser is given, every fact it returns is a non-negative
    count under [download_count] or [cnki_citation], or a string under
    [major_field] that has no line feed and no whitespace at its ends. *)
Theorem parse_extra_info_facts (v : pyval) (x : string) (w : pyval) :
  _parse_extra_info py v !! x = Some w → extra_fact x w.
Proof.
  assert (H0 : facts_ok (∅ : gmap string pyval)) by (by intros ? ? ?).
  revert x w. change (facts_ok (_parse_extra_info py v)).
  unfold _parse_extra_info. destruct v as [| | | |s]; try done.
  destruct (parse_download py s _) as [e|st1] eqn:H1; [done|].
  apply parse_download_facts in H1; [|done].
  destruct (parse_cite py s st1) as [e|st2] eqn:H2; [done|].
  apply parse_cite_facts in H2; [|done].
  destruct (parse_major s st2) as [e|st3] eqn:H3; [done|].
  by apply parse_major_facts in H3.
Qed.

(** X4: a value that is not a string containing [download:] is parsed to the
    empty dictionary, whatever other markers it holds: [re] is imported
    in the [download:] branch only. *)
Theorem parse_extra_info_needs_download (v : pyval) :
  (∀ s, v = VStr s → py_in (u "download:") s = false) →
  _parse_extra_info py v = ∅.
Proof.
  intros Hv. destruct v as [| | | |s]; try done.
  unfold _parse_extra_info, parse_download. rewrite (Hv s eq_refl).
  unfold parse_cite. cbn [re_bound info_dict].
  destruct (py_in (u "CNKICite:") s); [done|].
  unfold parse_major. cbn [re_bound info_dict].
  by destruct (py_in (u "major:") s).
Qed.

(** X5: when the first [download:] marker of the text is followed by optional
    whitespace and a maximal run of digits within the digit limit, the
    number they denote is returned under [download_count], whatever
    happens at the later markers. *)
Theorem parse_extra_info_download_count (s pre ws ds post : ustr) :
  s = pre ++ u "download:" ++ ws ++ ds ++ post →
  (∀ i, (i < length pre)%nat → startswith (u "download:") (drop i s) = false) →
  Forall (λ c, isspace c = true) ws →
  ds ≠ [] →
  Forall (λ c, is_decimal py c = true) ds →
  (∀ c, head post = Some c → is_decimal py c = false) →
  (int_max_str_digits py = 0 ∨ length ds ≤ int_max_str_digits py)%nat →
  ∃ n, digits_value py ds = Some n ∧ (0 ≤ n)%Z
       ∧ _parse_extra_info py (VStr s) !! "download_count" = Some (VInt n).
Proof.
  intros Hs Hfirst Hws Hne Hds Hpost Hlim.
  destruct (py_int_digits py ds Hne Hds Hlim) as (n & Hn & Hint).
  exists n. split; [done|]. split; [by eapply digits_value_nonneg|].
  assert (Hsearch : re_search (u "download:") (is_decimal py) s = Some ds).
  { rewrite Hs. apply re_search_first; try done.
    - by rewrite <- Hs.
    - intros c Hc. apply (is_decimal_not_space py).
      destruct ds; simplify_eq/=. by apply Forall_cons in Hds as [? _]. }
  assert (Hin : py_in (u "download:") s = true).
  { rewrite Hs. apply py_in_app. }
  unfold _parse_extra_info, parse_download. rewrite Hin, Hsearch, Hint.
  match goal with |- context [parse_cite py s ?st] =>
    destruct (parse_cite py s st) as [e|st2] eqn:H2 end.
  { cbn [info_dict]. by rewrite lookup_insert_eq. }
  assert (H2' : info_dict st2 !! "download_count" = Some (VInt n)).
  { rewrite (parse_cite_frame _ _ _ _ H2) by done. cbn [info_dict].
    by rewrite lookup_insert_eq. }
  destruct (parse_major s st2) as [e|st3] eqn:H3; [done|].
  by rewrite (parse_major_frame' _ _ _ _ H3).
Qed.

(** X6: in a text with a [download:] marker and within the digit limit, when
    the first [major:] marker is followed by optional whitespace and a
    non-empty rest of the line that does not begin with whitespace, that
    rest, trimmed, is returned under [major_field]. *)
Theorem parse_extra_info_major_field (s pre ws g post : ustr) :
  s = pre ++ u "major:" ++ ws ++ g ++ post →
  (∀ i, (i < length pre)%nat → startswith (u "major:") (drop i s) = false) →
  Forall (λ c, isspace c = true) ws →
  g ≠ [] →
  LF ∉ g →
  (∀ c, head g = Some c → isspace c = false) →
  (∀ c, head post = Some c → c = LF) →
  py_in (u "download:") s = true →
  (int_max_str_digits py = 0 ∨ length s ≤ int_max_str_digits py)%nat →
  _parse_extra_info py (VStr s) !! "major_field" = Some (VStr (strip g)).
Proof.
  intros Hs Hfirst Hws Hne Hg Hhd Hpost Hdl Hlim.
  assert (Hsearch : re_search (u "major:") not_newline s = Some g).
  { rewrite Hs. apply re_search_first; try done.
    - by rewrite <- Hs.
    - apply Forall_forall. intros c Hc. unfold not_newline.
      apply negb_true_iff, N.eqb_neq. by intros ->.
    - intros c Hc. rewrite (Hpost c Hc). done. }
  assert (Hin : py_in (u "major:") s = true).
  { rewrite Hs. apply py_in_app. }
  unfold _parse_extra_info.
  destruct (parse_download_binds py s {| info_dict := ∅; re_bound := false |}
              Hdl Hlim) as (st1 & -> & Hre & _).
  destruct (parse_cite_bound s st1 Hre Hlim) as (st2 & -> & Hre2).
  unfold parse_major. rewrite Hin, Hre2, Hsearch. cbn [info_dict].
  by rewrite lookup_insert_eq.
Qed.

(** X7: a [download:] count longer than the interpreter's digit limit makes
    [int] raise, and the parser returns the empty dictionary: the later
    markers are not looked at. *)
Theorem parse_extra_info_digit_limit (s g : ustr) :
  re_search (u "download:") (is_decimal py) s = Some g →
  int_max_str_digits py ≠ 0%nat →
  (int_max_str_digits py < length g)%nat →
  _parse_extra_info py (VStr s) = ∅.
Proof.
  intros Hg Hlim Hlen. unfold _parse_extra_info, parse_download.
  rewrite (re_search_py_in _ _ _ _ Hg), Hg. unfold py_int.
  replace (negb (int_max_str_digits py =? 0)%nat
           && (int_max_str_digits py <? length g)%nat) with true; [done|].
  symmetry. apply andb_true_iff. split.
  - by apply negb_true_iff, Nat.eqb_neq.
  - by apply Nat.ltb_lt.
Qed.
End ExtraInfoFacts.

Lemma parse_extra_info_facts_witness :
  extra_fact "major_field" (VStr (u "Physics")).
Proof.
  apply (parse_extra_info_facts ascii_runtime (VStr annotation_example)).
  vm_compute. reflexivity.
Defined.

Lemma parse_extra_info_needs_download_witness :
  _parse_extra_info ascii_runtime
    (VStr (u "CNKICite: 5" ++ [LF] ++ u "major: Physics")) = ∅.
Proof.
  apply parse_extra_info_needs_download.
  intros s [= <-]. vm_compute. reflexivity.
Defined.

Lemma parse_extra_info_download_count_witness :
  ∃ n, digits_value ascii_runtime (u "120") = Some n ∧ (0 ≤ n)%Z
       ∧ _parse_extra_info ascii_runtime (VStr annotation_example)
           !! "download_count" = Some (VInt n).
Proof.
  refine (parse_extra_info_download_count ascii_runtime
            annotation_example [] (u " ") (u "120")
            (LF :: u "CNKICite: 5" ++ [LF] ++ u "major: Physics")
            eq_refl _ _ _ _ _ _).
  - intros i Hi. simpl in Hi. lia.
  - by repeat constructor.
  - done.
  - by repeat constructor.
  - by intros c [= <-].
  - right. vm_compute. lia.
Defined.

Lemma parse_extra_info_major_field_witness :
  _parse_extra_info ascii_runtime (VStr annotation_example) !! "major_field"
  = Some (VStr (strip (u "Physics"))).
Proof.
  refine (parse_extra_info_major_field ascii_runtime
            annotation_example
            (u "download: 120" ++ [LF] ++ u "CNKICite: 5" ++ [LF])
            (u " ") (u "Physics") [] eq_refl _ _ _ _ _ _ eq_refl _).
  - intros i Hi. simpl in Hi.
    do 26 (destruct i as [|i]; [reflexivity|]). lia.
  - by repeat constructor.
  - done.
  - apply (bool_decide_unpack _). vm_compute. reflexivity.
  - by intros c [= <-].
  - done.
  - right. vm_compute. lia.
Defined.

Lemma parse_extra_info_digit_limit_witness :
  _parse_extra_info strict_runtime
    (VStr (u "download:" ++ replicate 641 49 ++ [LF] ++ u "major: Physics"))
  = ∅.
Proof.
  apply (parse_extra_info_digit_limit strict_runtime _ (replicate 641 49)).
  - vm_compute. reflexivity.
  - vm_compute. lia.
  - vm_compute. lia.
Defined.

(** ** [parse_csv]: where the cells of a row end up *)

Lemma list_to_map_rename (l : list (string * pyval)) (c : string) :
  (∀ c' v', (c', v') ∈ l → column_mapping c' = column_mapping c → c' = c) →
  (list_to_map (prod_map column_mapping id <$> l) : gmap string pyval)
    !! column_mapping c
  = (list_to_map l : gmap string pyval) !! c.
Proof.
  induction l as [|[c0 v0] l IH]; intros Hinj; [done|].
  simpl. destruct (decide (column_mapping c0 = column_mapping c)) as [Heq|Hne].
  - rewrite (Hinj c0 v0) by (done || by left). by rewrite !lookup_insert_eq.
  - rewrite !lookup_insert_ne by congruence.
    apply IH. intros c' v' Hin. apply (Hinj c' v'). by right.
Qed.

Lemma rename_columns_lookup (raw : gmap string pyval) (c : string) :
  (∀ c', is_Some (raw !! c') →
         column_mapping c' = column_mapping c → c' = c) →
  rename_columns raw !! column_mapping c = raw !! c.
Proof.
  intros Hinj. unfold rename_columns.
  rewrite list_to_map_rename, list_to_map_to_list; [done|].
  intros c' v' Hin%elem_of_map_to_list. apply Hinj. by eexists.
Qed.

Lemma parse_row_cells (py : py_runtime) (raw : gmap string pyval)
    (k : string) :
  cells (parse_row py raw) !! k
  = if bool_decide (k ∈ filled_columns)
    then fillna <$> rename_columns raw !! k
    else rename_columns raw !! k.
Proof.
  unfold parse_row, filled_columns. cbn [cells foldl].
  destruct (decide (k = "auto_tags")) as [->|H1].
  { by rewrite lookup_alter_eq, !lookup_alter_ne. }
  rewrite lookup_alter_ne by done.
  destruct (decide (k = "manual_tags")) as [->|H2].
  { by rewrite lookup_alter_eq, !lookup_alter_ne. }
  rewrite lookup_alter_ne by done.
  destruct (decide (k = "authors")) as [->|H3].
  { by rewrite lookup_alter_eq. }
  rewrite lookup_alter_ne by done.
  rewrite bool_decide_eq_false_2; [done|].
  intros Hin. by stmt_cases Hin.
Qed.

(** X8: a cell of the file is found under the canonical name of its column
    (its own name when the table has none), provided no other column of
    the file goes by that name.  An empty cell of [Author], [Manual Tags]
    or [Automatic Tags] becomes the empty string; every other cell is
    left as it was read. *)
Theorem parse_row_cell (py : py_runtime) (raw : gmap string pyval)
    (c : string) :
  (∀ c', is_Some (raw !! c') →
         column_mapping c' = column_mapping c → c' = c) →
  cells (parse_row py raw) !! column_mapping c
  = if bool_decide (column_mapping c ∈ filled_columns)
    then fillna <$> raw !! c
    else raw !! c.
Proof.
  intros Hinj. by rewrite parse_row_cells, rename_columns_lookup.
Qed.

Lemma parse_row_cell_witness :
  cells (parse_row ascii_runtime sample_row2) !! "abstract" = Some VNaN
  ∧ cells (parse_row ascii_runtime sample_row2) !! "authors"
    = Some (VStr (u "A")).
Proof.
  assert (Hraw : ∀ c c', is_Some (sample_row2 !! c') →
            c ∈ ["Abstract Note"; "Author"] →
            column_mapping c' = column_mapping c → c' = c).
  { intros c c' [v Hv] Hc Heq. apply elem_of_list_to_map_2 in Hv.
    repeat (apply elem_of_cons in Hc as [->|Hc]);
      try (by apply elem_of_nil in Hc);
      repeat (apply elem_of_cons in Hv as [[= -> ->]|Hv]);
      try (by apply elem_of_nil in Hv);
      by vm_compute in Heq. }
  split.
  - refine (parse_row_cell ascii_runtime sample_row2 "Abstract Note" _).
    intros c' Hc'. apply Hraw; [done|]. by left.
  - refine (parse_row_cell ascii_runtime sample_row2 "Author" _).
    intros c' Hc'. apply Hraw; [done|]. right. by left.
Defined.

(** X9: after [parse_csv] no cell of the three list columns is NaN or
    [None]. *)
Theorem parse_csv_lists_filled (py : py_runtime)
    (df : list (gmap string pyval)) (r : row) (col : string) (v : pyval) :
  r ∈ parse_csv py df → col ∈ filled_columns →
  cells r !! col = Some v → notna v = true.
Proof.
  intros Hr Hcol. apply list_elem_of_fmap in Hr as (raw & -> & _).
  rewrite parse_row_cells, bool_decide_eq_true_2 by done.
  destruct (rename_columns raw !! col) as [w|]; [|done].
  intros [= <-]. by destruct w.
Qed.

Lemma parse_csv_lists_filled_witness :
  cells (parse_row ascii_runtime row_no_tags) !! "manual_tags"
  = Some (VStr [])
  ∧ notna (VStr []) = true.
Proof.
  assert (H : cells (parse_row ascii_runtime row_no_tags) !! "manual_tags"
              = Some (VStr [])) by (vm_compute; reflexivity).
  split; [exact H|].
  apply (parse_csv_lists_filled ascii_runtime [row_no_tags]
           (parse_row ascii_runtime row_no_tags) "manual_tags").
  - by left.
  - right. by left.
  - exact H.
Defined.

(** ** One row that cannot be imported *)

(** X10: a row whose abstract cell is not a string (an empty cell, a number)
    makes [_import_paper] raise before it issues any statement: the store
    and its clock are as before, and the loop logs the failure under the
    row's key and goes on. *)
Theorem import_row_not_a_string (env : run_env) (total idx : nat) (r : row)
    (s : state) :
  is_str (row_get r "abstract" (VStr [])) = false →
  ∃ e, _import_paper env r s = (inl e, s)
       ∧ import_row env total idx r s
         = (inr (),
            {| store := store s; clock := clock s;
               log := log s ++ [LogFailed
                                  (row_get r "zotero_key" (VStr (u "N/A")))
                                  e] |}).
Proof.
  intros Hstr. exists TypeError.
  assert (Hpp : paper_properties r = inl TypeError).
  { unfold paper_properties.
    by destruct (row_get r "abstract" (VStr [])). }
  assert (Himp : _import_paper env r s = (inl TypeError, s)).
  { unfold _import_paper. rewrite bind_unfold. unfold lift. by rewrite Hpp. }
  split; [done|].
  unfold import_row, try_except. rewrite bind_unfold, Himp. done.
Qed.

Lemma import_row_not_a_string_witness :
  ∃ e, _import_paper quiet_env (parse_row ascii_runtime sample_row2) session0
       = (inl e, session0)
       ∧ import_row quiet_env 2 1 (parse_row ascii_runtime sample_row2)
           session0
         = (inr (),
            {| store := store session0; clock := clock session0;
               log := log session0
                      ++ [LogFailed
                            (row_get (parse_row ascii_runtime sample_row2)
                               "zotero_key" (VStr (u "N/A"))) e] |}).
Proof.
  apply import_row_not_a_string. vm_compute. reflexivity.
Defined.

(** ** The wipe *)

Lemma import_to_neo4j_clear (env : run_env) (df : list row) (s : state) :
  store_fault env (clock s) = false →
  import_to_neo4j env df true s
  = import_to_neo4j env df false
      {| store := empty_graph; clock := S (clock s);
         log := log s ++ [LogCleared] |}.
Proof.
  intros Hf. unfold import_to_neo4j. rewrite bind_unfold. rewrite bind_unfold.
  unfold session_run. rewrite Hf. simpl. by rewrite !bind_unfold.
Qed.

Lemma import_to_neo4j_clear_fault (env : run_env) (df : list row)
    (s : state) :
  store_fault env (clock s) = true →
  import_to_neo4j env df true s
  = (inl ServiceUnavailable,
     {| store := store s; clock := S (clock s); log := log s |}).
Proof.
  intros Hf. unfold import_to_neo4j. rewrite bind_unfold. rewrite bind_unfold.
  unfold session_run. by rewrite Hf.
Qed.

(** X11: when the statement that wipes the store fails on the way, the
    exception leaves [import_to_neo4j]: no row is processed, nothing is
    logged and the store is as it was. *)
Theorem import_clear_fault (py : py_runtime) (env : run_env)
    (raw : list (gmap string pyval)) (s : state) :
  store_fault env (clock s) = true →
  (import_to_neo4j env (parse_csv py raw) true s).1 = inl ServiceUnavailable
  ∧ store (import_to_neo4j env (parse_csv py raw) true s).2 = store s
  ∧ log (import_to_neo4j env (parse_csv py raw) true s).2 = log s.
Proof.
  intros Hf. by rewrite import_to_neo4j_clear_fault.
Qed.

Lemma import_clear_fault_witness :
  (import_to_neo4j faulty_env (parse_csv ascii_runtime sample_df) true
     session1).1 = inl ServiceUnavailable
  ∧ store (import_to_neo4j faulty_env (parse_csv ascii_runtime sample_df)
             true session1).2 = store session1
  ∧ log (import_to_neo4j faulty_env (parse_csv ascii_runtime sample_df)
           true session1).2 = log session1.
Proof.
  apply import_clear_fault. reflexivity.
Defined.

(** ** What an import without the wipe leaves alone *)

Lemma upd_unmatched (now : nat) (q : cypher) (n : node) :
  stmt_matches q n = false → upd now q n = n.
Proof. unfold upd. by intros ->. Qed.

Lemma exec_nodes (g : graph) (t : nat) (q : cypher) :
  wf_stmt q → nodes (exec g (t, q)) = upd t q <$> (nodes g ++ created q g).
Proof.
  intros Hq. eapply run_cypher_nodes; [by apply wf_not_wipe|].
  by apply exec_wf.
Qed.

Lemma run_trace_keeps (tr : list (nat * cypher)) (g : graph) :
  wf_trace tr →
  (∀ n, n ∈ nodes g →
     ∃ n', n' ∈ nodes (run_trace tr g) ∧ nid n' = nid n
           ∧ labels n' = labels n
           ∧ ∀ k, key_prop k → props n' !! k = props n !! k)
  ∧ (∀ e, e ∈ edges g → e ∈ edges (run_trace tr g)).
Proof.
  revert g. induction tr as [|[t q] tr IH]; intros g Hwf.
  { split; [|done]. intros n Hn. by exists n. }
  apply Forall_cons in Hwf as [Hq Hwf]. simpl in Hq.
  destruct (IH (exec g (t, q)) Hwf) as [IHn IHe].
  change (run_trace ((t, q) :: tr) g) with (run_trace tr (exec g (t, q))).
  split.
  - intros n Hn.
    destruct (IHn (upd t q n)) as (n' & Hn' & Hid & Hl & Hk).
    { rewrite exec_nodes by done. apply list_elem_of_fmap.
      exists n. split; [done|]. apply elem_of_app. by left. }
    exists n'. split; [done|]. rewrite Hid, Hl, upd_nid, upd_labels.
    split; [done|]. split; [done|]. intros k Hkey.
    rewrite (Hk k Hkey). by apply upd_key.
  - intros e He. apply IHe.
    eapply run_cypher_edges_mono; [by apply wf_not_wipe| |done].
    by apply exec_wf.
Qed.

Lemma run_trace_frame (tr : list (nat * cypher)) (g : graph) (n : node) :
  wf_trace tr → n ∈ nodes g →
  (∀ q, q ∈ tr.*2 → stmt_matches q n = false) →
  n ∈ nodes (run_trace tr g).
Proof.
  revert g. induction tr as [|[t q] tr IH]; intros g Hwf Hn Hq; [done|].
  apply Forall_cons in Hwf as [Hwq Hwf]. simpl in Hwq.
  change (run_trace ((t, q) :: tr) g) with (run_trace tr (exec g (t, q))).
  apply IH; [done| |].
  - rewrite exec_nodes by done. apply list_elem_of_fmap.
    exists n. split; [|apply elem_of_app; by left].
    symmetry. apply upd_unmatched. apply Hq. simpl. by left.
  - intros q' Hq'. apply Hq. simpl. by right.
Qed.

(** The node a statement of a row merges: the paper under the key of the
    row, or a secondary node named after one of its cells. *)
Lemma row_statements_merge (env : run_env) (r : row) (q : cypher)
    (l k : string) (v : pyval) :
  parsed_row r → q ∈ row_statements env r →
  merge_pattern q = Some (l, k, v) →
  (l = "Paper" ∧ k = "zotero_key" ∧ v = row_get r "zotero_key" (VStr []))
  ∨ (l = "Author" ∧ k = "name"
     ∧ ∃ a, a ∈ _split_authors (row_get r "authors" (VStr [])) ∧ v = VStr a)
  ∨ (l = "Keyword" ∧ k = "name"
     ∧ ∃ t, t ∈ set_order env (tags_of r) ∧ v = VStr t)
  ∨ (l = "Publisher" ∧ k = "name"
     ∧ ∃ p, find_publisher possible_publisher_cols r = Some p ∧ v = VStr p)
  ∨ (l = "Journal" ∧ k = "name" ∧ journal_of r = Some v)
  ∨ (l = "Subject" ∧ k = "name" ∧ subject_of r = Some v).
Proof.
  intros Hrow Hq Hm. unfold row_statements in Hq.
  destruct (paper_properties r) as [e|properties] eqn:Hpp;
    [by apply elem_of_nil in Hq|].
  apply elem_of_cons in Hq as [->|Hq].
  { left. simpl in Hm. simplify_eq. split; [done|]. split; [done|].
    by apply paper_key_parsed. }
  right. repeat (apply elem_of_app in Hq as [Hq|Hq]).
  - unfold author_statements in Hq.
    apply list_elem_of_bind in Hq as (a & Hq & Ha).
    destruct (truthy (VStr a)); stmt_cases Hq; try done.
    simpl in Hm. simplify_eq. left. split; [done|]. split; [done|].
    by exists a.
  - unfold keyword_statements in Hq.
    apply list_elem_of_bind in Hq as (t & Hq & Ht).
    destruct (truthy (VStr t)); stmt_cases Hq; try done.
    simpl in Hm. simplify_eq. right. left. split; [done|]. split; [done|].
    by exists t.
  - destruct (find_publisher _ _) as [p|] eqn:Hp; stmt_cases Hq.
    simpl in Hm. simplify_eq. right. right. left.
    split; [done|]. split; [done|]. by exists p.
  - destruct (journal_of _) as [j|] eqn:Hj; stmt_cases Hq.
    simpl in Hm. simplify_eq. right. right. right. left. done.
  - destruct (subject_of _) as [m|] eqn:Hs; stmt_cases Hq.
    simpl in Hm. simplify_eq. right. right. right. right. done.
Qed.

Lemma import_keep_trace (py : py_runtime) (env : run_env)
    (raw : list (gmap string pyval)) (s : state) :
  ∃ tr, store (import_to_neo4j env (parse_csv py raw) false s).2
        = run_trace tr (store s)
        ∧ wf_trace tr ∧ ordered tr.*2
        ∧ (∀ q, q ∈ tr.*2 →
             ∃ r, r ∈ parse_csv py raw ∧ q ∈ row_statements env r)
        ∧ (no_faults env → tr.*2 = r ← parse_csv py raw; executed env r).
Proof.
  rewrite import_to_neo4j_keep.
  destruct (import_rows_trace env (length (parse_csv py raw)) 0
              (parse_csv py raw)
              (logging (LogStart (length (parse_csv py raw))) s).2
              (parse_csv_parsed py raw))
    as (tr & Hst & Hwf & Hord & Hsub & Hnf & _).
  by exists tr.
Qed.

(** X12: without the wipe an import deletes nothing: every node that was in
    the store is still there under its id, with its labels and its key
    properties [zotero_key] and [name], and so is every relationship.
    This holds whatever fails during the run. *)
Theorem import_keeps_existing (py : py_runtime) (env : run_env)
    (raw : list (gmap string pyval)) (s : state) :
  (∀ n, n ∈ nodes (store s) →
     ∃ n', n' ∈ nodes (store (import_to_neo4j env (parse_csv py raw)
                                false s).2)
           ∧ nid n' = nid n ∧ labels n' = labels n
           ∧ props n' !! "zotero_key" = props n !! "zotero_key"
           ∧ props n' !! "name" = props n !! "name")
  ∧ (∀ e, e ∈ edges (store s) →
          e ∈ edges (store (import_to_neo4j env (parse_csv py raw)
                              false s).2)).
Proof.
  destruct (import_keep_trace py env raw s) as (tr & -> & Hwf & _).
  destruct (run_trace_keeps tr (store s) Hwf) as [Hn He].
  split; [|done]. intros n Hin.
  destruct (Hn n Hin) as (n' & Hn' & Hid & Hl & Hk).
  exists n'. repeat split; try done; apply Hk; [by left|by right].
Qed.

Lemma import_keeps_existing_witness :
  {| etype := "ABOUT"; esrc := 1; edst := 2 |}
  ∈ edges (store (import_to_neo4j quiet_env
                    (parse_csv ascii_runtime sample_df) false session1).2).
Proof.
  apply (proj2 (import_keeps_existing ascii_runtime quiet_env sample_df
                  session1)).
  by left.
Defined.

(** X13: a node of the store that the file does not speak of is left exactly
    as it was, properties included: a node that has none of the labels
    [Author], [Keyword], [Publisher], [Journal] and [Subject] and whose
    [zotero_key] is the key of no row. *)
Theorem import_leaves_other_nodes (py : py_runtime) (env : run_env)
    (raw : list (gmap string pyval)) (s : state) (n : node) :
  n ∈ nodes (store s) →
  (∀ l, l ∈ labels n → l ∉ secondary_labels) →
  (∀ r, r ∈ parse_csv py raw →
        props n !! "zotero_key" ≠ Some (row_get r "zotero_key" (VStr []))) →
  n ∈ nodes (store (import_to_neo4j env (parse_csv py raw) false s).2).
Proof.
  intros Hn Hlab Hkey.
  destruct (import_keep_trace py env raw s) as (tr & -> & Hwf & _ & Hsub & _).
  apply run_trace_frame; [done..|].
  intros q Hq. destruct (Hsub q Hq) as (r & Hr & Hqr).
  unfold stmt_matches.
  destruct (merge_pattern q) as [[[l k] v]|] eqn:Hm; [|done].
  apply not_true_is_false. intros Hmatch.
  apply node_matches_spec in Hmatch as (_ & Hl & Hv).
  pose proof (proj1 (Forall_forall _ _) (parse_csv_parsed py raw) r Hr)
    as Hrow.
  destruct (row_statements_merge env r q l k v Hrow Hqr Hm)
    as [(-> & -> & ->)|Hsec].
  - by apply (Hkey r Hr).
  - apply (Hlab l Hl). unfold secondary_labels.
    destruct Hsec as [(-> & _)|[(-> & _)|[(-> & _)|[(-> & _)|(-> & _)]]]];
      repeat (first [apply list_elem_of_here|apply list_elem_of_further]).
Qed.

Lemma import_leaves_other_nodes_witness :
  {| nid := 2; labels := ["Paper"];
     props := {[ "zotero_key" := VStr (u "K9");
                 "title" := VStr (u "T9") ]} |}
  ∈ nodes (store (import_to_neo4j quiet_env
                    (parse_csv ascii_runtime sample_df) false session1).2).
Proof.
  apply import_leaves_other_nodes.
  - right. by left.
  - intros l Hl. stmt_cases Hl. apply (bool_decide_unpack _).
    vm_compute. reflexivity.
  - intros r Hr. stmt_cases Hr; by vm_compute.
Defined.

(** ** Keys stay unique *)

(** X14: an import, with or without the wipe and whatever fails during the
    run, keeps the store free of duplicates: node ids are distinct, no
    relationship occurs twice, and two nodes that bear one label and one
    string under [zotero_key] (or under [name]) are the same node,
    provided the store was so before. *)
Theorem import_keeps_keys_unique (py : py_runtime) (env : run_env)
    (raw : list (gmap string pyval)) (clear_existing : bool) (s : state) :
  wf_graph (store s) →
  NoDup (nid <$> nodes (store (import_to_neo4j env (parse_csv py raw)
                                 clear_existing s).2))
  ∧ NoDup (edges (store (import_to_neo4j env (parse_csv py raw)
                           clear_existing s).2))
  ∧ ∀ n1 n2 l k (v : ustr),
      n1 ∈ nodes (store (import_to_neo4j env (parse_csv py raw)
                           clear_existing s).2) →
      n2 ∈ nodes (store (import_to_neo4j env (parse_csv py raw)
                           clear_existing s).2) →
      key_prop k →
      node_matches l k (VStr v) n1 = true →
      node_matches l k (VStr v) n2 = true →
      n1 = n2.
Proof.
  intros Hwf.
  assert (H : wf_graph (store (import_to_neo4j env (parse_csv py raw)
                                 clear_existing s).2)).
  { destruct clear_existing.
    - destruct (store_fault env (clock s)) eqn:Hf.
      + by rewrite import_to_neo4j_clear_fault.
      + rewrite import_to_neo4j_clear by done.
        match goal with |- context [import_to_neo4j _ _ false ?s0] =>
          destruct (import_keep_trace py env raw s0) as (tr & -> & Htr & _)
        end.
        apply wf_graph_trace; [done|]. apply wf_graph_empty.
    - destruct (import_keep_trace py env raw s) as (tr & -> & Htr & _).
      by apply wf_graph_trace. }
  destruct H as (Hid & He & Huniq). split; [done|]. split; [done|].
  intros n1 n2 l k v. apply Huniq.
Qed.

Lemma import_keeps_keys_unique_witness :
  NoDup (edges (store (import_to_neo4j quiet_env
                         (parse_csv ascii_runtime sample_df) true
                         session0).2)).
Proof.
  exact (proj1 (proj2 (import_keeps_keys_unique ascii_runtime quiet_env
                         sample_df true session0 wf_graph_empty))).
Defined.

(** ** [parse_csv]: the names of the source columns *)

Lemma column_mapping_idemp (c : string) :
  column_mapping (column_mapping c) = column_mapping c.
Proof.
  unfold column_mapping at 2 3.
  repeat (destruct (decide (c = _)) as [->|?]; [reflexivity|]).
  unfold column_mapping. by rewrite !decide_False.
Qed.

Lemma rename_columns_None (raw : gmap string pyval) (k : string) :
  (∀ c, is_Some (raw !! c) → column_mapping c ≠ k) →
  rename_columns raw !! k = None.
Proof.
  intros Hk. unfold rename_columns. apply not_elem_of_list_to_map_1.
  rewrite <- list_fmap_compose. intros Hin.
  apply list_elem_of_fmap in Hin as ([c v] & Heq & Hin).
  apply elem_of_map_to_list in Hin. simpl in Heq.
  apply (Hk c); [by eexists|done].
Qed.

Lemma parse_row_renamed (py : py_runtime) (raw : gmap string pyval)
    (c : string) :
  column_mapping c ≠ c → cells (parse_row py raw) !! c = None.
Proof.
  intros Hc.
  assert (Hnone : rename_columns raw !! c = None).
  { apply rename_columns_None. intros c' _ Heq. apply Hc.
    by rewrite <- Heq, column_mapping_idemp. }
  rewrite parse_row_cells, Hnone. by case_bool_decide.
Qed.

(** X15: after [parse_csv] no row has a cell under a name that
    [column_mapping] renames: the seventeen names of the Zotero export
    ([Key], [Publication Title], ...) are gone from the frame. *)
Theorem parse_row_source_names (py : py_runtime) (raw : gmap string pyval)
    (c : string) :
  column_mapping c ≠ c → cells (parse_row py raw) !! c = None.
Proof. apply parse_row_renamed. Qed.

Lemma parse_row_source_names_witness :
  cells (parse_row ascii_runtime sample_row1) !! "Publication Title" = None.
Proof.
  apply parse_row_source_names. vm_compute. intros H. discriminate H.
Defined.

(** ** [_add_extra_nodes]: the publisher of a row *)




(** ** Where the nodes of a run come from, label by label *)

Lemma import_clear_origin (py : py_runtime) (env : run_env)
    (raw : list (gmap string pyval)) (s : state) (n : node) :
  store_fault env (clock s) = false →
  n ∈ nodes (store (import_to_neo4j env (parse_csv py raw) true s).2) →
  ∃ r q l k v, r ∈ parse_csv py raw ∧ parsed_row r
               ∧ q ∈ row_statements env r
               ∧ merge_pattern q = Some (l, k, v)
               ∧ labels n = [l] ∧ props n !! k = Some v.
Proof.
  intros Hf. rewrite import_to_neo4j_clear by done.
  match goal with |- context [import_to_neo4j _ _ false ?s0] =>
    destruct (import_keep_trace py env raw s0) as (tr & -> & Hwf & _ & Hsub & _)
  end.
  destruct (run_trace_origin tr empty_graph Hwf) as [Hn _]. simpl.
  intros [(n0 & []%elem_of_nil & _)|(q & l & k & v & Hq & ?)]%Hn.
  destruct (Hsub q Hq) as (r & Hr & ?).
  exists r, q, l, k, v. split; [done|]. split; [|done].
  by apply (proj1 (Forall_forall _ _) (parse_csv_parsed py raw)).
Qed.

(** X17: after an import that began with the wipe, every node of the store has
    one label and is accounted for by a row of the file: a paper carries
    the row's key; an author or a keyword is named by a token of the
    row's author or tag cells; a publisher by the row's publisher; a
    journal by the publication title of a row whose item type is
    [journalArticle]; a subject by the [major_field] parsed from the
    row's annotation.  This holds whatever fails during the run. *)
Theorem import_nodes_by_label (py : py_runtime) (env : run_env)
    (raw : list (gmap string pyval)) (s : state) :
  set_order_valid env → store_fault env (clock s) = false →
  ∀ n, n ∈ nodes (store (import_to_neo4j env (parse_csv py raw) true s).2) →
    ∃ r, r ∈ parse_csv py raw
      ∧ ((labels n = ["Paper"]
          ∧ props n !! "zotero_key"
            = Some (row_get r "zotero_key" (VStr [])))
         ∨ (labels n = ["Author"]
            ∧ ∃ a, a ∈ _split_authors (row_get r "authors" (VStr []))
                   ∧ props n !! "name" = Some (VStr a))
         ∨ (labels n = ["Keyword"]
            ∧ ∃ t, (t ∈ _split_tags (row_get r "manual_tags" (VStr []))
                    ∨ t ∈ _split_tags (row_get r "auto_tags" (VStr [])))
                   ∧ props n !! "name" = Some (VStr t))
         ∨ (labels n = ["Publisher"]
            ∧ ∃ p, find_publisher possible_publisher_cols r = Some p
                   ∧ props n !! "name" = Some (VStr p))
         ∨ (labels n = ["Journal"]
            ∧ row_get r "item_type" VNone = VStr (u "journalArticle")
            ∧ ∃ j, j = row_get r "publication_title" (VStr [])
                   ∧ truthy j = true ∧ props n !! "name" = Some j)
         ∨ (labels n = ["Subject"]
            ∧ ∃ d m, extra_info_parsed r = Some d
                     ∧ d !! "major_field" = Some m ∧ truthy m = true
                     ∧ props n !! "name" = Some m)).
Proof.
  intros Henv Hf n Hn.
  destruct (import_clear_origin py env raw s n Hf Hn)
    as (r & q & l & k & v & Hr & Hrow & Hq & Hm & Hl & Hv).
  exists r. split; [done|].
  destruct (row_statements_merge env r q l k v Hrow Hq Hm)
    as [(-> & -> & ->)|[(-> & -> & a & Ha & ->)|[(-> & -> & t & Ht & ->)
       |[(-> & -> & p & Hp & ->)|[(-> & -> & Hj)|(-> & -> & Hs)]]]]].
  - by left.
  - right. left. split; [done|]. by exists a.
  - right. right. left. split; [done|]. exists t. split; [|done].
    apply (proj1 (proj2 (Henv _) _)) in Ht. unfold tags_of in Ht.
    by apply elem_of_app in Ht.
  - right. right. right. left. split; [done|]. by exists p.
  - right. right. right. right. left. split; [done|].
    unfold journal_of in Hj.
    destruct (truthy _ && _) eqn:Hc; [|done]. simplify_eq.
    apply andb_true_iff in Hc as [Ht Hi].
    apply bool_decide_eq_true in Hi. split; [done|].
    apply list_elem_of_fmap in Hr as (raw0 & -> & _).
    assert (Hpt : row_get (parse_row py raw0) "Publication Title" (VStr [])
                  = VStr []).
    { unfold row_get. rewrite parse_row_renamed; [done|].
      by vm_compute. }
    rewrite Hpt in Ht, Hv. unfold py_or in Ht, Hv. simpl in Ht, Hv.
    by eexists.
  - right. right. right. right. right. split; [done|].
    unfold subject_of in Hs.
    destruct (truthy _) eqn:Ht; [|done]. simplify_eq.
    destruct (extra_info_parsed r) as [d|] eqn:Hd; simpl in *; [|done].
    destruct (d !! "major_field") as [m|] eqn:Hm'; simpl in *; [|done].
    by exists d, m.
Qed.

Lemma import_nodes_by_label_witness :
  Forall (λ n, ∃ l, labels n = [l])
    (nodes (store (import_to_neo4j quiet_env
                     (parse_csv ascii_runtime sample_df) true session1).2)).
Proof.
  apply Forall_forall. intros n Hn.
  destruct (import_nodes_by_label ascii_runtime quiet_env sample_df session1
              quiet_env_valid eq_refl n Hn)
    as (r & _ & [[Hl _]|[[Hl _]|[[Hl _]|[[Hl _]|[[Hl _]|[Hl _]]]]]]);
    eexists; exact Hl.
Defined.

(** ** A file without keys *)

Lemma column_mapping_key (c : string) :
  column_mapping c = "zotero_key" → c = "Key" ∨ c = "zotero_key".
Proof.
  unfold column_mapping.
  repeat (destruct (decide (c = _)) as [->|?]; [by (left || discriminate)|]).
  by right.
Qed.

Lemma parse_row_no_key (py : py_runtime) (raw : gmap string pyval) :
  raw !! "Key" = None → raw !! "zotero_key" = None →
  row_get (parse_row py raw) "zotero_key" (VStr []) = VStr [].
Proof.
  intros H1 H2. unfold row_get. rewrite parse_row_cells.
  rewrite rename_columns_None; [by case_bool_decide|].
  intros c [v Hv] [->| ->]%column_mapping_key; congruence.
Qed.

(** X18: when the file has no [Key] column, every row is merged under the
    empty string: after an import that began with the wipe the store
    holds at most one paper, keyed [""], however many rows there were. *)
Theorem import_without_keys (py : py_runtime) (env : run_env)
    (raw : list (gmap string pyval)) (s : state) :
  store_fault env (clock s) = false →
  (∀ r0, r0 ∈ raw → r0 !! "Key" = None ∧ r0 !! "zotero_key" = None) →
  ∀ n1 n2,
    n1 ∈ nodes (store (import_to_neo4j env (parse_csv py raw) true s).2) →
    n2 ∈ nodes (store (import_to_neo4j env (parse_csv py raw) true s).2) →
    "Paper" ∈ labels n1 → "Paper" ∈ labels n2 →
    n1 = n2 ∧ props n1 !! "zotero_key" = Some (VStr []).
Proof.
  intros Hf Hraw.
  assert (Hkey : ∀ n,
    n ∈ nodes (store (import_to_neo4j env (parse_csv py raw) true s).2) →
    "Paper" ∈ labels n →
    node_matches "Paper" "zotero_key" (VStr []) n = true).
  { intros n Hn Hl.
    destruct (import_clear_origin py env raw s n Hf Hn)
      as (r & q & l & k & v & Hr & Hrow & Hq & Hm & Hlab & Hv).
    rewrite Hlab in Hl. apply list_elem_of_singleton in Hl as <-.
    apply node_matches_spec. rewrite Hlab. split; [done|].
    split; [by left|].
    destruct (row_statements_merge env r q _ k v Hrow Hq Hm)
      as [(_ & -> & ->)|[(? & _)|[(? & _)|[(? & _)|[(? & _)|(? & _)]]]]];
      try done.
    apply list_elem_of_fmap in Hr as (raw0 & -> & Hraw0).
    destruct (Hraw raw0 Hraw0) as [H1 H2].
    by rewrite Hv, parse_row_no_key. }
  assert (Hwf : wf_graph
    (store (import_to_neo4j env (parse_csv py raw) true s).2)).
  { rewrite import_to_neo4j_clear by done.
    match goal with |- context [import_to_neo4j _ _ false ?s0] =>
      destruct (import_keep_trace py env raw s0) as (tr & -> & Htr & _)
    end.
    apply wf_graph_trace; [done|]. apply wf_graph_empty. }
  intros n1 n2 Hn1 Hn2 Hl1 Hl2.
  pose proof (Hkey n1 Hn1 Hl1) as Hm1. pose proof (Hkey n2 Hn2 Hl2) as Hm2.
  split.
  - destruct Hwf as (_ & _ & Huniq).
    apply (Huniq n1 n2 "Paper" "zotero_key" (VStr [])); try done. by left.
  - by apply node_matches_spec in Hm1 as (_ & _ & ?).
Qed.

Lemma import_without_keys_witness :
  Forall (λ n, "Paper" ∈ labels n → props n !! "zotero_key" = Some (VStr []))
    (nodes (store (import_to_neo4j quiet_env
                     (parse_csv ascii_runtime keyless_df) true session0).2)).
Proof.
  assert (H : ∀ r0, r0 ∈ keyless_df →
                    r0 !! "Key" = None ∧ r0 !! "zotero_key" = None).
  { intros r0 Hr0. unfold keyless_df in Hr0. stmt_cases Hr0; by vm_compute. }
  apply Forall_forall. intros n Hn Hl.
  exact (proj2 (import_without_keys ascii_runtime quiet_env keyless_df
                  session0 eq_refl H n n Hn Hn Hl Hl)).
Defined.

(** ** The hint an author keeps *)

Lemma last_write_unmatched (qs : list cypher) (n : node) (x : string) :
  (∀ q, q ∈ qs → stmt_matches q n = true → write_map 0 q !! x = None) →
  last_write qs n x = None.
Proof.
  induction qs as [|q qs IH] using rev_ind; intros H; [done|].
  rewrite last_write_snoc, IH.
  - destruct (stmt_matches q n) eqn:Hm; [|done].
    rewrite H; [done| |done]. apply elem_of_app. right. by left.
  - intros q' Hq'. apply H. apply elem_of_app. by left.
Qed.

Lemma author_statements_last_write (zk title : pyval) (authors : list ustr)
    (n : node) (a : ustr) :
  node_matches "Author" "name" (VStr a) n = true →
  truthy (VStr a) = true →
  (a ∈ authors →
   last_write (author_statements zk title authors) n "last_seen_in"
   = Some title)
  ∧ (last_write (author_statements zk title authors) n "last_seen_in" = None
     ∨ last_write (author_statements zk title authors) n "last_seen_in"
       = Some title).
Proof.
  intros Hm Ht. unfold author_statements.
  induction authors as [|b authors [IH1 IH2]].
  { split; [by intros ?%elem_of_nil|by left]. }
  rewrite bind_cons, last_write_app.
  assert (Hb : (last_write (if truthy (VStr b)
                            then [MergeAuthor (VStr b) title;
                                  LinkAuthor zk (VStr b)]
                            else []) n "last_seen_in" = None
                ∨ last_write (if truthy (VStr b)
                              then [MergeAuthor (VStr b) title;
                                    LinkAuthor zk (VStr b)]
                              else []) n "last_seen_in" = Some title)
               ∧ (b = a →
                  last_write (if truthy (VStr b)
                              then [MergeAuthor (VStr b) title;
                                    LinkAuthor zk (VStr b)]
                              else []) n "last_seen_in" = Some title)).
  { split.
    - destruct (truthy (VStr b)); [|by left].
      unfold last_write, stmt_matches. cbn [foldl merge_pattern write_map].
      rewrite ?lookup_singleton_eq, ?lookup_empty.
      destruct (node_matches "Author" "name" (VStr b) n); [by right|by left].
    - intros ->. rewrite Ht.
      unfold last_write, stmt_matches. cbn [foldl merge_pattern write_map].
      by rewrite Hm, ?lookup_singleton_eq. }
  destruct Hb as [Hb1 Hb2]. split.
  - intros [->|Hin]%elem_of_cons.
    + destruct IH2 as [-> | ->]; [by apply Hb2|done].
    + by rewrite IH1.
  - destruct IH2 as [-> | ->]; [done|by right].
Qed.

(** X19: after an import without faults, an author named in a row that was
    imported, and in no later row of the file, carries under
    [last_seen_in] the title of that row: the last row that names the
    author wins. *)
Theorem author_last_seen_in (py : py_runtime) (env : run_env)
    (raw1 raw2 : list (gmap string pyval)) (raw : gmap string pyval)
    (s : state) (a : ustr) :
  no_faults env →
  is_str (row_get (parse_row py raw) "abstract" (VStr [])) = true →
  row_get (parse_row py raw) "zotero_key" (VStr []) ≠ VNone →
  row_get (parse_row py raw) "title" (VStr []) ≠ VNone →
  a ∈ _split_authors (row_get (parse_row py raw) "authors" (VStr [])) →
  (∀ r, r ∈ parse_csv py raw2 →
        a ∉ _split_authors (row_get r "authors" (VStr []))) →
  has_node "Author" "name" (VStr a)
    (store (import_to_neo4j env (parse_csv py (raw1 ++ raw :: raw2))
              false s).2)
  ∧ ∀ n,
      n ∈ nodes (store (import_to_neo4j env
                          (parse_csv py (raw1 ++ raw :: raw2)) false s).2) →
      node_matches "Author" "name" (VStr a) n = true →
      props n !! "last_seen_in"
      = Some (row_get (parse_row py raw) "title" (VStr [])).
Proof.
  intros Hnf Habs Hkey Htitle Ha Hlater.
  pose proof (parse_row_parsed py raw) as Hrow.
  set (r := parse_row py raw) in *.
  assert (Hpp : ∃ properties, paper_properties r = inr properties).
  { destruct (row_get r "abstract" (VStr [])) as [| | | |ab] eqn:Hab;
      try done.
    eexists. apply paper_properties_spec. by exists ab. }
  destruct Hpp as [properties Hpp].
  pose proof (paper_key_parsed r properties Hrow Hpp) as Hzk.
  assert (Hrej : rejected r = false).
  { unfold rejected. rewrite Hpp, Hzk.
    by destruct (row_get r "zotero_key" (VStr [])). }
  assert (Hti : default VNone (properties !! "title")
                = row_get r "title" (VStr [])).
  { destruct (paper_properties_lookup r properties "title" Hrow Hpp)
      as (ab & _ & ->); [done..|]. done. }
  assert (Hex : executed env r
                = MergePaper (row_get r "zotero_key" (VStr [])) properties
                  :: author_statements (row_get r "zotero_key" (VStr []))
                       (row_get r "title" (VStr []))
                       (_split_authors (row_get r "authors" (VStr [])))
                  ++ keyword_statements (row_get r "zotero_key" (VStr []))
                       (set_order env (tags_of r))
                  ++ extra_statements r (row_get r "zotero_key" (VStr []))).
  { rewrite executed_alt, Hrej. unfold row_statements.
    by rewrite Hpp, Hzk, Hti. }
  destruct (import_keep_trace py env (raw1 ++ raw :: raw2) s)
    as (tr & -> & Hwf & Hord & _ & Htr).
  specialize (Htr Hnf).
  destruct (run_trace_facts tr (store s) Hwf Hord) as [Hfacts Hprops].
  assert (Hsplit : tr.*2
                   = (parse_csv py raw1 ≫= executed env)
                     ++ executed env r
                     ++ (parse_csv py raw2 ≫= executed env)).
  { rewrite Htr. unfold parse_csv.
    by rewrite fmap_app, fmap_cons, bind_app, bind_cons. }
  assert (Hta : truthy (VStr a) = true) by (by eapply split_authors_truthy).
  split.
  - destruct (Hfacts (MergeAuthor (VStr a) (row_get r "title" (VStr []))))
      as [Hnode _].
    + rewrite Hsplit, Hex. apply elem_of_app. right. apply elem_of_app. left.
      right. apply elem_of_app. left. unfold author_statements.
      apply list_elem_of_bind. exists a. split; [|done].
      rewrite Hta. by left.
    + by apply Hnode.
  - intros n Hn Hm.
    rewrite (Hprops n "last_seen_in" (row_get r "title" (VStr [])) Hn).
    + unfold stored. by destruct (row_get r "title" (VStr [])).
    + done.
    + rewrite Hsplit, !last_write_app.
      rewrite (last_write_unmatched (parse_csv py raw2 ≫= executed env)).
      * rewrite Hex, last_write_cons, last_write_app, last_write_app.
        rewrite (last_write_unwritten (extra_statements _ _)).
        2:{ intros q Hq. unfold extra_statements in Hq.
            repeat (apply elem_of_app in Hq as [Hq|Hq]).
            - destruct (find_publisher _ _); stmt_cases Hq; by simpl.
            - destruct (journal_of _); stmt_cases Hq; simpl.
              by rewrite lookup_singleton_ne.
            - destruct (subject_of _); stmt_cases Hq; by simpl. }
        rewrite (last_write_unwritten (keyword_statements _ _)).
        2:{ intros q Hq.
            by rewrite (keyword_statements_silent _ _ _ Hq), lookup_empty. }
        by rewrite (proj1 (author_statements_last_write _ _ _ n a Hm Hta) Ha).
      * intros q Hq Hmq.
        apply list_elem_of_bind in Hq as (r' & Hq & Hr').
        pose proof (proj1 (Forall_forall _ _) (parse_csv_parsed py raw2)
                      r' Hr') as Hrow'.
        rewrite executed_alt in Hq.
        destruct (rejected r'); [by apply elem_of_nil in Hq|].
        unfold row_statements in Hq.
        destruct (paper_properties r') as [e|properties'] eqn:Hpp';
          [by apply elem_of_nil in Hq|].
        apply elem_of_cons in Hq as [->|Hq].
        { cbn [write_map]. rewrite lookup_insert_ne by done.
          destruct (paper_properties_lookup r' properties' "last_seen_in"
                      Hrow' Hpp') as (ab & _ & ->); [done..|]. done. }
        repeat (apply elem_of_app in Hq as [Hq|Hq]).
        -- unfold author_statements in Hq.
           apply list_elem_of_bind in Hq as (b & Hq & Hb).
           destruct (truthy (VStr b)); stmt_cases Hq; [|done].
           exfalso. unfold stmt_matches in Hmq. cbn [merge_pattern] in Hmq.
           apply node_matches_spec in Hmq as (_ & _ & Hnb).
           apply node_matches_spec in Hm as (_ & _ & Hna).
           rewrite Hna in Hnb. simplify_eq. by apply (Hlater r' Hr').
        -- by rewrite (keyword_statements_silent _ _ _ Hq), lookup_empty.
        -- destruct (find_publisher _ _); stmt_cases Hq; by simpl.
        -- destruct (journal_of _); stmt_cases Hq; simpl.
           by rewrite lookup_singleton_ne.
        -- destruct (subject_of _); stmt_cases Hq; by simpl.
Qed.

Lemma author_last_seen_in_witness :
  has_node "Author" "name" (VStr (u "B"))
    (store (import_to_neo4j quiet_env
              (parse_csv ascii_runtime ([] ++ sample_row1 :: [sample_row2]))
              false session0).2).
Proof.
  refine (proj1 (author_last_seen_in ascii_runtime quiet_env [] [sample_row2]
                   sample_row1 session0 (u "B") quiet_env_no_faults
                   _ _ _ _ _)).
  - vm_compute. reflexivity.
  - vm_compute. intros H. discriminate H.
  - vm_compute. intros H. discriminate H.
  - apply (bool_decide_unpack _). vm_compute. reflexivity.
  - intros r Hr. stmt_cases Hr. apply (bool_decide_unpack _).
    vm_compute. reflexivity.
Defined.

(** ** A journal article without a publication title *)

(** X20: a journal article whose [Publication Title] cell is empty is given a
    journal all the same: the cell is NaN, which is true for [if journal],
    and the paper ends up joined by [PUBLISHED_IN] to a [Journal] node
    whose name is NaN. *)
Theorem journal_of_empty_title (py : py_runtime) (env : run_env)
    (raw : gmap string pyval) (s : state) :
  no_faults env →
  is_str (row_get (parse_row py raw) "abstract" (VStr [])) = true →
  is_str (row_get (parse_row py raw) "zotero_key" (VStr [])) = true →
  row_get (parse_row py raw) "item_type" VNone = VStr (u "journalArticle") →
  row_get (parse_row py raw) "publication_title" (VStr []) = VNaN →
  (_import_paper env (parse_row py raw) s).1 = inr ()
  ∧ ∃ p j,
      p ∈ nodes (store (_import_paper env (parse_row py raw) s).2)
      ∧ j ∈ nodes (store (_import_paper env (parse_row py raw) s).2)
      ∧ node_matches "Paper" "zotero_key"
          (row_get (parse_row py raw) "zotero_key" (VStr [])) p = true
      ∧ "Journal" ∈ labels j ∧ props j !! "name" = Some VNaN
      ∧ {| etype := "PUBLISHED_IN"; esrc := nid p; edst := nid j |}
        ∈ edges (store (_import_paper env (parse_row py raw) s).2).
Proof.
  intros Hnf Habs Hstr Hitem Hpt.
  assert (Hkey : row_get (parse_row py raw) "zotero_key" (VStr []) ≠ VNone)
    by (by destruct (row_get (parse_row py raw) "zotero_key" (VStr []))).
  pose proof (parse_row_parsed py raw) as Hrow.
  assert (Hsrc : row_get (parse_row py raw) "Publication Title" (VStr [])
                 = VStr []).
  { unfold row_get. rewrite parse_row_renamed; [done|]. by vm_compute. }
  set (r := parse_row py raw) in *.
  assert (Hpp : ∃ properties, paper_properties r = inr properties).
  { destruct (row_get r "abstract" (VStr [])) as [| | | |ab] eqn:Hab;
      try done.
    eexists. apply paper_properties_spec. by exists ab. }
  destruct Hpp as [properties Hpp].
  pose proof (paper_key_parsed r properties Hrow Hpp) as Hzk.
  assert (Hrej : rejected r = false).
  { unfold rejected. rewrite Hpp, Hzk.
    by destruct (row_get r "zotero_key" (VStr [])). }
  destruct (import_paper_succeeds env r s properties Hnf Hpp Hrej)
    as [Hres Hst].
  split; [done|]. rewrite Hst.
  assert (Hwf : Forall wf_stmt (row_statements env r)).
  { apply (proj2 (Forall_and stmt_ok (Q:=props_ok) _)).
    split; [by apply rejected_head|by apply row_statements_props_ok]. }
  destruct (run_trace_facts (stamp (clock s) (row_statements env r)) (store s))
    as [Hfacts _].
  { by apply stamp_wf. }
  { rewrite stamp_snd. apply row_statements_ordered. }
  rewrite stamp_snd in Hfacts.
  assert (Hj : journal_of r = Some VNaN).
  { unfold journal_of. rewrite Hsrc, Hpt, Hitem. unfold py_or.
    cbn [truthy andb]. by rewrite bool_decide_eq_true_2. }
  destruct (Hfacts (MergeJournal VNaN (row_get r "ISSN" (VStr []))
                      (row_get r "zotero_key" (VStr [])))) as [_ Hlink].
  { unfold row_statements. rewrite Hpp, Hzk. right.
    apply elem_of_app. right. apply elem_of_app. right.
    unfold extra_statements. apply elem_of_app. right.
    apply elem_of_app. left. rewrite Hj. by left. }
  destruct (Hlink "PUBLISHED_IN" (row_get r "zotero_key" (VStr []))
              "Journal" VNaN eq_refl)
    as ((p & Hp & Hmp) & (j & Hj' & Hmj) & Hlinked).
  exists p, j. split; [done|]. split; [done|]. split; [done|].
  pose proof (Hlinked p j Hp Hj' Hmp Hmj) as He.
  apply node_matches_spec in Hmj as (_ & Hl & Hn).
  by repeat split.
Qed.

Lemma journal_of_empty_title_witness :
  (_import_paper quiet_env (parse_row ascii_runtime untitled_article)
     session0).1 = inr ().
Proof.
  refine (proj1 (journal_of_empty_title ascii_runtime quiet_env
                   untitled_article session0 quiet_env_no_faults _ _ _ _)).
  - vm_compute. reflexivity.
  - vm_compute. reflexivity.
  - vm_compute. reflexivity.
  - vm_compute. reflexivity.
Defined.

(** ** [main] *)

Lemma import_to_neo4j_result (env : run_env) (df : list row)
    (clear_existing : bool) (s : state) :
  (import_to_neo4j env df clear_existing s).1
  = if clear_existing && store_fault env (clock s)
    then inl ServiceUnavailable else inr ().
Proof.
  destruct (clear_existing && store_fault env (clock s)) eqn:Hc.
  - apply andb_true_iff in Hc as [-> Hf].
    by rewrite import_to_neo4j_clear_fault.
  - destruct (import_start env (length df) clear_existing s) as [s0 Hs0].
    { intros ->. by destruct (store_fault env (clock s)). }
    unfold import_to_neo4j. rewrite Hs0, bind_unfold.
    pose proof (import_rows_ok env (length df) 0 df s0) as Hok.
    by destruct (import_rows env (length df) 0 df s0) as [[e|[]] s1].
Qed.

(** X21: [main] ends with status 0 exactly when the driver is created, the
    file is read and, with [--clear], the wipe goes through; otherwise
    with status 1.  No failure of a row changes the status: a store that
    cannot be reached gives status 0 as long as the wipe is not asked
    for.  The driver is closed on every path on which it was created. *)
Theorem main_exit_code (w : world) (a : args) :
  (exit_code (main w a) = 0%Z
   ↔ is_Some (driver w (uri a) (user a) (password a))
     ∧ is_Some (read_csv w (csv a) (encoding a))
     ∧ (clear a = true → store_fault (session_env w) 0 = false))
  ∧ (exit_code (main w a) = 0%Z ∨ exit_code (main w a) = 1%Z)
  ∧ (last (messages (main w a)) = Some Closed
     ↔ is_Some (driver w (uri a) (user a) (password a))).
Proof.
  unfold main.
  destruct (driver w (uri a) (user a) (password a)) as [[]|].
  2:{ split; [|split]; [|by right|].
      - split; [done|]. by intros [[? [=]] _].
      - split; [done|]. by intros [? [=]]. }
  destruct (read_csv w (csv a) (encoding a)) as [raw|].
  2:{ split; [|split]; [|by right|].
      - split; [done|]. by intros (_ & [? [=]] & _).
      - by split. }
  cbn zeta. rewrite import_to_neo4j_result. cbn [clock].
  destruct (clear a && store_fault (session_env w) 0) eqn:Hc;
    cbn [messages exit_code].
  - split; [|split]; [|by right|].
    + split; [done|]. intros (_ & _ & Hf).
      apply andb_true_iff in Hc as [Hcl Hfault]. rewrite Hf in Hfault; done.
    + unfold close. rewrite last_snoc. by split.
  - split; [|split]; [|by left|].
    + split; [|done]. intros _. split; [done|]. split; [done|].
      intros Hcl. rewrite Hcl in Hc. by destruct (store_fault _ 0).
    + unfold close. rewrite last_snoc. by split.
Qed.

Lemma main_exit_code_witness :
  exit_code (main unreachable_world sample_args) = 0%Z.
Proof.
  apply (proj1 (main_exit_code unreachable_world sample_args)).
  split; [by eexists|]. split; [by eexists|]. intros H. discriminate H.
Defined.

(** ** What the paper of a row holds *)

(** X22: after a row is imported without a fault, its paper holds the
    dictionary [paper_properties] as it was sent: every key of the
    dictionary, the facts parsed from the annotation included, is a
    property of the paper with the value sent, and a key sent as [None]
    is no property of it. *)
Theorem paper_properties_stored (py : py_runtime) (env : run_env)
    (raw : gmap string pyval) (s : state) (properties : gmap string pyval) :
  no_faults env →
  paper_properties (parse_row py raw) = inr properties →
  is_str (row_get (parse_row py raw) "zotero_key" (VStr [])) = true →
  (_import_paper env (parse_row py raw) s).1 = inr ()
  ∧ ∀ n, n ∈ nodes (store (_import_paper env (parse_row py raw) s).2) →
      node_matches "Paper" "zotero_key"
        (row_get (parse_row py raw) "zotero_key" (VStr [])) n = true →
      ∀ x w, properties !! x = Some w →
        props n !! x = match w with VNone => None | _ => Some w end.
Proof.
  intros Hnf Hpp Hstr.
  assert (Hkey : row_get (parse_row py raw) "zotero_key" (VStr []) ≠ VNone)
    by (by destruct (row_get (parse_row py raw) "zotero_key" (VStr []))).
  pose proof (parse_row_parsed py raw) as Hrow.
  set (r := parse_row py raw) in *.
  pose proof (paper_key_parsed r properties Hrow Hpp) as Hzk.
  assert (Hrej : rejected r = false).
  { unfold rejected. rewrite Hpp, Hzk.
    by destruct (row_get r "zotero_key" (VStr [])). }
  destruct (import_paper_succeeds env r s properties Hnf Hpp Hrej)
    as [Hres Hst].
  split; [done|]. rewrite Hst.
  assert (Hwf : Forall wf_stmt (row_statements env r)).
  { apply (proj2 (Forall_and stmt_ok (Q:=props_ok) _)).
    split; [by apply rejected_head|by apply row_statements_props_ok]. }
  destruct (run_trace_facts (stamp (clock s) (row_statements env r)) (store s))
    as [_ Hprops].
  { by apply stamp_wf. }
  { rewrite stamp_snd. apply row_statements_ordered. }
  rewrite stamp_snd in Hprops.
  assert (Hqs : row_statements env r
                = MergePaper (row_get r "zotero_key" (VStr [])) properties
                  :: tail (row_statements env r)).
  { unfold row_statements. by rewrite Hpp, Hzk. }
  intros n Hn Hm x w Hx.
  assert (Hother : ∀ y, y ≠ "download_count" → y ≠ "cnki_citation" →
                        y ≠ "major_field" →
                        base_properties r (VStr []) !! y = None → x ≠ y).
  { intros y H1 H2 H3 Hy ->.
    destruct (paper_properties_lookup r properties y Hrow Hpp)
      as (ab & _ & Hl); [done..|].
    rewrite Hx in Hl. unfold base_properties in Hl, Hy.
    rewrite !lookup_insert_ne in Hl, Hy by
      (intros <-; rewrite lookup_insert_eq in Hy; discriminate Hy).
    congruence. }
  assert (H1 : x ≠ "imported_at") by (by apply Hother).
  assert (H2 : x ≠ "last_seen_in") by (by apply Hother).
  assert (H3 : x ≠ "issn") by (by apply Hother).
  change (props n !! x = stored w). apply (Hprops n x w Hn H1).
  rewrite Hqs, last_write_cons, last_write_unwritten.
  - rewrite last_write_singleton. unfold stmt_matches.
    cbn [merge_pattern write_map]. rewrite Hm.
    by rewrite lookup_insert_ne.
  - intros q Hq. by eapply row_statements_tail_writes.
Qed.

Lemma paper_properties_stored_witness :
  Forall (λ n, node_matches "Paper" "zotero_key"
                 (row_get (parse_row ascii_runtime sample_row1) "zotero_key"
                    (VStr [])) n = true →
               props n !! "download_count" = Some (VInt 3))
    (nodes (store (_import_paper quiet_env
                     (parse_row ascii_runtime sample_row1) session0).2)).
Proof.
  assert (Hpp : paper_properties (parse_row ascii_runtime sample_row1)
                = inr (sample_properties)).
  { apply paper_properties_spec. exists (u "An abstract").
    split; [vm_compute; reflexivity|reflexivity]. }
  assert (Hx : sample_properties !! "download_count" = Some (VInt 3))
    by (vm_compute; reflexivity).
  assert (Hk : is_str (row_get (parse_row ascii_runtime sample_row1)
                         "zotero_key" (VStr [])) = true)
    by (vm_compute; reflexivity).
  apply Forall_forall. intros n Hn Hm.
  exact (proj2 (paper_properties_stored ascii_runtime quiet_env sample_row1
                  session0 sample_properties quiet_env_no_faults Hpp Hk)
           n Hn Hm "download_count" (VInt 3) Hx).
Defined.

(** ** A fault in the middle of a row *)

(** X23: a row is not imported as a whole.  When the store fails at the
    statement that follows the merge of the paper, [_import_paper] raises
    with the paper already merged: the store is what that first statement
    alone leaves, and nothing takes it back. *)
Theorem import_paper_not_atomic (py : py_runtime) (env : run_env)
    (raw : gmap string pyval) (s : state) (properties : gmap string pyval)
    (a : ustr) (rest : list ustr) :
  paper_properties (parse_row py raw) = inr properties →
  is_str (row_get (parse_row py raw) "zotero_key" (VStr [])) = true →
  _split_authors (row_get (parse_row py raw) "authors" (VStr [])) = a :: rest →
  store_fault env (clock s) = false →
  store_fault env (S (clock s)) = true →
  (_import_paper env (parse_row py raw) s).1 = inl ServiceUnavailable
  ∧ run_cypher (clock s)
      (MergePaper (row_get (parse_row py raw) "zotero_key" (VStr []))
         properties) (store s)
    = inr (store (_import_paper env (parse_row py raw) s).2)
  ∧ has_node "Paper" "zotero_key"
      (row_get (parse_row py raw) "zotero_key" (VStr []))
      (store (_import_paper env (parse_row py raw) s).2).
Proof.
  intros Hpp Hstr Hauth Hf0 Hf1.
  assert (Hkey : row_get (parse_row py raw) "zotero_key" (VStr []) ≠ VNone)
    by (by destruct (row_get (parse_row py raw) "zotero_key" (VStr []))).
  pose proof (parse_row_parsed py raw) as Hrow.
  set (r := parse_row py raw) in *.
  pose proof (paper_key_parsed r properties Hrow Hpp) as Hzk.
  unfold paper_key_of in Hzk.
  assert (Hwf : wf_stmt (MergePaper (row_get r "zotero_key" (VStr []))
                           properties)).
  { split; [done|].
    pose proof (row_statements_props_ok env r Hrow) as Hok.
    unfold row_statements in Hok. rewrite Hpp in Hok.
    apply Forall_cons in Hok as [Hok _].
    unfold paper_key_of in Hok. by rewrite Hzk in Hok. }
  destruct (run_cypher_total (clock s) _ (store s) (proj1 Hwf)) as [g Hg].
  assert (Ha : truthy (VStr a) = true).
  { apply (split_authors_truthy (row_get r "authors" (VStr []))).
    rewrite Hauth. by left. }
  assert (Hrun : _import_paper env r s
                 = (inl ServiceUnavailable,
                    {| store := g; clock := S (S (clock s));
                       log := log s |})).
  { unfold _import_paper. rewrite bind_unfold. unfold lift. rewrite Hpp.
    rewrite Hzk, bind_unfold. unfold session_run at 1.
    rewrite Hf0, Hg. rewrite bind_unfold, Hauth.
    cbn [for_each]. rewrite bind_unfold, Ha, bind_unfold.
    unfold session_run at 1. cbn [clock]. by rewrite Hf1. }
  rewrite Hrun. cbn [fst snd store]. split; [done|]. split; [done|].
  by apply (has_node_merged (clock s) _ (store s) g _ _ _ Hwf Hg).
Qed.

Lemma import_paper_not_atomic_witness :
  (_import_paper second_fault_env (parse_row ascii_runtime sample_row1)
     session0).1 = inl ServiceUnavailable
  ∧ has_node "Paper" "zotero_key"
      (row_get (parse_row ascii_runtime sample_row1) "zotero_key" (VStr []))
      (store (_import_paper second_fault_env
                (parse_row ascii_runtime sample_row1) session0).2).
Proof.
  assert (Hpp : paper_properties (parse_row ascii_runtime sample_row1)
                = inr (sample_properties)).
  { apply paper_properties_spec. exists (u "An abstract").
    split; [vm_compute; reflexivity|reflexivity]. }
  assert (Hk : is_str (row_get (parse_row ascii_runtime sample_row1)
                         "zotero_key" (VStr [])) = true)
    by (vm_compute; reflexivity).
  assert (Ha : _split_authors (row_get (parse_row ascii_runtime sample_row1)
                                 "authors" (VStr [])) = u "A" :: [u "B"])
    by (vm_compute; reflexivity).
  pose proof (import_paper_not_atomic ascii_runtime second_fault_env
                sample_row1 session0 sample_properties (u "A") [u "B"]
                Hpp Hk Ha eq_refl eq_refl) as (H1 & _ & H3).
  split; [exact H1|exact H3].
Defined.

(** ** The relationships of a run *)

Lemma link_pattern_schema (q : cypher) (t : string) (pk : pyval)
    (l : string) (v : pyval) :
  link_pattern q = Some (t, pk, l, v) → (t, l) ∈ edge_schema.
Proof.
  unfold edge_schema.
  destruct q; simpl; intros H; simplify_eq;
    repeat (first [apply list_elem_of_here|apply list_elem_of_further]).
Qed.

(** X24: after an import that began with the wipe, every relationship of the
    store leaves a node labelled [Paper] and reaches a node that bears
    the one label proper to its type: an [Author] for [AUTHORED_BY], a
    [Keyword] for [HAS_KEYWORD], and so on; both ends are in the store. *)
Theorem import_edges_by_type (py : py_runtime) (env : run_env)
    (raw : list (gmap string pyval)) (s : state) :
  store_fault env (clock s) = false →
  ∀ e, e ∈ edges (store (import_to_neo4j env (parse_csv py raw) true s).2) →
    ∃ p x l,
      p ∈ nodes (store (import_to_neo4j env (parse_csv py raw) true s).2)
      ∧ x ∈ nodes (store (import_to_neo4j env (parse_csv py raw) true s).2)
      ∧ esrc e = nid p ∧ edst e = nid x
      ∧ labels p = ["Paper"] ∧ labels x = [l]
      ∧ (etype e, l) ∈ edge_schema.
Proof.
  intros Hf e He.
  pose proof (import_clear_origin py env raw s) as Horigin.
  rewrite import_to_neo4j_clear in He, Horigin |- * by done.
  match goal with |- context [import_to_neo4j _ _ false ?s0] =>
    destruct (import_keep_trace py env raw s0) as (tr & Hst & Hwf & _)
  end.
  rewrite Hst in He, Horigin |- *.
  destruct (run_trace_origin tr empty_graph Hwf) as [_ Hedges].
  simpl in Hedges.
  destruct (Hedges e He)
    as [[]%elem_of_nil|(q & t & pk & l & v & p & x & Hq & Hl & Hp & Hx
                        & Hmp & Hmx & ->)].
  exists p, x, l. split; [done|]. split; [done|].
  split; [done|]. split; [done|].
  apply node_matches_spec in Hmp as (_ & Hlp & _).
  apply node_matches_spec in Hmx as (_ & Hlx & _).
  destruct (Horigin p Hf Hp) as (_ & _ & lp & _ & _ & _ & _ & _ & _ & Hp1 & _).
  destruct (Horigin x Hf Hx) as (_ & _ & lx & _ & _ & _ & _ & _ & _ & Hx1 & _).
  rewrite Hp1 in Hlp |- *. rewrite Hx1 in Hlx |- *.
  apply list_elem_of_singleton in Hlp as ->.
  apply list_elem_of_singleton in Hlx as ->.
  split; [done|]. split; [done|]. by eapply link_pattern_schema.
Qed.

Lemma import_edges_by_type_witness :
  Forall (λ e, ∃ l, (etype e, l) ∈ edge_schema)
    (edges (store (import_to_neo4j quiet_env
                     (parse_csv ascii_runtime sample_df) true session1).2)).
Proof.
  apply Forall_forall. intros e He.
  destruct (import_edges_by_type ascii_runtime quiet_env sample_df session1
              eq_refl e He) as (_ & _ & l & _ & _ & _ & _ & _ & _ & Hl).
  exists l. exact Hl.
Defined.
